(** * PoolSimulation.js: the physics core of the billiard simulation

    A shallow embedding of the per-frame step of
    [Computer_Graphics_Billiard/PoolSimulation.js] (function [render]), of the
    pairwise collision resolver ([collisionVel]) and of the speed boost
    ([eventHandler], key S), with the properties of the specification stated
    over it.

    Numbers.  JavaScript numbers are modelled as real numbers extended with
    one non-finite value [NaN]: arithmetic is exact (no rounding, no
    overflow), a quotient by zero is non-finite, and non-finite values
    propagate through every operation, as NaN does.  No quotient of the
    program has a divisor that can vanish ([normalize] divides by
    [length() || 1], the other divisors are constants), so that Infinity
    never needs to be told apart from NaN. *)

From Stdlib Require Import Reals Lra Lia ZArith List Bool Psatz.
From Stdlib Require RNsatz.
Import ListNotations.
Local Open Scope R_scope.

(* ------------------------------------------------------------------ *)
(** ** Numbers *)

Inductive num : Type :=
| Fin (r : R)
| NaN.

Declare Scope num_scope.
Delimit Scope num_scope with num.
Bind Scope num_scope with num.

Definition num_add (a b : num) : num :=
  match a, b with Fin p, Fin q => Fin (p + q) | _, _ => NaN end.

Definition num_sub (a b : num) : num :=
  match a, b with Fin p, Fin q => Fin (p - q) | _, _ => NaN end.

Definition num_mul (a b : num) : num :=
  match a, b with Fin p, Fin q => Fin (p * q) | _, _ => NaN end.

(** [a / b]; a zero divisor gives a non-finite quotient. *)
Definition num_div (a b : num) : num :=
  match a, b with
  | Fin p, Fin q => if Req_dec_T q 0 then NaN else Fin (p / q)
  | _, _ => NaN
  end.

(** [a || b] on numbers: [b] when [a] is falsy, that is 0 or NaN. *)
Definition num_or (a b : num) : num :=
  match a with
  | Fin p => if Req_dec_T p 0 then b else a
  | NaN => b
  end.

Definition num_neg (a : num) : num :=
  match a with Fin p => Fin (- p) | NaN => NaN end.

(** [Math.abs], [Math.sqrt], [Math.cos], [Math.sin]. *)
Definition Math_abs (a : num) : num :=
  match a with Fin p => Fin (Rabs p) | NaN => NaN end.

Definition Math_sqrt (a : num) : num :=
  match a with
  | Fin p => if Rlt_dec p 0 then NaN else Fin (sqrt p)
  | NaN => NaN
  end.

Definition Math_cos (a : num) : num :=
  match a with Fin p => Fin (cos p) | NaN => NaN end.

Definition Math_sin (a : num) : num :=
  match a with Fin p => Fin (sin p) | NaN => NaN end.

(** [a < b] and [a > b]: false as soon as one side is NaN. *)
Definition num_ltb (a b : num) : bool :=
  match a, b with
  | Fin p, Fin q => if Rlt_dec p q then true else false
  | _, _ => false
  end.

Definition num_gtb (a b : num) : bool := num_ltb b a.

Notation "a + b" := (num_add a b) : num_scope.
Notation "a - b" := (num_sub a b) : num_scope.
Notation "a * b" := (num_mul a b) : num_scope.
Notation "a / b" := (num_div a b) : num_scope.
Notation "- a" := (num_neg a) : num_scope.
Notation "a <? b" := (num_ltb a b) (at level 70) : num_scope.
Notation "a >? b" := (num_gtb a b) (at level 70) : num_scope.

Definition finite (a : num) : Prop :=
  match a with Fin _ => True | NaN => False end.

(** Order on finite numbers; nothing is below or above NaN. *)
Definition num_le (a b : num) : Prop :=
  match a, b with Fin p, Fin q => p <= q | _, _ => False end.

(** [Math.round] and [Math.floor] on a finite real, and the remainder [%]
    of two reals (the quotient is truncated towards zero, so the result has
    the sign of the dividend). *)
Definition Math_floor (r : R) : Z := Zfloor r.

Definition Math_round (r : R) : Z := Zfloor (r + / 2).

Definition trunc (r : R) : Z := if Rlt_dec r 0 then Zceil r else Zfloor r.

Definition js_rem (a b : R) : R := a - b * IZR (trunc (a / b)).

(** [a % b] on numbers. *)
Definition num_rem (a b : num) : num :=
  match a, b with
  | Fin p, Fin q => if Req_dec_T q 0 then NaN else Fin (js_rem p q)
  | _, _ => NaN
  end.

(* ------------------------------------------------------------------ *)
(** ** The vector and matrix primitives of three.js

    The library is not part of the sources of the repository; the
    specification takes it as given (section 2, "Vector Math") and describes
    the primitives where it uses them (sections 4.2 and 4.3). *)

Module THREE.

Local Open Scope num_scope.

(** Modelled from the spec: [THREE.Vector3], a vector of three numbers
    (section 3, "3D point", "3D vector"). *)
Record Vector3 : Type := Vec3 { x : num; y : num; z : num }.

(** Modelled from the spec: [new THREE.Vector3()], the zero vector. *)
Definition zero : Vector3 := Vec3 (Fin 0) (Fin 0) (Fin 0).

(** Modelled from the spec: [Vector3.clone] of three.js; a copy, equal to the
    vector it is taken from. *)
Definition clone (v : Vector3) : Vector3 := v.

(** Modelled from the spec: [Vector3.add] / [addVectors] of three.js, the
    sum of two vectors (4.2, [position + velocity * dt]). *)
Definition addVectors (a b : Vector3) : Vector3 :=
  Vec3 (x a + x b) (y a + y b) (z a + z b).

(** Modelled from the spec: [Vector3.add] of three.js, [v + w]. *)
Definition add (v w : Vector3) : Vector3 := addVectors v w.

(** Modelled from the spec: [Vector3.subVectors] of three.js, the difference
    [a - b] (4.3 step 1, [balls[j].position - balls[i].position]). *)
Definition subVectors (a b : Vector3) : Vector3 :=
  Vec3 (x a - x b) (y a - y b) (z a - z b).

(** Modelled from the spec: [Vector3.multiplyScalar] of three.js, every
    component times the scalar (4.4, "scale the full velocity vector"). *)
Definition multiplyScalar (v : Vector3) (s : num) : Vector3 :=
  Vec3 (x v * s) (y v * s) (z v * s).

(** Modelled from the spec: [Vector3.divideScalar] of three.js, every
    component divided by the scalar. *)
Definition divideScalar (v : Vector3) (s : num) : Vector3 :=
  Vec3 (x v / s) (y v / s) (z v / s).

(** Modelled from the spec: [Vector3.dot] of three.js (4.3 step 2, the
    projection [velocity . n]). *)
Definition dot (v w : Vector3) : num :=
  x v * x w + y v * y w + z v * z w.

(** Modelled from the spec: [Vector3.cross] of three.js (4.2, the axis
    [cross((0,0,1), velocity)]). *)
Definition cross (a b : Vector3) : Vector3 :=
  Vec3 (y a * z b - z a * y b)
       (z a * x b - x a * z b)
       (x a * y b - y a * x b).

(** Modelled from the spec: [Vector3.length] of three.js, the Euclidean
    norm (4.2, [|velocity|]). *)
Definition length (v : Vector3) : num :=
  Math_sqrt (x v * x v + y v * y v + z v * z v).

(** Modelled from the spec: [Vector3.distanceTo] of three.js (4.3,
    [distance(balls[i].position, balls[j].position)]). *)
Definition distanceTo (a b : Vector3) : num :=
  let dx := x a - x b in
  let dy := y a - y b in
  let dz := z a - z b in
  Math_sqrt (dx * dx + dy * dy + dz * dz).

(** Modelled from the spec: [Vector3.normalize] of three.js, the vector
    divided by its length (4.2 and 4.3 step 1).  three.js computes
    [this.divideScalar(this.length() || 1)]: a vector of length zero is
    divided by 1 and stays the zero vector, so that the normal of two
    coincident centres and the rotation axis of a ball at rest are the zero
    vector, not NaN. *)
Definition normalize (v : Vector3) : Vector3 :=
  divideScalar v (num_or (length v) (Fin 1)).

(** Modelled from the spec: [THREE.Matrix4], the matrix of a mesh (4.2, the
    orientation of a ball); [nij] is the entry of row [i] and column [j]. *)
Record Matrix4 : Type := Mat4 {
  n11 : num; n12 : num; n13 : num; n14 : num;
  n21 : num; n22 : num; n23 : num; n24 : num;
  n31 : num; n32 : num; n33 : num; n34 : num;
  n41 : num; n42 : num; n43 : num; n44 : num
}.

(** Modelled from the spec: [new THREE.Matrix4()], the identity. *)
Definition identity : Matrix4 :=
  Mat4 (Fin 1) (Fin 0) (Fin 0) (Fin 0)
       (Fin 0) (Fin 1) (Fin 0) (Fin 0)
       (Fin 0) (Fin 0) (Fin 1) (Fin 0)
       (Fin 0) (Fin 0) (Fin 0) (Fin 1).

(** Modelled from the spec: [Matrix4.setPosition] of three.js; the
    translation column receives the vector. *)
Definition setPosition (m : Matrix4) (v : Vector3) : Matrix4 :=
  Mat4 (n11 m) (n12 m) (n13 m) (x v)
       (n21 m) (n22 m) (n23 m) (y v)
       (n31 m) (n32 m) (n33 m) (z v)
       (n41 m) (n42 m) (n43 m) (n44 m).

(** Modelled from the spec: [Matrix4.makeRotationAxis] of three.js, the
    rotation of the given angle about the given axis (4.2, "a rotation of
    angle [omega * dt] about the rotation axis"). *)
Definition makeRotationAxis (axis : Vector3) (angle : num) : Matrix4 :=
  let c := Math_cos angle in
  let s := Math_sin angle in
  let t := Fin 1 - c in
  let tx := t * x axis in
  let ty := t * y axis in
  Mat4 (tx * x axis + c) (tx * y axis - s * z axis) (tx * z axis + s * y axis) (Fin 0)
       (tx * y axis + s * z axis) (ty * y axis + c) (ty * z axis - s * x axis) (Fin 0)
       (tx * z axis - s * y axis) (ty * z axis + s * x axis) (t * z axis * z axis + c) (Fin 0)
       (Fin 0) (Fin 0) (Fin 0) (Fin 1).

(** Modelled from the spec: [Matrix4.multiply] of three.js, the product
    [a b] (4.2, "composing the ball's current orientation with a
    rotation"). *)
Definition multiply (a b : Matrix4) : Matrix4 :=
  Mat4
   (n11 a * n11 b + n12 a * n21 b + n13 a * n31 b + n14 a * n41 b)
   (n11 a * n12 b + n12 a * n22 b + n13 a * n32 b + n14 a * n42 b)
   (n11 a * n13 b + n12 a * n23 b + n13 a * n33 b + n14 a * n43 b)
   (n11 a * n14 b + n12 a * n24 b + n13 a * n34 b + n14 a * n44 b)
   (n21 a * n11 b + n22 a * n21 b + n23 a * n31 b + n24 a * n41 b)
   (n21 a * n12 b + n22 a * n22 b + n23 a * n32 b + n24 a * n42 b)
   (n21 a * n13 b + n22 a * n23 b + n23 a * n33 b + n24 a * n43 b)
   (n21 a * n14 b + n22 a * n24 b + n23 a * n34 b + n24 a * n44 b)
   (n31 a * n11 b + n32 a * n21 b + n33 a * n31 b + n34 a * n41 b)
   (n31 a * n12 b + n32 a * n22 b + n33 a * n32 b + n34 a * n42 b)
   (n31 a * n13 b + n32 a * n23 b + n33 a * n33 b + n34 a * n43 b)
   (n31 a * n14 b + n32 a * n24 b + n33 a * n34 b + n34 a * n44 b)
   (n41 a * n11 b + n42 a * n21 b + n43 a * n31 b + n44 a * n41 b)
   (n41 a * n12 b + n42 a * n22 b + n43 a * n32 b + n44 a * n42 b)
   (n41 a * n13 b + n42 a * n23 b + n43 a * n33 b + n44 a * n43 b)
   (n41 a * n14 b + n42 a * n24 b + n43 a * n34 b + n44 a * n44 b).

(** Modelled from the spec: [THREE.Mesh], of which the simulation reads and
    writes the position and the matrix (section 3, [position] and
    [orientation] of a ball). *)
Record Mesh : Type := mkMesh { position : Vector3; matrix : Matrix4 }.

End THREE.

Import THREE.
Local Open Scope num_scope.

(* ------------------------------------------------------------------ *)
(** ** Configuration and state *)

(** The entries of [defaultSettings] that the physics reads. *)
Record Settings : Type := mkSettings {
  tableSize : num;
  tableWidth : num;
  nrOfBalls : nat;
  ballRadius : num;
  massOfSphere : num
}.

Definition defaultSettings : Settings :=
  {| tableSize := Fin 10;
     tableWidth := Fin 0.5;
     nrOfBalls := 8;
     ballRadius := Fin 0.20;
     massOfSphere := Fin 1 |}.

Definition rollFric : num := Fin 0.8.
Definition colliFric : num := Fin 0.7.

(** What the frame did, most recent first.  The trace is not a variable of
    the program: it records each execution of the velocity update of
    [collisionVel] (lines 300-329, for the ball [ID] and the ball [i]) and
    each execution of the friction decay of line 277 (for the ball [i]). *)
Inductive Event : Type :=
| Resolved (ID i : nat)
| Decayed (i : nat).

(** The mutable state: [balls] is [table.children] from index 8 on (the
    first eight children are the cushions and the legs), [velocity] the
    global array of the same name.  Both hold [nrOfBalls] entries once
    [createBilliardBalls] has run. *)
Record State : Type := mkState {
  balls : list Mesh;
  velocity : list Vector3;
  currentTime : Z;
  currentSecond : Z;
  previousSec : Z;
  trace : list Event
}.

Definition noMesh : Mesh := mkMesh (Vec3 NaN NaN NaN) identity.
Definition noVector : Vector3 := Vec3 NaN NaN NaN.

(** [a[i]] and [a[i] = v].  A read or a write past the end does not occur in
    a state with [nrOfBalls] balls and velocities ([wellFormed] below); the
    model then reads a placeholder and writes nothing. *)
Definition ballAt (s : State) (i : nat) : Mesh := nth i (balls s) noMesh.
Definition velocityAt (s : State) (i : nat) : Vector3 := nth i (velocity s) noVector.

Fixpoint assign {A : Type} (l : list A) (i : nat) (v : A) : list A :=
  match l, i with
  | [], _ => []
  | _ :: t, O => v :: t
  | h :: t, S j => h :: assign t j v
  end.

Definition setVelocity (s : State) (i : nat) (v : Vector3) : State :=
  mkState (balls s) (assign (velocity s) i v)
          (currentTime s) (currentSecond s) (previousSec s) (trace s).

Definition setBall (s : State) (i : nat) (b : Mesh) : State :=
  mkState (assign (balls s) i b) (velocity s)
          (currentTime s) (currentSecond s) (previousSec s) (trace s).

Definition setPreviousSec (s : State) (t : Z) : State :=
  mkState (balls s) (velocity s) (currentTime s) (currentSecond s) t (trace s).

Definition record (e : Event) (s : State) : State :=
  mkState (balls s) (velocity s)
          (currentTime s) (currentSecond s) (previousSec s) (e :: trace s).

Definition wellFormed (s : State) : Prop :=
  List.length (balls s) = nrOfBalls defaultSettings /\
  List.length (velocity s) = nrOfBalls defaultSettings.

(* ------------------------------------------------------------------ *)
(** ** collisionVel *)

(** Lines 300-329: the velocity update for the ball [ID] (the mesh [ball])
    and the ball [i], once they were found closer than two radii. *)
Definition collide (ball : Mesh) (ID i : nat) (s : State) : State :=
  let A := ball in
  let B := ballAt s i in
  let n := normalize (subVectors (position B) (position A)) in
  let a1 := dot (velocityAt s ID) n in
  let a2 := dot (velocityAt s i) n in
  let optimizedP :=
    (Fin 2 * (a1 - a2)) / (massOfSphere defaultSettings + massOfSphere defaultSettings) in
  let scalarN := multiplyScalar (clone n) (optimizedP * massOfSphere defaultSettings) in
  let viPrime := subVectors (velocityAt s ID) scalarN in
  let vdPrime := addVectors (velocityAt s i) scalarN in
  record (Resolved ID i) (setVelocity (setVelocity s ID viPrime) i vdPrime).

(** Lines 298-330: one turn of the loop of [collisionVel]. *)
Definition collisionVel_turn (ball : Mesh) (ID i : nat) (s : State) : State :=
  if Nat.eqb i ID then s
  else if distanceTo (position ball) (position (ballAt s i))
            <? ballRadius defaultSettings * Fin 2
       then collide ball ID i s
       else s.

(** The loop [for (let i = ...; i < table.children.length - 8; i++)], with
    [k] turns left. *)
Fixpoint collisionVel_from (ball : Mesh) (ID : nat) (k i : nat) (s : State) : State :=
  match k with
  | O => s
  | S k' => collisionVel_from ball ID k' (S i) (collisionVel_turn ball ID i s)
  end.

Definition collisionVel (ball : Mesh) (ID : nat) (s : State) : State :=
  collisionVel_from ball ID (List.length (balls s)) 0 s.

(* ------------------------------------------------------------------ *)
(** ** render *)

(** Lines 239-253 (and 345-361 of [eventHandler]): translation of the ball
    [i] along its velocity and rotation of its matrix. *)
Definition move (dt : R) (i : nat) (s : State) : State :=
  let ball := ballAt s i in
  let rotationAxis := normalize (cross (Vec3 (Fin 0) (Fin 0) (Fin 1)) (velocityAt s i)) in
  let omega := length (velocityAt s i) / ballRadius defaultSettings in
  let pos := add (position ball) (multiplyScalar (clone (velocityAt s i)) (Fin dt)) in
  let changedRotation := makeRotationAxis rotationAxis (omega * Fin dt) in
  setBall s i (mkMesh pos (multiply (setPosition (matrix ball) pos) changedRotation)).

(** The bounds of the ball centres, [tableSize / 2 - ballRadius] and
    [tableSize / 4 - ballRadius]. *)
Definition halfWidth : num :=
  tableSize defaultSettings / Fin 2 - ballRadius defaultSettings.
Definition halfHeight : num :=
  tableSize defaultSettings / Fin 4 - ballRadius defaultSettings.

(** Lines 256-263: the short cushions. *)
Definition cushionX (p v : Vector3) : Vector3 :=
  if x p >? halfWidth
  then multiplyScalar (Vec3 (- Math_abs (x v)) (y v) (z v)) rollFric
  else if x p <? - halfWidth
  then multiplyScalar (Vec3 (Math_abs (x v)) (y v) (z v)) rollFric
  else v.

(** Lines 265-272: the long cushions. *)
Definition cushionY (p v : Vector3) : Vector3 :=
  if y p >? halfHeight
  then multiplyScalar (Vec3 (x v) (- Math_abs (y v)) (z v)) rollFric
  else if y p <? - halfHeight
  then multiplyScalar (Vec3 (x v) (Math_abs (y v)) (z v)) rollFric
  else v.

Definition cushions (i : nat) (s : State) : State :=
  let p := position (ballAt s i) in
  setVelocity s i (cushionY p (cushionX p (velocityAt s i))).

(** Lines 276-284: the decay of every velocity, [k] balls left from [i] on.
    (The axis and the angular speed recomputed there are not used.) *)
Fixpoint decay_from (k i : nat) (s : State) : State :=
  match k with
  | O => s
  | S k' =>
      decay_from k' (S i)
        (record (Decayed i)
           (setVelocity s i (multiplyScalar (velocityAt s i) rollFric)))
  end.

(** Lines 275-286. *)
Definition friction (s : State) : State :=
  if Z.eqb (currentSecond s) (previousSec s) then s
  else setPreviousSec (decay_from (nrOfBalls defaultSettings) 0 s) (currentSecond s).

(** Lines 235-286: the body of the loop of [render] for the ball [i]. *)
Definition render_ball (dt : R) (i : nat) (s : State) : State :=
  let ball := ballAt s i in
  friction (cushions i (move dt i (collisionVel ball i s))).

(** Lines 231-287; the test [dt > 0.15] leaves the loop. *)
Fixpoint render_from (dt : R) (k i : nat) (s : State) : State :=
  match k with
  | O => s
  | S k' =>
      if Fin dt >? Fin 0.15 then s
      else render_from dt k' (S i) (render_ball dt i s)
  end.

(** Lines 228-229. *)
Definition secondOf (t : Z) : Z :=
  Math_floor (js_rem (IZR t / 1000) 60).

Definition tick (dt : R) (s : State) : State :=
  let t := (currentTime s + Math_round (dt * 1000))%Z in
  mkState (balls s) (velocity s) t (secondOf t) (previousSec s) (trace s).

(** One frame: [dt] is what [clock.getDelta()] returned. *)
Definition render (dt : R) (s : State) : State :=
  render_from dt (nrOfBalls defaultSettings) 0 (tick dt s).

(** A run of frames. *)
Definition frames (dts : list R) (s : State) : State :=
  fold_left (fun s dt => render dt s) dts s.

(* ------------------------------------------------------------------ *)
(** ** eventHandler *)

(** Lines 341-363: the speed boost; [delta i] is what [clock.getDelta()]
    returns in the turn of the ball [i]. *)
Fixpoint boost_from (delta : nat -> R) (k i : nat) (s : State) : State :=
  match k with
  | O => s
  | S k' =>
      let s1 := setVelocity s i (multiplyScalar (velocityAt s i) (colliFric + colliFric)) in
      boost_from delta k' (S i) (move (delta i) i s1)
  end.

(** The key R (82) moves the camera only. *)
Definition eventHandler (keyCode : Z) (delta : nat -> R) (s : State) : State :=
  if Z.eqb keyCode 82 then s
  else if Z.eqb keyCode 83 then boost_from delta (nrOfBalls defaultSettings) 0 s
  else s.

(* ------------------------------------------------------------------ *)
(** ** createBilliardBalls *)

(** Lines 199-207.  [rand] is the sequence of the values that [Math.random()]
    returns and [c] the number of values drawn so far; [others] are the
    balls already on the table.  The function calls itself for as long as
    the position drawn touches a ball, so that the model takes a bound
    [fuel] on the depth of the calls and returns [None] when it is
    exceeded. *)
Fixpoint getBallPosition (fuel : nat) (rand : nat -> R) (others : list Mesh)
    (c : nat) (BB : Mesh) : option (Mesh * nat) :=
  match fuel with
  | O => None
  | S fuel' =>
      let BB1 :=
        mkMesh (Vec3 (num_rem ((Fin (rand c) - Fin 0.5) * Fin 100) halfWidth)
                     (num_rem ((Fin (rand (S c)) - Fin 0.5) * Fin 100) halfHeight)
                     (tableWidth defaultSettings - Fin 0.05))
               (matrix BB) in
      (fix check (rest : list Mesh) (c : nat) (BB : Mesh) {struct rest} : option (Mesh * nat) :=
         match rest with
         | [] => Some (BB, c)
         | other :: rest' =>
             if distanceTo (position BB) (position other) <? ballRadius defaultSettings * Fin 2
             then match getBallPosition fuel' rand others c BB with
                  | None => None
                  | Some (BB', c') => check rest' c' BB'
                  end
             else check rest' c BB
         end) others (S (S c)) BB1
  end.

(** Lines 209-211. *)
Definition getBallVelocity (rand : nat -> R) (c : nat) : Vector3 :=
  Vec3 ((Fin (rand c) - Fin 0.5) * Fin 6) ((Fin (rand (S c)) - Fin 0.5) * Fin 6) (Fin 0).

(** Lines 185-197, with [k] balls left to create; [placed] and [vels] are
    the balls and the velocities created so far. *)
Fixpoint createBilliardBalls_from (fuel : nat) (rand : nat -> R) (k : nat) (c : nat)
    (placed : list Mesh) (vels : list Vector3) : option (list Mesh * list Vector3) :=
  match k with
  | O => Some (placed, vels)
  | S k' =>
      let billiardBall := mkMesh zero identity in
      match getBallPosition fuel rand placed c billiardBall with
      | None => None
      | Some (BB, c') =>
          createBilliardBalls_from fuel rand k' (S (S c'))
            (placed ++ [BB]) (vels ++ [getBallVelocity rand c'])
      end
  end.

Definition createBilliardBalls (fuel : nat) (rand : nat -> R)
  : option (list Mesh * list Vector3) :=
  createBilliardBalls_from fuel rand (nrOfBalls defaultSettings) 0 [] [].

(** The height of the ball centres, [tableWidth - 0.05]. *)
Definition restingPlane : R := (0.5 - 0.05)%R.

(** Lines 213-215: the state when the first frame is drawn; [t] is what
    [new Date().getTime()] returned. *)
Definition start (t : Z) (created : list Mesh * list Vector3) : State :=
  mkState (fst created) (snd created) t (secondOf t) (secondOf t) [].

(* ------------------------------------------------------------------ *)
(** ** Runs of the simulation *)

(** What drives the simulation: a frame with its time step, or a key with
    the time steps its handler reads from the clock. *)
Inductive Input : Type :=
| Frame (dt : R)
| Key (keyCode : Z) (delta : nat -> R).

Definition react (s : State) (e : Input) : State :=
  match e with
  | Frame dt => render dt s
  | Key keyCode delta => eventHandler keyCode delta s
  end.

Definition run (inputs : list Input) (s : State) : State :=
  fold_left react inputs s.

(* ------------------------------------------------------------------ *)
(** ** Traces and simulated time *)

(** The clock of a state: the three time variables. *)
Definition clockOf (s : State) : Z * Z * Z :=
  (currentTime s, currentSecond s, previousSec s).

(** Counting in a trace: the updates of the ordered pair [(ID, i)] and the
    decays of the ball [i]. *)
Definition isResolved (ID i : nat) (e : Event) : bool :=
  match e with
  | Resolved a b => Nat.eqb a ID && Nat.eqb b i
  | Decayed _ => false
  end.

Definition isDecayed (i : nat) (e : Event) : bool :=
  match e with
  | Resolved _ _ => false
  | Decayed b => Nat.eqb b i
  end.

Definition count (p : Event -> bool) (tr : list Event) : nat :=
  List.length (filter p tr).

Definition resolutions (ID i : nat) (tr : list Event) : nat := count (isResolved ID i) tr.
Definition decays (i : nat) (tr : list Event) : nat := count (isDecayed i) tr.

(** The milliseconds a frame adds to [currentTime]. *)
Definition elapsed (dt : R) : Z := Math_round (dt * 1000).

(** The simulated time of a run of frames: what they add to [currentTime],
    in milliseconds. *)
Definition simulated (dts : list R) : Z :=
  fold_right (fun dt acc => (elapsed dt + acc)%Z) 0%Z dts.

(* ------------------------------------------------------------------ *)
(** ** Predicates of the statements *)

Definition finiteV (v : Vector3) : Prop :=
  finite (x v) /\ finite (y v) /\ finite (z v).

(** A matrix whose sixteen entries are numbers. *)
Definition finiteM (m : Matrix4) : Prop :=
  (finite (n11 m) /\ finite (n12 m) /\ finite (n13 m) /\ finite (n14 m)) /\
  (finite (n21 m) /\ finite (n22 m) /\ finite (n23 m) /\ finite (n24 m)) /\
  (finite (n31 m) /\ finite (n32 m) /\ finite (n33 m) /\ finite (n34 m)) /\
  (finite (n41 m) /\ finite (n42 m) /\ finite (n43 m) /\ finite (n44 m)).

(** What one cushion test can do to a finite velocity: every component keeps
    or loses magnitude. *)
Definition shrunk (v w : Vector3) : Prop :=
  exists a b c a' b' c',
    v = Vec3 (Fin a) (Fin b) (Fin c) /\
    w = Vec3 (Fin a') (Fin b') (Fin c') /\
    (a' * a' <= a * a)%R /\ (b' * b' <= b * b)%R /\ (c' * c' <= c * c)%R.

(** The squared distance of two finite points and when it vanishes. *)
Definition sqdist (a b c a' b' c' : R) : R :=
  ((a' - a) * (a' - a) + (b' - b) * (b' - b) + (c' - c) * (c' - c))%R.

(** The vector [scalarN] of line 322, from the two centres and the two
    velocities. *)
Definition impulse (pA pB vA vB : Vector3) : Vector3 :=
  let n := normalize (subVectors pB pA) in
  let a1 := dot vA n in
  let a2 := dot vB n in
  let optimizedP :=
    (Fin 2 * (a1 - a2)) / (massOfSphere defaultSettings + massOfSphere defaultSettings) in
  multiplyScalar (clone n) (optimizedP * massOfSphere defaultSettings).

Definition horizontal (v : Vector3) : Prop :=
  exists a b, v = Vec3 (Fin a) (Fin b) (Fin 0).

Definition atHeight (h : R) (p : Vector3) : Prop :=
  exists a b, p = Vec3 (Fin a) (Fin b) (Fin h).

(** A state is on the plane [h] when every centre is finite and at the
    height [h] and every velocity is finite and horizontal. *)
Definition onPlane (h : R) (s : State) : Prop :=
  (forall j, (j < List.length (balls s))%nat ->
     exists a b, position (ballAt s j) = Vec3 (Fin a) (Fin b) (Fin h)) /\
  (forall j, (j < List.length (velocity s))%nat ->
     exists a b, velocityAt s j = Vec3 (Fin a) (Fin b) (Fin 0)).

(** The invariant of a run: the two arrays have the same length, and the
    state is on the plane. *)
Definition sound (h : R) (s : State) : Prop :=
  List.length (balls s) = List.length (velocity s) /\ onPlane h s.

(** Every mesh has a matrix whose entries are numbers. *)
Definition finiteMeshes (s : State) : Prop :=
  forall j, (j < List.length (balls s))%nat -> finiteM (matrix (ballAt s j)).

(** The containment that C2 states: every centre within the bounds. *)
Definition inBounds (s : State) : Prop :=
  forall j, (j < nrOfBalls defaultSettings)%nat ->
    num_le (Math_abs (x (position (ballAt s j)))) halfWidth /\
    num_le (Math_abs (y (position (ballAt s j)))) halfHeight.

(* ------------------------------------------------------------------ *)
(** ** Concrete states *)

Definition ballHere (px py : R) : Mesh :=
  mkMesh (Vec3 (Fin px) (Fin py) (Fin restingPlane)) identity.

Definition going (vx vy : R) : Vector3 := Vec3 (Fin vx) (Fin vy) (Fin 0).

(** Eight balls: the first two where and as fast as the arguments say, the
    other six in a row near the lower cushion.  The clock is at zero. *)
Definition layout (p0 p1 v0 v1 : R * R) : State :=
  mkState
    [ ballHere (fst p0) (snd p0); ballHere (fst p1) (snd p1);
      ballHere (-3) (-2); ballHere (-2) (-2); ballHere (-1) (-2);
      ballHere 0 (-2); ballHere 1 (-2); ballHere 2 (-2) ]
    [ going (fst v0) (snd v0); going (fst v1) (snd v1);
      going 1 1; going 1 1; going 1 1; going 1 1; going 1 1; going 1 1 ]
    0 0 0 [].

(** Two balls overlapping, approaching each other head on. *)
Definition headOn : State := layout (0, 0) (0.3, 0) (1, 0) (-1, 0).

(** Two balls with the same centre. *)
Definition clash : State := layout (1, 0) (1, 0) (1, 0) (-1, 0).

(** A ball at rest. *)
Definition resting : State := layout (0, 0) (2, 0) (0, 0) (1, 0).

(** A ball next to the right cushion, moving towards it. *)
Definition atCushion : State := layout (4.7, 0) (0, 0) (2, 0) (1, 1).

(** A ball beyond the right cushion, still moving outwards. *)
Definition beyondCushion : State := layout (4.9, 0) (0, 0) (2, 1) (1, 1).

(** The state [headOn] after the turn of the ball 0 in a frame of 0.01 s. *)
Definition headOn1 : State := render_ball 0.01 0 (tick 0.01 headOn).

(** The same state after the turn of the ball 1. *)
Definition headOn2 : State := render_ball 0.01 1 headOn1.

(* ------------------------------------------------------------------ *)
(** ** Quantities of the further properties *)

(** Twice the kinetic energy of a ball of mass [massOfSphere]. *)
Definition energy (v : Vector3) : num := massOfSphere defaultSettings * dot v v.

(** The contact test of line 299 (and of line 204). *)
Definition touches (p q : Vector3) : bool :=
  distanceTo p q <? ballRadius defaultSettings * Fin 2.

(** The tests of lines 256/260 and 265/269: the centre is beyond a short,
    or beyond a long, cushion bound. *)
Definition beyondX (p : Vector3) : bool := (x p >? halfWidth) || (x p <? - halfWidth).
Definition beyondY (p : Vector3) : bool := (y p >? halfHeight) || (y p <? - halfHeight).

(** The axis and the angular speed of lines 240-242 (and 347-349), as
    functions of the velocity. *)
Definition rotationAxis (v : Vector3) : Vector3 :=
  normalize (cross (Vec3 (Fin 0) (Fin 0) (Fin 1)) v).

Definition omega (v : Vector3) : num := length v / ballRadius defaultSettings.

(** The rows of the orientation part of a matrix.  A matrix is rigid when
    these rows are orthonormal (so that its nine orientation entries are
    numbers) and its last row is (0, 0, 0, 1); a mesh is in step when,
    moreover, the translation column of its matrix is its position. *)
Definition row1 (m : Matrix4) : Vector3 := Vec3 (n11 m) (n12 m) (n13 m).
Definition row2 (m : Matrix4) : Vector3 := Vec3 (n21 m) (n22 m) (n23 m).
Definition row3 (m : Matrix4) : Vector3 := Vec3 (n31 m) (n32 m) (n33 m).

Definition orthonormal (m : Matrix4) : Prop :=
  dot (row1 m) (row1 m) = Fin 1 /\
  dot (row2 m) (row2 m) = Fin 1 /\
  dot (row3 m) (row3 m) = Fin 1 /\
  dot (row1 m) (row2 m) = Fin 0 /\
  dot (row1 m) (row3 m) = Fin 0 /\
  dot (row2 m) (row3 m) = Fin 0.

Definition rigid (m : Matrix4) : Prop :=
  orthonormal m /\
  n41 m = Fin 0 /\ n42 m = Fin 0 /\ n43 m = Fin 0 /\ n44 m = Fin 1.

Definition inStep (b : Mesh) : Prop :=
  rigid (matrix b) /\
  n14 (matrix b) = x (position b) /\
  n24 (matrix b) = y (position b) /\
  n34 (matrix b) = z (position b).

(** The entries of a row (a1, a2, a3) of the orientation part of a matrix
    after its product with the rotation about the horizontal axis
    (ux, uy, 0) of cosine [k] and sine [s]. *)
Definition turn1 (ux uy k s a1 a2 a3 : R) : R :=
  (a1 * ((1 - k) * ux * ux + k) + a2 * ((1 - k) * ux * uy + s * 0)
   + a3 * ((1 - k) * ux * 0 - s * uy))%R.

Definition turn2 (ux uy k s a1 a2 a3 : R) : R :=
  (a1 * ((1 - k) * ux * uy - s * 0) + a2 * ((1 - k) * uy * uy + k)
   + a3 * ((1 - k) * uy * 0 + s * ux))%R.

Definition turn3 (ux uy k s a1 a2 a3 : R) : R :=
  (a1 * ((1 - k) * ux * 0 + s * uy) + a2 * ((1 - k) * uy * 0 - s * ux)
   + a3 * ((1 - k) * 0 * 0 + k))%R.

(** The mesh after lines 200-202, drawn with the random numbers [n] and
    [n + 1]. *)
Definition drawn (rand : nat -> R) (n : nat) (m : Matrix4) : Mesh :=
  mkMesh (Vec3 (num_rem ((Fin (rand n) - Fin 0.5) * Fin 100) halfWidth)
               (num_rem ((Fin (rand (S n)) - Fin 0.5) * Fin 100) halfHeight)
               (tableWidth defaultSettings - Fin 0.05))
         m.

(** The loop of lines 203-206 over the balls [rest] still to test, with
    [fuel] nested calls left. *)
Definition scan (fuel : nat) (rand : nat -> R) (others : list Mesh)
  : list Mesh -> nat -> Mesh -> option (Mesh * nat) :=
  fix check (rest : list Mesh) (c : nat) (BB : Mesh) {struct rest} : option (Mesh * nat) :=
    match rest with
    | [] => Some (BB, c)
    | other :: rest' =>
        if distanceTo (position BB) (position other) <? ballRadius defaultSettings * Fin 2
        then match getBallPosition fuel rand others c BB with
             | None => None
             | Some (BB', c') => check rest' c' BB'
             end
        else check rest' c BB
    end.

(** The ball [b] touches none of the balls [others]. *)
Definition clearOf (b : Mesh) (others : list Mesh) : bool :=
  forallb (fun o => negb (touches (position b) (position o))) others.

(** No two balls of the list touch. *)
Definition apart (l : list Mesh) : Prop :=
  forall i j, (i < j < List.length l)%nat ->
    touches (position (nth i l noMesh)) (position (nth j l noMesh)) = false.

(** A centre strictly between the cushions, at the resting height. *)
Definition inside (b : Mesh) : Prop :=
  exists px py : R,
    position b = Vec3 (Fin px) (Fin py) (Fin restingPlane) /\
    (Rabs px < 4.8)%R /\ (Rabs py < 2.3)%R.

(** An initial velocity as [getBallVelocity] gives it for random numbers in
    [0, 1): horizontal, each component in [-3, 3). *)
Definition launched (v : Vector3) : Prop :=
  exists vx vy : R,
    v = Vec3 (Fin vx) (Fin vy) (Fin 0) /\
    (-3 <= vx < 3)%R /\ (-3 <= vy < 3)%R.

(** The balls and the velocities that [createBilliardBalls] leaves when no
    position has to be drawn again: four random numbers for each ball. *)
Definition firstDraws (rand : nat -> R) (c k : nat) : list Mesh :=
  map (fun j => drawn rand (c + 4 * j) identity) (seq 0 k).

Definition firstVelocities (rand : nat -> R) (c k : nat) : list Vector3 :=
  map (fun j => getBallVelocity rand (c + 4 * j + 2)) (seq 0 k).

(** A source of random numbers for the examples: 0.5, 0.50125, 0.5025, ... *)
Definition rand0 (n : nat) : R := (0.5 + INR (n mod 32) / 800)%R.

(* ------------------------------------------------------------------ *)
(** ** Elementary facts on numbers and vectors *)

Lemma finite_inv (a : num) : finite a -> exists r, a = Fin r.
Proof. destruct a as [r|]; simpl; [exists r; reflexivity | tauto]. Qed.

Lemma finiteV_inv (v : Vector3) :
  finiteV v -> exists a b c, v = Vec3 (Fin a) (Fin b) (Fin c).
Proof.
  destruct v as [[a|] [b|] [c|]]; unfold finiteV; simpl; try tauto.
  intros _. exists a, b, c. reflexivity.
Qed.

Lemma num_ltb_true (p q : R) : (p < q)%R -> (Fin p <? Fin q) = true.
Proof. intros H. simpl. destruct (Rlt_dec p q); [reflexivity | contradiction]. Qed.

Lemma num_ltb_false (p q : R) : (q <= p)%R -> (Fin p <? Fin q) = false.
Proof. intros H. simpl. destruct (Rlt_dec p q); [lra | reflexivity]. Qed.

Lemma num_ltb_spec (p q : R) : (Fin p <? Fin q) = true <-> (p < q)%R.
Proof. simpl. destruct (Rlt_dec p q); split; intros; try easy. Qed.

Lemma num_div_fin (p q : R) : q <> 0%R -> Fin p / Fin q = Fin (p / q).
Proof. intros H. simpl. destruct (Req_dec_T q 0); [contradiction | reflexivity]. Qed.

Lemma num_or_fin (p : R) (b : num) : (p <> 0)%R -> num_or (Fin p) b = Fin p.
Proof. intros H. unfold num_or. destruct (Req_dec_T p 0); [contradiction|reflexivity]. Qed.

Lemma num_or_zero (b : num) : num_or (Fin 0) b = b.
Proof. unfold num_or. destruct (Req_dec_T 0 0); [reflexivity|contradiction]. Qed.

Lemma Math_sqrt_fin (p : R) : (0 <= p)%R -> Math_sqrt (Fin p) = Fin (sqrt p).
Proof. intros H. simpl. destruct (Rlt_dec p 0); [lra | reflexivity]. Qed.

Lemma sum_squares_nonneg (a b c : R) : (0 <= a * a + b * b + c * c)%R.
Proof. nra. Qed.

Lemma length_fin (a b c : R) :
  length (Vec3 (Fin a) (Fin b) (Fin c)) = Fin (sqrt (a * a + b * b + c * c)).
Proof. unfold length. simpl x; simpl y; simpl z. cbn [num_mul num_add]. apply Math_sqrt_fin, sum_squares_nonneg. Qed.

Lemma halfWidth_eq : halfWidth = Fin 4.8.
Proof.
  unfold halfWidth. cbn [tableSize ballRadius defaultSettings].
  rewrite num_div_fin by lra. cbn [num_sub]. f_equal. lra.
Qed.

Lemma halfHeight_eq : halfHeight = Fin 2.3.
Proof.
  unfold halfHeight. cbn [tableSize ballRadius defaultSettings].
  rewrite num_div_fin by lra. cbn [num_sub]. f_equal. lra.
Qed.

Lemma Rabs_square (a : R) : (Rabs a * Rabs a = a * a)%R.
Proof. unfold Rabs. destruct (Rcase_abs a); ring. Qed.

(** Lists updated by index. *)
Lemma assign_length {A : Type} (l : list A) (i : nat) (v : A) :
  List.length (assign l i v) = List.length l.
Proof.
  revert i. induction l as [|h t IH]; intros [|i]; simpl; auto.
Qed.

Lemma nth_assign_same {A : Type} (l : list A) (i : nat) (v d : A) :
  (i < List.length l)%nat -> nth i (assign l i v) d = v.
Proof.
  revert i. induction l as [|h t IH]; intros [|i] H; simpl in *; try lia; auto.
  apply IH. lia.
Qed.

Lemma nth_assign_other {A : Type} (l : list A) (i j : nat) (v d : A) :
  i <> j -> nth j (assign l i v) d = nth j l d.
Proof.
  revert i j. induction l as [|h t IH]; intros [|i] [|j] H; simpl; auto; try congruence.
Qed.

(* ------------------------------------------------------------------ *)
(** ** The guard on the time step *)

Lemma render_from_large (dt : R) (k i : nat) (s : State) :
  (0.15 < dt)%R -> render_from dt k i s = s.
Proof.
  intros H. destruct k as [|k]; [reflexivity|].
  cbn [render_from]. unfold num_gtb. rewrite num_ltb_true by exact H. reflexivity.
Qed.

(** C5.  A frame whose time step exceeds 0.15 s leaves the position (and the
    matrix) of every ball and every velocity as they were, and runs neither
    a collision update nor a friction decay: the meshes, the velocities, the
    marker [previousSec] and the trace of the state are unchanged. *)
Theorem large_dt_skip (dt : R) (s : State) :
  (0.15 < dt)%R ->
  balls (render dt s) = balls s /\
  velocity (render dt s) = velocity s /\
  previousSec (render dt s) = previousSec s /\
  trace (render dt s) = trace s.
Proof.
  intros H. unfold render. rewrite render_from_large by exact H.
  unfold tick. simpl. auto.
Qed.

(* ------------------------------------------------------------------ *)
(** ** The cushions *)

Lemma shrunk_trans (u v w : Vector3) : shrunk u v -> shrunk v w -> shrunk u w.
Proof.
  intros (a & b & c & a1 & b1 & c1 & -> & -> & Ha & Hb & Hc).
  intros (a2 & b2 & c2 & a3 & b3 & c3 & E & -> & Ha' & Hb' & Hc').
  injection E as <- <- <-.
  exists a, b, c, a3, b3, c3. repeat split; lra.
Qed.

Lemma shrunk_length (v w : Vector3) : shrunk v w -> num_le (length w) (length v).
Proof.
  intros (a & b & c & a' & b' & c' & -> & -> & Ha & Hb & Hc).
  rewrite !length_fin. simpl. apply sqrt_le_1_alt. lra.
Qed.

Lemma cushionX_shrunk (p v : Vector3) : finiteV v -> shrunk v (cushionX p v).
Proof.
  intros Hv. destruct (finiteV_inv v Hv) as (a & b & c & ->).
  pose proof (Rabs_square a) as Ha.
  unfold cushionX, rollFric.
  destruct (x p >? halfWidth); [|destruct (x p <? - halfWidth)];
    cbn [multiplyScalar x y z Math_abs num_neg num_mul];
    eexists _, _, _, _, _, _; (split; [reflexivity|]); (split; [reflexivity|]);
    repeat split; nra.
Qed.

Lemma cushionY_shrunk (p v : Vector3) : finiteV v -> shrunk v (cushionY p v).
Proof.
  intros Hv. destruct (finiteV_inv v Hv) as (a & b & c & ->).
  pose proof (Rabs_square b) as Hb.
  unfold cushionY, rollFric.
  destruct (y p >? halfHeight); [|destruct (y p <? - halfHeight)];
    cbn [multiplyScalar x y z Math_abs num_neg num_mul];
    eexists _, _, _, _, _, _; (split; [reflexivity|]); (split; [reflexivity|]);
    repeat split; nra.
Qed.

Lemma shrunk_finite (v w : Vector3) : shrunk v w -> finiteV w.
Proof.
  intros (a & b & c & a' & b' & c' & -> & -> & _). unfold finiteV. simpl. auto.
Qed.

Lemma nth_assign {A : Type} (l : list A) (i j : nat) (v d : A) :
  nth j (assign l i v) d =
  if Nat.eqb i j && Nat.ltb i (List.length l) then v else nth j l d.
Proof.
  destruct (Nat.eqb_spec i j) as [E|E]; cbn [andb].
  - subst j. destruct (Nat.ltb_spec i (List.length l)) as [H|H].
    + apply nth_assign_same, H.
    + revert i H. induction l as [|h t IH]; intros [|i] H; simpl in *; auto; try lia.
      apply IH. lia.
  - apply nth_assign_other, E.
Qed.

Lemma velocityAt_setVelocity_same (s : State) (i : nat) (v : Vector3) :
  (i < List.length (velocity s))%nat -> velocityAt (setVelocity s i v) i = v.
Proof. intros H. unfold velocityAt, setVelocity. simpl. apply nth_assign_same, H. Qed.

Lemma velocityAt_setVelocity_other (s : State) (i j : nat) (v : Vector3) :
  i <> j -> velocityAt (setVelocity s i v) j = velocityAt s j.
Proof. intros H. unfold velocityAt, setVelocity. simpl. apply nth_assign_other, H. Qed.

(** C8.  The cushion tests of a frame (lines 256-272), whichever of them
    fire, never increase the speed of the ball: the Euclidean norm of its
    velocity afterwards is at most the norm before. *)
Theorem cushions_speed_nonincreasing (i : nat) (s : State) :
  (i < List.length (velocity s))%nat ->
  finiteV (velocityAt s i) ->
  num_le (length (velocityAt (cushions i s) i)) (length (velocityAt s i)).
Proof.
  intros Hi Hv. unfold cushions.
  rewrite velocityAt_setVelocity_same by exact Hi.
  apply shrunk_length.
  eapply shrunk_trans.
  - apply cushionX_shrunk, Hv.
  - apply cushionY_shrunk. eapply shrunk_finite. apply cushionX_shrunk, Hv.
Qed.

(* ------------------------------------------------------------------ *)
(** ** The velocity update of a pair *)

Lemma collide_velocity_ID (ball : Mesh) (ID i : nat) (s : State) :
  ID <> i -> (ID < List.length (velocity s))%nat ->
  velocityAt (collide ball ID i s) ID =
  subVectors (velocityAt s ID)
    (impulse (position ball) (position (ballAt s i)) (velocityAt s ID) (velocityAt s i)).
Proof.
  intros Hne Hlt. unfold collide, velocityAt, record, setVelocity. cbn [velocity].
  rewrite nth_assign_other by congruence.
  rewrite nth_assign_same by exact Hlt. reflexivity.
Qed.

Lemma collide_velocity_i (ball : Mesh) (ID i : nat) (s : State) :
  (i < List.length (velocity s))%nat ->
  velocityAt (collide ball ID i s) i =
  addVectors (velocityAt s i)
    (impulse (position ball) (position (ballAt s i)) (velocityAt s ID) (velocityAt s i)).
Proof.
  intros Hlt. unfold collide, velocityAt, record, setVelocity. cbn [velocity].
  rewrite nth_assign_same by (rewrite assign_length; exact Hlt). reflexivity.
Qed.

Lemma collide_velocity_other (ball : Mesh) (ID i j : nat) (s : State) :
  j <> ID -> j <> i -> velocityAt (collide ball ID i s) j = velocityAt s j.
Proof.
  intros H1 H2. unfold collide, velocityAt, record, setVelocity. cbn [velocity].
  rewrite !nth_assign_other by congruence. reflexivity.
Qed.

Lemma collide_balls (ball : Mesh) (ID i : nat) (s : State) :
  balls (collide ball ID i s) = balls s.
Proof. reflexivity. Qed.

Lemma collide_ballAt (ball : Mesh) (ID i : nat) (s : State) (j : nat) :
  ballAt (collide ball ID i s) j = ballAt s j.
Proof. reflexivity. Qed.

Lemma Vec3_fin_eq (a b c a' b' c' : R) :
  a = a' -> b = b' -> c = c' ->
  Vec3 (Fin a) (Fin b) (Fin c) = Vec3 (Fin a') (Fin b') (Fin c').
Proof. intros -> -> ->. reflexivity. Qed.

Lemma sqdist_pos (a b c a' b' c' : R) :
  Vec3 (Fin a) (Fin b) (Fin c) <> Vec3 (Fin a') (Fin b') (Fin c') ->
  (0 < sqdist a b c a' b' c')%R.
Proof.
  intros H. unfold sqdist.
  destruct (Rlt_le_dec 0 ((a' - a) * (a' - a) + (b' - b) * (b' - b) + (c' - c) * (c' - c)))
    as [Hlt|Hle]; [exact Hlt|].
  pose proof (Rle_0_sqr (a' - a)) as Qa.
  pose proof (Rle_0_sqr (b' - b)) as Qb.
  pose proof (Rle_0_sqr (c' - c)) as Qc.
  unfold Rsqr in Qa, Qb, Qc.
  assert (Ea : (a' - a = 0)%R) by (apply Rsqr_0_uniq; unfold Rsqr; lra).
  assert (Eb : (b' - b = 0)%R) by (apply Rsqr_0_uniq; unfold Rsqr; lra).
  assert (Ec : (c' - c = 0)%R) by (apply Rsqr_0_uniq; unfold Rsqr; lra).
  contradiction H.
  replace a' with a by lra. replace b' with b by lra. replace c' with c by lra.
  reflexivity.
Qed.

(** The unit normal between two distinct finite centres. *)
Lemma normalize_sub_fin (a b c a' b' c' : R) :
  Vec3 (Fin a) (Fin b) (Fin c) <> Vec3 (Fin a') (Fin b') (Fin c') ->
  normalize (subVectors (Vec3 (Fin a') (Fin b') (Fin c')) (Vec3 (Fin a) (Fin b) (Fin c))) =
  Vec3 (Fin ((a' - a) / sqrt (sqdist a b c a' b' c')))
       (Fin ((b' - b) / sqrt (sqdist a b c a' b' c')))
       (Fin ((c' - c) / sqrt (sqdist a b c a' b' c'))).
Proof.
  intros H. pose proof (sqdist_pos _ _ _ _ _ _ H) as Hpos.
  pose proof (sqrt_lt_R0 _ Hpos) as Hs.
  unfold normalize, subVectors. cbn [x y z num_sub].
  rewrite length_fin. fold (sqdist a b c a' b' c').
  rewrite num_or_fin by lra.
  unfold divideScalar. cbn [x y z].
  rewrite !num_div_fin by lra. reflexivity.
Qed.

(** A vector of length zero is divided by 1: the normal between two
    coincident finite centres is the zero vector. *)
Lemma normalize_sub_coincident (a b c : R) :
  normalize (subVectors (Vec3 (Fin a) (Fin b) (Fin c)) (Vec3 (Fin a) (Fin b) (Fin c))) =
  Vec3 (Fin 0) (Fin 0) (Fin 0).
Proof.
  unfold normalize, subVectors. cbn [x y z num_sub].
  rewrite length_fin.
  replace ((a - a) * (a - a) + (b - b) * (b - b) + (c - c) * (c - c))%R with 0%R by ring.
  rewrite sqrt_0, num_or_zero. unfold divideScalar. cbn [x y z].
  rewrite !num_div_fin by lra. apply Vec3_fin_eq; field.
Qed.

(** With it the vector [scalarN] is the zero vector. *)
Lemma impulse_coincident (a b c p q r p' q' r' : R) :
  impulse (Vec3 (Fin a) (Fin b) (Fin c)) (Vec3 (Fin a) (Fin b) (Fin c))
          (Vec3 (Fin p) (Fin q) (Fin r)) (Vec3 (Fin p') (Fin q') (Fin r')) =
  Vec3 (Fin 0) (Fin 0) (Fin 0).
Proof.
  unfold impulse. rewrite normalize_sub_coincident.
  unfold clone, dot, multiplyScalar.
  cbn [x y z num_mul num_add num_sub massOfSphere defaultSettings].
  rewrite num_div_fin by lra. cbn [num_mul]. apply Vec3_fin_eq; ring.
Qed.

Lemma impulse_fin (a b c a' b' c' p q r p' q' r' : R) :
  Vec3 (Fin a) (Fin b) (Fin c) <> Vec3 (Fin a') (Fin b') (Fin c') ->
  let L := sqrt (sqdist a b c a' b' c') in
  let P := (2 * ((p * ((a' - a) / L) + q * ((b' - b) / L) + r * ((c' - c) / L))
                 - (p' * ((a' - a) / L) + q' * ((b' - b) / L) + r' * ((c' - c) / L)))
            / (1 + 1) * 1)%R in
  impulse (Vec3 (Fin a) (Fin b) (Fin c)) (Vec3 (Fin a') (Fin b') (Fin c'))
          (Vec3 (Fin p) (Fin q) (Fin r)) (Vec3 (Fin p') (Fin q') (Fin r')) =
  Vec3 (Fin ((a' - a) / L * P)) (Fin ((b' - b) / L * P)) (Fin ((c' - c) / L * P)).
Proof.
  intros H L P. unfold impulse. rewrite normalize_sub_fin by exact H.
  fold L. unfold clone, dot, multiplyScalar.
  cbn [x y z num_mul num_add num_sub massOfSphere defaultSettings].
  rewrite num_div_fin by lra. reflexivity.
Qed.

(** Detection: two finite centres are found in contact exactly when their
    squared distance is below [(2 * ballRadius)^2 = 0.16]. *)
Lemma distanceTo_fin (a b c a' b' c' : R) :
  distanceTo (Vec3 (Fin a) (Fin b) (Fin c)) (Vec3 (Fin a') (Fin b') (Fin c')) =
  Fin (sqrt (sqdist a b c a' b' c')).
Proof.
  unfold distanceTo. cbn [x y z num_sub num_mul num_add].
  rewrite Math_sqrt_fin by apply sum_squares_nonneg.
  f_equal. f_equal. unfold sqdist. ring.
Qed.

Lemma sqdist_nonneg (a b c a' b' c' : R) : (0 <= sqdist a b c a' b' c')%R.
Proof. unfold sqdist. apply sum_squares_nonneg. Qed.

Lemma sqrt_lt_04 (u : R) : (0 <= u)%R -> (sqrt u < 0.4)%R <-> (u < 0.16)%R.
Proof.
  intros Hu.
  assert (E : sqrt 0.16 = 0.4%R).
  { replace 0.16%R with (0.4 * 0.4)%R by lra. apply sqrt_square. lra. }
  split; intros H.
  - apply sqrt_lt_0_alt. rewrite E. exact H.
  - rewrite <- E. apply sqrt_lt_1_alt. lra.
Qed.

Lemma contact_fin (a b c a' b' c' : R) :
  (distanceTo (Vec3 (Fin a) (Fin b) (Fin c)) (Vec3 (Fin a') (Fin b') (Fin c'))
     <? ballRadius defaultSettings * Fin 2) =
  if Rlt_dec (sqdist a b c a' b' c') 0.16 then true else false.
Proof.
  rewrite distanceTo_fin. cbn [ballRadius defaultSettings num_mul].
  pose proof (sqrt_lt_04 _ (sqdist_nonneg a b c a' b' c')) as [H1 H2].
  destruct (Rlt_dec (sqdist a b c a' b' c') 0.16) as [H|H].
  - apply num_ltb_true. specialize (H2 H). lra.
  - apply num_ltb_false. apply Rnot_lt_le. intros H3. apply H, H1. lra.
Qed.

(** C10.  The velocity update of a pair subtracts one vector from the
    velocity of the ball [ID] and adds the same vector to the velocity of
    the ball [i]; when the two centres are distinct, the sum of the two
    velocities after the update is the sum before it. *)
Theorem collide_conserves_momentum (ball : Mesh) (ID i : nat) (s : State) :
  ID <> i ->
  (ID < List.length (velocity s))%nat ->
  (i < List.length (velocity s))%nat ->
  finiteV (position ball) ->
  finiteV (position (ballAt s i)) ->
  finiteV (velocityAt s ID) ->
  finiteV (velocityAt s i) ->
  (exists J,
     velocityAt (collide ball ID i s) ID = subVectors (velocityAt s ID) J /\
     velocityAt (collide ball ID i s) i = addVectors (velocityAt s i) J) /\
  (position ball <> position (ballAt s i) ->
   addVectors (velocityAt (collide ball ID i s) ID) (velocityAt (collide ball ID i s) i) =
   addVectors (velocityAt s ID) (velocityAt s i)).
Proof.
  intros Hne HID Hi HpA HpB HvA HvB.
  rewrite (collide_velocity_ID ball ID i s Hne HID).
  rewrite (collide_velocity_i ball ID i s Hi).
  split.
  - eexists. split; reflexivity.
  - intros Hd.
    destruct (finiteV_inv _ HpA) as (a & b & c & Ea).
    destruct (finiteV_inv _ HpB) as (a' & b' & c' & Eb).
    destruct (finiteV_inv _ HvA) as (p & q & r & Ec).
    destruct (finiteV_inv _ HvB) as (p' & q' & r' & Ed).
    rewrite Ea, Eb, Ec, Ed in *.
    rewrite impulse_fin by exact Hd.
    unfold addVectors, subVectors. cbn [x y z num_add num_sub].
    f_equal; f_equal; ring.
Qed.

Lemma collisionVel_turn_contact (ball : Mesh) (ID i : nat) (s : State) :
  ID <> i ->
  (distanceTo (position ball) (position (ballAt s i))
     <? ballRadius defaultSettings * Fin 2) = true ->
  collisionVel_turn ball ID i s = collide ball ID i s.
Proof.
  intros Hne Hc. unfold collisionVel_turn.
  destruct (Nat.eqb_spec i ID) as [E|E]; [congruence|].
  rewrite Hc. reflexivity.
Qed.

Lemma collisionVel_turn_apart (ball : Mesh) (ID i : nat) (s : State) :
  (distanceTo (position ball) (position (ballAt s i))
     <? ballRadius defaultSettings * Fin 2) = false ->
  collisionVel_turn ball ID i s = s.
Proof.
  intros Hc. unfold collisionVel_turn. rewrite Hc.
  destruct (Nat.eqb i ID); reflexivity.
Qed.

Lemma collisionVel_turn_self (ball : Mesh) (ID : nat) (s : State) :
  collisionVel_turn ball ID ID s = s.
Proof. unfold collisionVel_turn. rewrite Nat.eqb_refl. reflexivity. Qed.

(** The exchange, on the reals: with [L] the distance of the centres and a
    velocity [k (B - A)], the corrected component is the opposite one. *)
Lemma exchange_component (k d e f g L : R) :
  (L <> 0)%R -> (L * L = d * d + e * e + f * f)%R ->
  (k * g
   - g / L *
     (2 * ((k * d * (d / L) + k * e * (e / L) + k * f * (f / L))
           - (- (k * d) * (d / L) + - (k * e) * (e / L) + - (k * f) * (f / L)))
      / (1 + 1) * 1)
   = - (k * g))%R.
Proof.
  intros HL HS.
  assert (E : (2 * ((k * d * (d / L) + k * e * (e / L) + k * f * (f / L))
           - (- (k * d) * (d / L) + - (k * e) * (e / L) + - (k * f) * (f / L)))
      / (1 + 1) * 1 = 2 * k * L)%R).
  { transitivity (2 * k * ((d * d + e * e + f * f) / L))%R.
    - field. exact HL.
    - rewrite <- HS. field. exact HL. }
  rewrite E. field. exact HL.
Qed.

(** C3.  Two balls in contact, of equal mass, with opposite velocities [v]
    and [-v] along the line of their centres ([v = k (B - A)]): one
    application of the resolver to the pair exchanges the two velocities
    exactly, the ball [ID] leaving with [-v] and the ball [i] with [v]. *)
Theorem head_on_exchange (ball : Mesh) (ID i : nat) (s : State)
    (a b c a' b' c' k : R) :
  ID <> i ->
  (ID < List.length (velocity s))%nat ->
  (i < List.length (velocity s))%nat ->
  position ball = Vec3 (Fin a) (Fin b) (Fin c) ->
  position (ballAt s i) = Vec3 (Fin a') (Fin b') (Fin c') ->
  (0 < sqdist a b c a' b' c' < 0.16)%R ->
  velocityAt s ID = Vec3 (Fin (k * (a' - a))) (Fin (k * (b' - b))) (Fin (k * (c' - c))) ->
  velocityAt s i =
    Vec3 (Fin (- (k * (a' - a)))) (Fin (- (k * (b' - b)))) (Fin (- (k * (c' - c)))) ->
  velocityAt (collisionVel_turn ball ID i s) ID =
    Vec3 (Fin (- (k * (a' - a)))) (Fin (- (k * (b' - b)))) (Fin (- (k * (c' - c)))) /\
  velocityAt (collisionVel_turn ball ID i s) i =
    Vec3 (Fin (k * (a' - a))) (Fin (k * (b' - b))) (Fin (k * (c' - c))).
Proof.
  intros Hne HID Hi EA EB [Hpos Hnear] EvA EvB.
  assert (Hd : Vec3 (Fin a) (Fin b) (Fin c) <> Vec3 (Fin a') (Fin b') (Fin c')).
  { intros E. injection E as <- <- <-. unfold sqdist in Hpos.
    replace ((a - a) * (a - a) + (b - b) * (b - b) + (c - c) * (c - c))%R
      with 0%R in Hpos by ring. lra. }
  rewrite collisionVel_turn_contact; [| exact Hne |].
  2:{ rewrite EA, EB, contact_fin.
      destruct (Rlt_dec (sqdist a b c a' b' c') 0.16); [reflexivity | lra]. }
  rewrite (collide_velocity_ID ball ID i s Hne HID).
  rewrite (collide_velocity_i ball ID i s Hi).
  rewrite EA, EB, EvA, EvB.
  rewrite impulse_fin by exact Hd.
  set (L := sqrt (sqdist a b c a' b' c')).
  assert (HL : (L <> 0)%R).
  { pose proof (sqrt_lt_R0 _ Hpos). unfold L. lra. }
  assert (HS : (L * L = (a' - a) * (a' - a) + (b' - b) * (b' - b) + (c' - c) * (c' - c))%R).
  { unfold L. rewrite sqrt_sqrt by apply sqdist_nonneg. reflexivity. }
  pose proof (exchange_component k (a' - a) (b' - b) (c' - c)) as X.
  unfold addVectors, subVectors. cbn [x y z num_add num_sub].
  cbv zeta. fold L.
  split; f_equal; f_equal.
  - exact (X (a' - a)%R L HL HS).
  - exact (X (b' - b)%R L HL HS).
  - exact (X (c' - c)%R L HL HS).
  - pose proof (X (a' - a)%R L HL HS). lra.
  - pose proof (X (b' - b)%R L HL HS). lra.
  - pose proof (X (c' - c)%R L HL HS). lra.
Qed.

(* ------------------------------------------------------------------ *)
(** ** Zero-length normals and balls at rest *)

Lemma ballAt_setBall_same (s : State) (i : nat) (b : Mesh) :
  (i < List.length (balls s))%nat -> ballAt (setBall s i b) i = b.
Proof. intros H. unfold ballAt, setBall. simpl. apply nth_assign_same, H. Qed.

Lemma ballAt_setBall_other (s : State) (i j : nat) (b : Mesh) :
  i <> j -> ballAt (setBall s i b) j = ballAt s j.
Proof. intros H. unfold ballAt, setBall. simpl. apply nth_assign_other, H. Qed.

(** C6.  Two balls whose centres coincide are found in contact and the
    update of the pair is run; the vector between the centres has length
    zero, [normalize] divides it by [length() || 1 = 1] and not by zero,
    the normal and the vector [scalarN] are the zero vector, and both
    velocities are written back as they were: finite velocities stay
    finite, no component becomes NaN. *)
Theorem coincident_centres_keep_velocities (ball : Mesh) (ID i : nat) (s : State)
    (a b c : R) :
  ID <> i ->
  (ID < List.length (velocity s))%nat ->
  (i < List.length (velocity s))%nat ->
  position ball = Vec3 (Fin a) (Fin b) (Fin c) ->
  position (ballAt s i) = Vec3 (Fin a) (Fin b) (Fin c) ->
  finiteV (velocityAt s ID) ->
  finiteV (velocityAt s i) ->
  let d := subVectors (position (ballAt s i)) (position ball) in
  let s' := collisionVel_turn ball ID i s in
  s' = collide ball ID i s /\
  num_or (length d) (Fin 1) = Fin 1 /\
  normalize d = Vec3 (Fin 0) (Fin 0) (Fin 0) /\
  velocityAt s' ID = velocityAt s ID /\
  velocityAt s' i = velocityAt s i /\
  finiteV (velocityAt s' ID) /\
  finiteV (velocityAt s' i).
Proof.
  intros Hne HID Hi EA EB FA FB d s'. unfold d, s'. clear d s'.
  assert (Hc : collisionVel_turn ball ID i s = collide ball ID i s).
  { apply collisionVel_turn_contact; [exact Hne|].
    rewrite EA, EB, contact_fin.
    destruct (Rlt_dec (sqdist a b c a b c) 0.16) as [H|H]; [reflexivity|].
    exfalso. apply H. unfold sqdist. nra. }
  destruct (finiteV_inv _ FA) as (p & q & r & EvA).
  destruct (finiteV_inv _ FB) as (p' & q' & r' & EvB).
  assert (VA : velocityAt (collisionVel_turn ball ID i s) ID = velocityAt s ID).
  { rewrite Hc, (collide_velocity_ID ball ID i s Hne HID).
    rewrite EA, EB, EvA, EvB, impulse_coincident.
    unfold subVectors. cbn [x y z num_sub]. apply Vec3_fin_eq; ring. }
  assert (VB : velocityAt (collisionVel_turn ball ID i s) i = velocityAt s i).
  { rewrite Hc, (collide_velocity_i ball ID i s Hi).
    rewrite EA, EB, EvA, EvB, impulse_coincident.
    unfold addVectors. cbn [x y z num_add]. apply Vec3_fin_eq; ring. }
  split; [exact Hc|]. split; [|split; [|split; [exact VA|split; [exact VB|]]]].
  - rewrite EA, EB. unfold subVectors. cbn [x y z num_sub]. rewrite length_fin.
    replace ((a - a) * (a - a) + (b - b) * (b - b) + (c - c) * (c - c))%R with 0%R by ring.
    rewrite sqrt_0. apply num_or_zero.
  - rewrite EA, EB. apply normalize_sub_coincident.
  - rewrite VA, VB. split; assumption.
Qed.

(** The rotation axis of a ball at rest is the zero vector. *)
Lemma axis_at_rest :
  normalize (cross (Vec3 (Fin 0) (Fin 0) (Fin 1)) (Vec3 (Fin 0) (Fin 0) (Fin 0))) =
  Vec3 (Fin 0) (Fin 0) (Fin 0).
Proof.
  unfold normalize, cross. cbn [x y z num_mul num_sub].
  rewrite length_fin.
  replace ((0 * 0 - 1 * 0) * (0 * 0 - 1 * 0) + (1 * 0 - 0 * 0) * (1 * 0 - 0 * 0)
           + (0 * 0 - 0 * 0) * (0 * 0 - 0 * 0))%R with 0%R by ring.
  rewrite sqrt_0, num_or_zero. unfold divideScalar. cbn [x y z].
  rewrite !num_div_fin by lra. apply Vec3_fin_eq; field.
Qed.

(** The angle turned by a ball at rest is zero. *)
Lemma angle_at_rest (dt : R) :
  (length (Vec3 (Fin 0) (Fin 0) (Fin 0)) / ballRadius defaultSettings * Fin dt)%num = Fin 0.
Proof.
  rewrite length_fin. replace (0 * 0 + 0 * 0 + 0 * 0)%R with 0%R by ring.
  rewrite sqrt_0. cbn [ballRadius defaultSettings].
  rewrite num_div_fin by lra. cbn [num_mul]. f_equal. field. lra.
Qed.

Lemma Mat4_eq (a11 a12 a13 a14 a21 a22 a23 a24 a31 a32 a33 a34 a41 a42 a43 a44
    b11 b12 b13 b14 b21 b22 b23 b24 b31 b32 b33 b34 b41 b42 b43 b44 : num) :
  a11 = b11 -> a12 = b12 -> a13 = b13 -> a14 = b14 ->
  a21 = b21 -> a22 = b22 -> a23 = b23 -> a24 = b24 ->
  a31 = b31 -> a32 = b32 -> a33 = b33 -> a34 = b34 ->
  a41 = b41 -> a42 = b42 -> a43 = b43 -> a44 = b44 ->
  Mat4 a11 a12 a13 a14 a21 a22 a23 a24 a31 a32 a33 a34 a41 a42 a43 a44 =
  Mat4 b11 b12 b13 b14 b21 b22 b23 b24 b31 b32 b33 b34 b41 b42 b43 b44.
Proof. intros. subst. reflexivity. Qed.

(** C7.  With a zero velocity the rotation axis is the zero vector (the
    vector [cross((0,0,1), 0)] has length zero and [normalize] divides it
    by 1), the angle is zero and the rotation matrix of the frame is the
    identity: the translation and rotation of the frame, which are not
    skipped, leave the position and the orientation of the ball as they
    were; the matrix only has its translation column set to the
    position. *)
Theorem ball_at_rest_keeps_orientation (dt : R) (i : nat) (s : State) :
  (i < List.length (balls s))%nat ->
  velocityAt s i = Vec3 (Fin 0) (Fin 0) (Fin 0) ->
  finiteV (position (ballAt s i)) ->
  finiteM (matrix (ballAt s i)) ->
  let axis := normalize (cross (Vec3 (Fin 0) (Fin 0) (Fin 1)) (velocityAt s i)) in
  let angle := (length (velocityAt s i) / ballRadius defaultSettings * Fin dt)%num in
  axis = Vec3 (Fin 0) (Fin 0) (Fin 0) /\
  makeRotationAxis axis angle = identity /\
  ballAt (move dt i s) i =
    mkMesh (position (ballAt s i))
           (setPosition (matrix (ballAt s i)) (position (ballAt s i))).
Proof.
  intros Hi Hv Hp Hm axis angle. unfold axis, angle. clear axis angle.
  assert (R0 : makeRotationAxis (Vec3 (Fin 0) (Fin 0) (Fin 0)) (Fin 0) = identity).
  { unfold makeRotationAxis, identity. cbn -[cos sin]. rewrite cos_0, sin_0.
    apply Mat4_eq; try reflexivity; apply f_equal; ring. }
  split; [rewrite Hv; exact axis_at_rest|].
  split; [rewrite Hv, axis_at_rest, angle_at_rest; exact R0|].
  unfold move. rewrite ballAt_setBall_same by exact Hi.
  rewrite Hv, axis_at_rest, angle_at_rest, R0.
  destruct (ballAt s i) as [pos m].
  destruct (finiteV_inv _ Hp) as (px & py & pz & Ep). cbn [position matrix] in *.
  subst pos.
  destruct m as [m11 m12 m13 m14 m21 m22 m23 m24 m31 m32 m33 m34 m41 m42 m43 m44].
  unfold finiteM in Hm. cbn in Hm.
  repeat match goal with
         | H : _ /\ _ |- _ => destruct H
         | H : finite ?m |- _ => destruct (finite_inv _ H) as [? ->]; clear H
         end.
  unfold add, addVectors, clone, multiplyScalar, multiply, setPosition, identity.
  cbn. apply f_equal2; [apply Vec3_fin_eq; ring|].
  apply Mat4_eq; apply f_equal; ring.
Qed.

(* ------------------------------------------------------------------ *)
(** ** What each part of a frame leaves alone *)

Lemma clockOf_eq (s s' : State) :
  clockOf s = clockOf s' ->
  currentTime s = currentTime s' /\
  currentSecond s = currentSecond s' /\
  previousSec s = previousSec s'.
Proof. unfold clockOf. intros H. injection H as H1 H2 H3. auto. Qed.

Lemma collisionVel_turn_frame (ball : Mesh) (ID i : nat) (s : State) :
  balls (collisionVel_turn ball ID i s) = balls s /\
  clockOf (collisionVel_turn ball ID i s) = clockOf s /\
  List.length (velocity (collisionVel_turn ball ID i s)) = List.length (velocity s).
Proof.
  unfold collisionVel_turn.
  destruct (Nat.eqb i ID); [auto|].
  destruct (_ <? _); [|auto].
  unfold collide, record, setVelocity, clockOf. cbn.
  rewrite !assign_length. auto.
Qed.

Lemma collisionVel_from_frame (ball : Mesh) (ID k i : nat) (s : State) :
  balls (collisionVel_from ball ID k i s) = balls s /\
  clockOf (collisionVel_from ball ID k i s) = clockOf s /\
  List.length (velocity (collisionVel_from ball ID k i s)) = List.length (velocity s).
Proof.
  revert i s. induction k as [|k IH]; intros i s; [cbn; auto|].
  cbn [collisionVel_from].
  destruct (IH (S i) (collisionVel_turn ball ID i s)) as (B & C & L).
  destruct (collisionVel_turn_frame ball ID i s) as (B' & C' & L').
  rewrite B, C, L. auto.
Qed.

Lemma collisionVel_frame (ball : Mesh) (ID : nat) (s : State) :
  balls (collisionVel ball ID s) = balls s /\
  clockOf (collisionVel ball ID s) = clockOf s /\
  List.length (velocity (collisionVel ball ID s)) = List.length (velocity s).
Proof. apply collisionVel_from_frame. Qed.

Lemma move_frame (dt : R) (i : nat) (s : State) :
  velocity (move dt i s) = velocity s /\
  clockOf (move dt i s) = clockOf s /\
  trace (move dt i s) = trace s /\
  List.length (balls (move dt i s)) = List.length (balls s).
Proof.
  unfold move, setBall, clockOf. cbn. rewrite assign_length. auto.
Qed.

Lemma cushions_frame (i : nat) (s : State) :
  balls (cushions i s) = balls s /\
  clockOf (cushions i s) = clockOf s /\
  trace (cushions i s) = trace s /\
  List.length (velocity (cushions i s)) = List.length (velocity s).
Proof.
  unfold cushions, setVelocity, clockOf. cbn. rewrite assign_length. auto.
Qed.

Lemma decay_from_frame (k i : nat) (s : State) :
  balls (decay_from k i s) = balls s /\
  clockOf (decay_from k i s) = clockOf s /\
  List.length (velocity (decay_from k i s)) = List.length (velocity s).
Proof.
  revert i s. induction k as [|k IH]; intros i s; [cbn; auto|].
  cbn [decay_from].
  destruct (IH (S i) (record (Decayed i)
     (setVelocity s i (multiplyScalar (velocityAt s i) rollFric)))) as (B & C & L).
  rewrite B, C, L. unfold record, setVelocity, clockOf. cbn.
  rewrite assign_length. auto.
Qed.

Lemma friction_frame (s : State) :
  balls (friction s) = balls s /\
  currentTime (friction s) = currentTime s /\
  currentSecond (friction s) = currentSecond s /\
  previousSec (friction s) = currentSecond s /\
  List.length (velocity (friction s)) = List.length (velocity s).
Proof.
  unfold friction. generalize (nrOfBalls defaultSettings). intros n.
  destruct (Z.eqb_spec (currentSecond s) (previousSec s)) as [E|E]; [auto|].
  destruct (decay_from_frame n 0 s) as (B & C & L).
  destruct (clockOf_eq _ _ C) as (C1 & C2 & C3).
  unfold setPreviousSec. cbn [balls currentTime currentSecond previousSec velocity].
  repeat split; assumption.
Qed.

Lemma count_cons (p : Event -> bool) (e : Event) (tr : list Event) :
  count p (e :: tr) = ((if p e then 1 else 0) + count p tr)%nat.
Proof. unfold count. simpl. destruct (p e); reflexivity. Qed.

(* ------------------------------------------------------------------ *)
(** ** How often a pair is updated in a frame *)

Lemma collisionVel_turn_trace (ball : Mesh) (ID i : nat) (s : State) :
  trace (collisionVel_turn ball ID i s) = trace s \/
  (i <> ID /\
   (distanceTo (position ball) (position (ballAt s i))
      <? ballRadius defaultSettings * Fin 2) = true /\
   trace (collisionVel_turn ball ID i s) = Resolved ID i :: trace s).
Proof.
  unfold collisionVel_turn.
  destruct (Nat.eqb_spec i ID) as [E|E]; [left; reflexivity|].
  destruct (_ <? _); [right | left; reflexivity].
  repeat split; auto.
Qed.

Lemma collisionVel_turn_resolutions (ball : Mesh) (ID i : nat) (s : State) (a j : nat) :
  exists d : nat,
    resolutions a j (trace (collisionVel_turn ball ID i s)) = (resolutions a j (trace s) + d)%nat /\
    (d <= 1)%nat /\
    (d = 1%nat -> a = ID /\ j = i /\ i <> ID).
Proof.
  destruct (collisionVel_turn_trace ball ID i s) as [E | (Hne & _ & E)]; rewrite E.
  - exists 0%nat. repeat split; lia.
  - unfold resolutions. rewrite count_cons. cbn [isResolved].
    destruct (Nat.eqb_spec ID a) as [Ea|Ea]; destruct (Nat.eqb_spec i j) as [Ej|Ej]; cbn [andb].
    + exists 1%nat. repeat split; auto; lia.
    + exists 0%nat. repeat split; lia.
    + exists 0%nat. repeat split; lia.
    + exists 0%nat. repeat split; lia.
Qed.

Lemma collisionVel_turn_decays (ball : Mesh) (ID i : nat) (s : State) (j : nat) :
  decays j (trace (collisionVel_turn ball ID i s)) = decays j (trace s).
Proof.
  destruct (collisionVel_turn_trace ball ID i s) as [E | (_ & _ & E)]; rewrite E; auto.
Qed.

Lemma collisionVel_from_resolutions (ball : Mesh) (ID k i : nat) (s : State) (a j : nat) :
  exists d : nat,
    resolutions a j (trace (collisionVel_from ball ID k i s)) = (resolutions a j (trace s) + d)%nat /\
    (d <= 1)%nat /\
    (d = 1%nat -> a = ID /\ j <> ID /\ (i <= j < i + k)%nat).
Proof.
  revert i s. induction k as [|k IH]; intros i s.
  - exists 0%nat. cbn. repeat split; lia.
  - cbn [collisionVel_from].
    destruct (IH (S i) (collisionVel_turn ball ID i s)) as (d2 & E2 & B2 & C2).
    destruct (collisionVel_turn_resolutions ball ID i s a j) as (d1 & E1 & B1 & C1).
    exists (d1 + d2)%nat. rewrite E2, E1.
    split; [lia|].
    assert (d1 = 0 \/ d1 = 1)%nat as [Z1|O1] by lia;
      assert (d2 = 0 \/ d2 = 1)%nat as [Z2|O2] by lia.
    + split; lia.
    + destruct (C2 O2) as (? & ? & ?). split; [lia|]. intros _. repeat split; auto; lia.
    + destruct (C1 O1) as (? & ? & ?). split; [lia|]. intros _. repeat split; auto; lia.
    + destruct (C1 O1) as (? & ? & ?). destruct (C2 O2) as (? & ? & ?). lia.
Qed.

Lemma collisionVel_from_decays (ball : Mesh) (ID k i : nat) (s : State) (j : nat) :
  decays j (trace (collisionVel_from ball ID k i s)) = decays j (trace s).
Proof.
  revert i s. induction k as [|k IH]; intros i s; [reflexivity|].
  cbn [collisionVel_from]. rewrite IH. apply collisionVel_turn_decays.
Qed.

Lemma decay_from_resolutions (k i : nat) (s : State) (a j : nat) :
  resolutions a j (trace (decay_from k i s)) = resolutions a j (trace s).
Proof.
  revert i s. induction k as [|k IH]; intros i s; [reflexivity|].
  cbn [decay_from]. rewrite IH. reflexivity.
Qed.

Lemma decay_from_decays (k i : nat) (s : State) (j : nat) :
  decays j (trace (decay_from k i s)) =
  (decays j (trace s) + (if (i <=? j)%nat && (j <? i + k)%nat then 1 else 0))%nat.
Proof.
  revert i s. induction k as [|k IH]; intros i s.
  - cbn [decay_from].
    replace ((i <=? j)%nat && (j <? i + 0)%nat) with false; [lia|].
    destruct (Nat.leb_spec i j); destruct (Nat.ltb_spec j (i + 0)); cbn; auto; lia.
  - cbn [decay_from]. rewrite IH.
    unfold record at 1. cbn [trace]. unfold decays at 1. rewrite count_cons.
    fold (decays j (trace (setVelocity s i (multiplyScalar (velocityAt s i) rollFric)))).
    cbn [isDecayed setVelocity trace].
    destruct (Nat.eqb_spec i j); destruct (Nat.leb_spec (S i) j);
      destruct (Nat.ltb_spec j (S i + k)); destruct (Nat.leb_spec i j);
      destruct (Nat.ltb_spec j (i + S k)); cbn [andb]; lia.
Qed.

Lemma friction_resolutions (s : State) (a j : nat) :
  resolutions a j (trace (friction s)) = resolutions a j (trace s).
Proof.
  unfold friction. generalize (nrOfBalls defaultSettings). intros n.
  destruct (Z.eqb (currentSecond s) (previousSec s)); [reflexivity|].
  unfold setPreviousSec. cbn [trace]. apply decay_from_resolutions.
Qed.

Lemma friction_decays (s : State) (j : nat) :
  decays j (trace (friction s)) =
  (decays j (trace s)
   + (if Z.eqb (currentSecond s) (previousSec s) then 0
      else if (j <? nrOfBalls defaultSettings)%nat then 1 else 0))%nat.
Proof.
  unfold friction. generalize (nrOfBalls defaultSettings). intros n.
  destruct (Z.eqb (currentSecond s) (previousSec s)); [lia|].
  unfold setPreviousSec. cbn [trace]. rewrite decay_from_decays.
  cbn [Nat.leb andb Nat.add]. reflexivity.
Qed.

(** One ball of the loop of [render]. *)
Lemma render_ball_shape (dt : R) (i : nat) (s : State) :
  List.length (balls (render_ball dt i s)) = List.length (balls s) /\
  List.length (velocity (render_ball dt i s)) = List.length (velocity s) /\
  currentTime (render_ball dt i s) = currentTime s /\
  currentSecond (render_ball dt i s) = currentSecond s /\
  previousSec (render_ball dt i s) = currentSecond s.
Proof.
  unfold render_ball.
  set (s1 := collisionVel (ballAt s i) i s).
  set (s2 := move dt i s1).
  set (s3 := cushions i s2).
  destruct (collisionVel_frame (ballAt s i) i s) as (B1 & C1 & L1). fold s1 in B1, C1, L1.
  destruct (move_frame dt i s1) as (V2 & C2 & _ & L2). fold s2 in V2, C2, L2.
  destruct (cushions_frame i s2) as (B3 & C3 & _ & L3). fold s3 in B3, C3, L3.
  destruct (friction_frame s3) as (B4 & T4 & S4 & P4 & L4).
  destruct (clockOf_eq _ _ C1) as (T1 & S1 & _).
  destruct (clockOf_eq _ _ C2) as (T2 & S2 & _).
  destruct (clockOf_eq _ _ C3) as (T3 & S3 & _).
  rewrite B4, L4, T4, S4, P4, B3, L3, T3, S3, L2, V2, T2, S2, B1, L1, T1, S1.
  auto.
Qed.

Lemma render_ball_resolutions (dt : R) (i : nat) (s : State) (a j : nat) :
  exists d : nat,
    resolutions a j (trace (render_ball dt i s)) = (resolutions a j (trace s) + d)%nat /\
    (d <= 1)%nat /\
    (d = 1%nat -> a = i /\ j <> i /\ (j < List.length (balls s))%nat).
Proof.
  unfold render_ball. rewrite friction_resolutions.
  destruct (cushions_frame i (move dt i (collisionVel (ballAt s i) i s))) as (_ & _ & E & _).
  rewrite E.
  destruct (move_frame dt i (collisionVel (ballAt s i) i s)) as (_ & _ & E' & _).
  rewrite E'.
  destruct (collisionVel_from_resolutions (ballAt s i) i (List.length (balls s)) 0 s a j)
    as (d & Ed & Bd & Cd).
  exists d. unfold collisionVel. rewrite Ed. repeat split; auto; apply Cd; auto.
Qed.

Lemma render_ball_decays (dt : R) (i : nat) (s : State) (j : nat) :
  decays j (trace (render_ball dt i s)) =
  (decays j (trace s)
   + (if Z.eqb (currentSecond s) (previousSec s) then 0
      else if (j <? nrOfBalls defaultSettings)%nat then 1 else 0))%nat.
Proof.
  unfold render_ball. rewrite friction_decays.
  set (s1 := collisionVel (ballAt s i) i s).
  set (s2 := move dt i s1).
  destruct (collisionVel_frame (ballAt s i) i s) as (_ & C1 & _). fold s1 in C1.
  destruct (move_frame dt i s1) as (_ & C2 & E2 & _). fold s2 in C2, E2.
  destruct (cushions_frame i s2) as (_ & C3 & E3 & _).
  destruct (clockOf_eq _ _ C1) as (_ & S1 & P1).
  destruct (clockOf_eq _ _ C2) as (_ & S2 & P2).
  destruct (clockOf_eq _ _ C3) as (_ & S3 & P3).
  rewrite S3, P3, S2, P2, S1, P1, E3, E2.
  unfold s1, collisionVel. rewrite collisionVel_from_decays. reflexivity.
Qed.

Lemma render_from_shape (dt : R) (k i : nat) (s : State) :
  List.length (balls (render_from dt k i s)) = List.length (balls s) /\
  List.length (velocity (render_from dt k i s)) = List.length (velocity s) /\
  currentTime (render_from dt k i s) = currentTime s /\
  currentSecond (render_from dt k i s) = currentSecond s.
Proof.
  revert i s. induction k as [|k IH]; intros i s; [cbn; auto|].
  cbn [render_from]. destruct (_ >? _); [auto|].
  destruct (IH (S i) (render_ball dt i s)) as (B & L & T & S').
  destruct (render_ball_shape dt i s) as (B' & L' & T' & S'' & _).
  rewrite B, L, T, S', B', L', T', S''. auto.
Qed.

Lemma render_from_resolutions (dt : R) (k i : nat) (s : State) (a j : nat) :
  exists d : nat,
    resolutions a j (trace (render_from dt k i s)) = (resolutions a j (trace s) + d)%nat /\
    (d <= 1)%nat /\
    (d = 1%nat -> (i <= a < i + k)%nat /\ j <> a /\ (j < List.length (balls s))%nat).
Proof.
  revert i s. induction k as [|k IH]; intros i s.
  - exists 0%nat. cbn. repeat split; lia.
  - cbn [render_from]. destruct (_ >? _).
    + exists 0%nat. repeat split; lia.
    + destruct (IH (S i) (render_ball dt i s)) as (d2 & E2 & B2 & C2).
      destruct (render_ball_resolutions dt i s a j) as (d1 & E1 & B1 & C1).
      destruct (render_ball_shape dt i s) as (LB & _).
      rewrite LB in C2.
      exists (d1 + d2)%nat. rewrite E2, E1. split; [lia|].
      assert (d1 = 0 \/ d1 = 1)%nat as [Z1|O1] by lia;
        assert (d2 = 0 \/ d2 = 1)%nat as [Z2|O2] by lia.
      * split; lia.
      * destruct (C2 O2) as (? & ? & ?). split; [lia|]. intros _. repeat split; auto; lia.
      * destruct (C1 O1) as (? & ? & ?). split; [lia|]. intros _. repeat split; auto; lia.
      * destruct (C1 O1) as (? & ? & ?). destruct (C2 O2) as (? & ? & ?). lia.
Qed.

(** A ball is moved in its own turn of the loop only. *)
Lemma collisionVel_ballAt (ball : Mesh) (ID : nat) (s : State) (j : nat) :
  ballAt (collisionVel ball ID s) j = ballAt s j.
Proof.
  unfold ballAt. destruct (collisionVel_frame ball ID s) as (B & _). rewrite B. reflexivity.
Qed.

Lemma friction_ballAt (s : State) (j : nat) : ballAt (friction s) j = ballAt s j.
Proof.
  unfold ballAt. destruct (friction_frame s) as (B & _). rewrite B. reflexivity.
Qed.

Lemma cushions_ballAt (i : nat) (s : State) (j : nat) : ballAt (cushions i s) j = ballAt s j.
Proof. reflexivity. Qed.

Lemma render_ball_ballAt_other (dt : R) (i j : nat) (s : State) :
  i <> j -> ballAt (render_ball dt i s) j = ballAt s j.
Proof.
  intros H. unfold render_ball.
  rewrite friction_ballAt, cushions_ballAt.
  unfold move. rewrite ballAt_setBall_other by exact H.
  apply collisionVel_ballAt.
Qed.

Lemma render_from_ballAt_before (dt : R) (k i j : nat) (s : State) :
  (j < i)%nat -> ballAt (render_from dt k i s) j = ballAt s j.
Proof.
  revert i s. induction k as [|k IH]; intros i s H; [reflexivity|].
  cbn [render_from]. destruct (_ >? _); [reflexivity|].
  rewrite IH by lia. apply render_ball_ballAt_other. lia.
Qed.

(* ------------------------------------------------------------------ *)
(** ** The clock *)

Lemma Zfloor_div (a b : Z) : (0 < b)%Z -> Zfloor (IZR a / IZR b) = (a / b)%Z.
Proof.
  intros Hb. apply Zfloor_eq.
  pose proof (Z.div_mod a b ltac:(lia)) as E.
  pose proof (Z.mod_pos_bound a b Hb) as [M1 M2].
  assert (Hb' : (0 < IZR b)%R) by (apply IZR_lt; exact Hb).
  assert (Ea : IZR a = (IZR b * IZR (a / b) + IZR (a mod b))%R).
  { rewrite <- mult_IZR, <- plus_IZR. f_equal. exact E. }
  apply IZR_le in M1. apply IZR_lt in M2.
  rewrite Ea. split.
  - apply Rmult_le_reg_l with (IZR b); [exact Hb'|].
    field_simplify; [|lra]. lra.
  - apply Rmult_lt_reg_l with (IZR b); [exact Hb'|].
    field_simplify; [|lra]. lra.
Qed.

(** On a non-negative time in milliseconds, [secondOf] is the second of the
    minute. *)
Lemma secondOf_nonneg (t : Z) : (0 <= t)%Z -> secondOf t = ((t / 1000) mod 60)%Z.
Proof.
  intros Ht. unfold secondOf, Math_floor, js_rem, trunc.
  assert (H0 : (0 <= IZR t)%R) by (apply IZR_le; exact Ht).
  destruct (Rlt_dec (IZR t / 1000 / 60) 0) as [Hn|_].
  { exfalso. assert (0 <= IZR t / 1000 / 60)%R; [|lra].
    apply Rmult_le_pos; [apply Rmult_le_pos|]; lra. }
  replace (IZR t / 1000 / 60)%R with (IZR t / IZR 60000)%R by (field_simplify; lra).
  rewrite Zfloor_div by lia.
  replace (IZR t / 1000 - 60 * IZR (t / 60000))%R
    with (IZR (t - 60000 * (t / 60000)) / IZR 1000)%R.
  2:{ rewrite minus_IZR, mult_IZR. field. }
  rewrite Zfloor_div by lia.
  pose proof (Z.div_mod t 60000 ltac:(lia)).
  pose proof (Z.mod_pos_bound t 60000 ltac:(lia)).
  pose proof (Z.div_mod t 1000 ltac:(lia)).
  pose proof (Z.mod_pos_bound t 1000 ltac:(lia)).
  pose proof (Z.div_mod (t / 1000) 60 ltac:(lia)).
  pose proof (Z.mod_pos_bound (t / 1000) 60 ltac:(lia)).
  symmetry. apply Z.div_unique with (r := (t mod 1000)%Z); lia.
Qed.

(** A step of at most 150 ms changes the second exactly when it crosses a
    multiple of 1000 ms, and then by one. *)
Lemma second_changes (t m : Z) :
  (0 <= t)%Z -> (0 <= m <= 150)%Z ->
  ((t + m) / 1000 = t / 1000 /\ secondOf (t + m) = secondOf t)%Z \/
  ((t + m) / 1000 = t / 1000 + 1 /\ secondOf (t + m) <> secondOf t)%Z.
Proof.
  intros Ht Hm. rewrite !secondOf_nonneg by lia.
  pose proof (Z.div_mod t 1000 ltac:(lia)).
  pose proof (Z.mod_pos_bound t 1000 ltac:(lia)).
  pose proof (Z.div_mod (t + m) 1000 ltac:(lia)).
  pose proof (Z.mod_pos_bound (t + m) 1000 ltac:(lia)).
  assert ((t + m) / 1000 = t / 1000 \/ (t + m) / 1000 = t / 1000 + 1)%Z as [E|E] by lia.
  - left. rewrite E. auto.
  - right. split; [exact E|]. rewrite E.
    pose proof (Z.div_mod (t / 1000) 60 ltac:(lia)).
    pose proof (Z.mod_pos_bound (t / 1000) 60 ltac:(lia)).
    pose proof (Z.div_mod (t / 1000 + 1) 60 ltac:(lia)).
    pose proof (Z.mod_pos_bound (t / 1000 + 1) 60 ltac:(lia)).
    lia.
Qed.

Lemma elapsed_small (dt : R) : (0 <= dt <= 0.15)%R -> (0 <= elapsed dt <= 150)%Z.
Proof.
  intros [H1 H2]. unfold elapsed, Math_round.
  pose proof (Zfloor_bound (dt * 1000 + / 2)) as [B1 B2].
  split.
  - apply Zfloor_lub. simpl. lra.
  - assert (IZR (Zfloor (dt * 1000 + / 2)) < IZR 151)%R as B by (simpl; lra).
    apply lt_IZR in B. lia.
Qed.

(* ------------------------------------------------------------------ *)
(** ** The friction decay *)

Lemma render_from_decays (dt : R) (k i : nat) (s : State) (j : nat) :
  (dt <= 0.15)%R ->
  decays j (trace (render_from dt (S k) i s)) =
    (decays j (trace s)
     + (if Z.eqb (currentSecond s) (previousSec s) then 0
        else if (j <? nrOfBalls defaultSettings)%nat then 1 else 0))%nat /\
  previousSec (render_from dt (S k) i s) = currentSecond s.
Proof.
  intros Hdt. revert i s. induction k as [|k IH]; intros i s.
  - cbn [render_from]. unfold num_gtb. rewrite num_ltb_false by exact Hdt.
    destruct (render_ball_shape dt i s) as (_ & _ & _ & _ & P).
    split; [apply render_ball_decays | exact P].
  - change (render_from dt (S (S k)) i s)
      with (if Fin dt >? Fin 0.15 then s else render_from dt (S k) (S i) (render_ball dt i s)).
    unfold num_gtb. rewrite num_ltb_false by exact Hdt.
    destruct (IH (S i) (render_ball dt i s)) as (D & P).
    destruct (render_ball_shape dt i s) as (_ & _ & _ & S1 & P1).
    rewrite D, P, render_ball_decays, S1, P1, Z.eqb_refl. split; [lia | reflexivity].
Qed.

(** One frame with a small time step: the time it adds, the marker it
    leaves and the decays it applies. *)
Lemma render_decays (dt : R) (s : State) (j : nat) :
  (dt <= 0.15)%R ->
  currentTime (render dt s) = (currentTime s + elapsed dt)%Z /\
  previousSec (render dt s) = secondOf (currentTime s + elapsed dt) /\
  decays j (trace (render dt s)) =
    (decays j (trace s)
     + (if Z.eqb (secondOf (currentTime s + elapsed dt)) (previousSec s) then 0
        else if (j <? nrOfBalls defaultSettings)%nat then 1 else 0))%nat.
Proof.
  intros Hdt. unfold render.
  destruct (render_from_shape dt (nrOfBalls defaultSettings) 0 (tick dt s)) as (_ & _ & T & _).
  change (nrOfBalls defaultSettings) with 8%nat in *.
  destruct (render_from_decays dt 7 0 (tick dt s) j Hdt) as (D & P).
  rewrite T, D, P. unfold tick, elapsed. cbn [currentTime currentSecond previousSec trace].
  auto.
Qed.

Lemma frames_decays (dts : list R) (s : State) (j : nat) :
  (forall dt, In dt dts -> (0 <= dt <= 0.15)%R) ->
  (0 <= currentTime s)%Z ->
  previousSec s = secondOf (currentTime s) ->
  (j < nrOfBalls defaultSettings)%nat ->
  currentTime (frames dts s) = (currentTime s + simulated dts)%Z /\
  previousSec (frames dts s) = secondOf (currentTime (frames dts s)) /\
  Z.of_nat (decays j (trace (frames dts s))) =
    (Z.of_nat (decays j (trace s))
     + (currentTime (frames dts s) / 1000 - currentTime s / 1000))%Z.
Proof.
  intros Hdts Ht Hp Hj. revert s Ht Hp.
  induction dts as [|dt dts IH]; intros s Ht Hp.
  - cbn. repeat split; auto; lia.
  - assert (Hdt : (0 <= dt <= 0.15)%R) by (apply Hdts; left; reflexivity).
    destruct (render_decays dt s j (proj2 Hdt)) as (T1 & P1 & D1).
    pose proof (elapsed_small dt Hdt) as Hm.
    destruct (second_changes (currentTime s) (elapsed dt) Ht Hm) as [[Q1 S1] | [Q1 S1]].
    + destruct (IH (fun d H => Hdts d (or_intror H)) (render dt s)) as (T2 & P2 & D2).
      * rewrite T1. lia.
      * rewrite P1, T1. reflexivity.
      * change (frames (dt :: dts) s) with (frames dts (render dt s)).
        cbn [simulated fold_right]. fold (simulated dts).
        split; [rewrite T2, T1; lia|]. split; [exact P2|].
        rewrite D2, D1, T2, T1, Hp, S1, Z.eqb_refl, Q1. lia.
    + destruct (IH (fun d H => Hdts d (or_intror H)) (render dt s)) as (T2 & P2 & D2).
      * rewrite T1. lia.
      * rewrite P1, T1. reflexivity.
      * change (frames (dt :: dts) s) with (frames dts (render dt s)).
        cbn [simulated fold_right]. fold (simulated dts).
        split; [rewrite T2, T1; lia|]. split; [exact P2|].
        rewrite D2, D1, T2, T1, Hp, Q1.
        destruct (Z.eqb_spec (secondOf (currentTime s + elapsed dt)) (secondOf (currentTime s)))
          as [E|E]; [contradiction|].
        destruct (Nat.ltb_spec j (nrOfBalls defaultSettings)) as [_|?]; [|lia].
        lia.
Qed.

(** Frames that last a whole number of milliseconds: the simulated time is
    the sum of their time steps. *)
Lemma elapsed_whole_ms (m : Z) : elapsed (IZR m / 1000) = m.
Proof.
  unfold elapsed, Math_round. apply Zfloor_eq.
  replace (IZR m / 1000 * 1000)%R with (IZR m) by field. lra.
Qed.

Lemma simulated_whole_ms (ms : list Z) :
  simulated (map (fun m => (IZR m / 1000)%R) ms) = fold_right Z.add 0%Z ms.
Proof.
  induction ms as [|m ms IH]; [reflexivity|].
  cbn [map simulated fold_right]. fold (simulated (map (fun m => (IZR m / 1000)%R) ms)).
  rewrite elapsed_whole_ms, IH. reflexivity.
Qed.

(** The decay of lines 276-284 multiplies the velocity of every ball in
    its range by [rollFric]. *)
Lemma decay_from_velocityAt (k i : nat) (s : State) (j : nat) :
  velocityAt (decay_from k i s) j =
  if (i <=? j)%nat && (j <? i + k)%nat
  then multiplyScalar (velocityAt s j) rollFric else velocityAt s j.
Proof.
  revert i s. induction k as [|k IH]; intros i s.
  - cbn [decay_from].
    destruct (Nat.leb_spec i j); destruct (Nat.ltb_spec j (i + 0)); cbn [andb];
      first [reflexivity | lia].
  - cbn [decay_from]. rewrite IH.
    assert (E : velocityAt (record (Decayed i)
                  (setVelocity s i (multiplyScalar (velocityAt s i) rollFric))) j =
                if Nat.eqb i j then multiplyScalar (velocityAt s j) rollFric
                else velocityAt s j).
    { unfold velocityAt, record, setVelocity. cbn [velocity]. rewrite nth_assign.
      destruct (Nat.eqb_spec i j) as [->|_]; cbn [andb]; [|reflexivity].
      destruct (Nat.ltb_spec j (List.length (velocity s))) as [_|H]; [reflexivity|].
      rewrite (nth_overflow (velocity s) noVector H). reflexivity. }
    rewrite E.
    destruct (Nat.eqb_spec i j); destruct (Nat.leb_spec (S i) j);
      destruct (Nat.ltb_spec j (S i + k)); destruct (Nat.leb_spec i j);
      destruct (Nat.ltb_spec j (i + S k)); cbn [andb]; first [reflexivity | lia].
Qed.

Lemma friction_velocityAt (s : State) (j : nat) :
  (j < nrOfBalls defaultSettings)%nat ->
  velocityAt (friction s) j =
  if Z.eqb (currentSecond s) (previousSec s) then velocityAt s j
  else multiplyScalar (velocityAt s j) rollFric.
Proof.
  unfold friction. generalize (nrOfBalls defaultSettings). intros n Hj.
  destruct (Z.eqb (currentSecond s) (previousSec s)); [reflexivity|].
  change (velocityAt (setPreviousSec (decay_from n 0 s) (currentSecond s)) j)
    with (velocityAt (decay_from n 0 s) j).
  rewrite decay_from_velocityAt.
  destruct (Nat.leb_spec 0 j); destruct (Nat.ltb_spec j (0 + n)); cbn [andb];
    first [reflexivity | lia].
Qed.

(** The first turn of a frame that is not skipped: the state [X] that the
    collision update, the translation and the cushion tests of the ball 0
    leave, and its friction step, where the decay of the frame is
    applied. *)
Lemma render_first_turn (dt : R) (s : State) (j : nat) :
  (dt <= 0.15)%R ->
  let X := cushions 0 (move dt 0 (collisionVel (ballAt (tick dt s) 0) 0 (tick dt s))) in
  render dt s = render_from dt 7 1 (friction X) /\
  currentSecond X = secondOf (currentTime s + elapsed dt) /\
  previousSec X = previousSec s /\
  decays j (trace X) = decays j (trace s).
Proof.
  intros Hdt X. split; [|split; [|split]].
  - unfold render. change (nrOfBalls defaultSettings) with 8%nat.
    cbn [render_from]. unfold num_gtb at 1. rewrite num_ltb_false by exact Hdt.
    reflexivity.
  - unfold X.
    destruct (cushions_frame 0 (move dt 0 (collisionVel (ballAt (tick dt s) 0) 0 (tick dt s))))
      as (_ & C3 & _).
    destruct (move_frame dt 0 (collisionVel (ballAt (tick dt s) 0) 0 (tick dt s)))
      as (_ & C2 & _).
    destruct (collisionVel_frame (ballAt (tick dt s) 0) 0 (tick dt s)) as (_ & C1 & _).
    destruct (clockOf_eq _ _ C3) as (_ & S3 & _).
    destruct (clockOf_eq _ _ C2) as (_ & S2 & _).
    destruct (clockOf_eq _ _ C1) as (_ & S1 & _).
    rewrite S3, S2, S1. reflexivity.
  - unfold X.
    destruct (cushions_frame 0 (move dt 0 (collisionVel (ballAt (tick dt s) 0) 0 (tick dt s))))
      as (_ & C3 & _).
    destruct (move_frame dt 0 (collisionVel (ballAt (tick dt s) 0) 0 (tick dt s)))
      as (_ & C2 & _).
    destruct (collisionVel_frame (ballAt (tick dt s) 0) 0 (tick dt s)) as (_ & C1 & _).
    destruct (clockOf_eq _ _ C3) as (_ & _ & P3).
    destruct (clockOf_eq _ _ C2) as (_ & _ & P2).
    destruct (clockOf_eq _ _ C1) as (_ & _ & P1).
    rewrite P3, P2, P1. reflexivity.
  - unfold X.
    destruct (cushions_frame 0 (move dt 0 (collisionVel (ballAt (tick dt s) 0) 0 (tick dt s))))
      as (_ & _ & E3 & _).
    destruct (move_frame dt 0 (collisionVel (ballAt (tick dt s) 0) 0 (tick dt s)))
      as (_ & _ & E2 & _).
    rewrite E3, E2. unfold collisionVel. rewrite collisionVel_from_decays. reflexivity.
Qed.

(** C4 (as the code has it).  A run of frames with small time steps
    ([0 <= dt <= 0.15]) that starts on a whole second, with the marker
    [previousSec] up to date, and whose steps add [Math.round(dt * 1000)]
    ms each to [currentTime], 2000 ms in all: the friction decay of line
    277 is applied exactly twice to every ball over the run.  In each frame
    that is not skipped it is applied once when the second reached differs
    from the marker, and not at all otherwise; it is applied by the
    friction step that ends the turn of the ball 0, no other part of the
    frame decays, and it multiplies the velocity of the ball by
    [rollFric]. *)
Theorem friction_once_per_second (dts : list R) (s : State) (q : Z) (j : nat) :
  (forall dt, In dt dts -> (0 <= dt <= 0.15)%R) ->
  (0 <= q)%Z ->
  currentTime s = (1000 * q)%Z ->
  previousSec s = secondOf (currentTime s) ->
  simulated dts = 2000%Z ->
  (j < nrOfBalls defaultSettings)%nat ->
  decays j (trace (frames dts s)) = (decays j (trace s) + 2)%nat /\
  (forall (dt : R) (s' : State), (dt <= 0.15)%R ->
     let changed := negb (Z.eqb (secondOf (currentTime s' + elapsed dt)) (previousSec s')) in
     let X := cushions 0 (move dt 0 (collisionVel (ballAt (tick dt s') 0) 0 (tick dt s'))) in
     decays j (trace (render dt s')) = (decays j (trace s') + (if changed then 1 else 0))%nat /\
     render dt s' = render_from dt 7 1 (friction X) /\
     decays j (trace X) = decays j (trace s') /\
     decays j (trace (friction X)) = (decays j (trace s') + (if changed then 1 else 0))%nat /\
     velocityAt (friction X) j =
       (if changed then multiplyScalar (velocityAt X j) rollFric else velocityAt X j)).
Proof.
  intros Hdts Hq Ht Hp Hsim Hj. split.
  - destruct (frames_decays dts s j Hdts ltac:(lia) Hp Hj) as (T & _ & D).
    rewrite T, Hsim, Ht in D.
    replace ((1000 * q + 2000) / 1000)%Z with (q + 2)%Z in D
      by (apply Z.div_unique with (r := 0%Z); lia).
    replace (1000 * q / 1000)%Z with q in D
      by (apply Z.div_unique with (r := 0%Z); lia).
    lia.
  - intros dt s' Hdt changed X.
    destruct (render_first_turn dt s' j Hdt) as (E & S1 & P1 & D1). fold X in E, S1, P1, D1.
    destruct (render_decays dt s' j Hdt) as (_ & _ & D).
    assert (Hj' : (j <? nrOfBalls defaultSettings)%nat = true) by (apply Nat.ltb_lt; exact Hj).
    split; [|split; [exact E|split; [exact D1|split]]].
    + rewrite D, Hj'. unfold changed. destruct (Z.eqb _ _); reflexivity.
    + rewrite friction_decays, D1, S1, P1, Hj'. unfold changed.
      destruct (Z.eqb _ _); reflexivity.
    + rewrite friction_velocityAt by exact Hj. rewrite S1, P1. unfold changed.
      destruct (Z.eqb _ _); reflexivity.
Qed.

(* ------------------------------------------------------------------ *)
(** ** The pair updates of a frame *)

Lemma resolutions_cons (a j ID i : nat) (tr : list Event) :
  resolutions a j (Resolved ID i :: tr) =
  ((if Nat.eqb ID a && Nat.eqb i j then 1 else 0) + resolutions a j tr)%nat.
Proof. unfold resolutions. rewrite count_cons. reflexivity. Qed.

(** One turn of the loop of [collisionVel] updates the pair [(ID, i)]
    exactly when [i] is not [ID] and the contact test holds. *)
Lemma collisionVel_turn_count (ball : Mesh) (ID i : nat) (s : State) (j : nat) :
  resolutions ID j (trace (collisionVel_turn ball ID i s)) =
  (resolutions ID j (trace s)
   + (if Nat.eqb i j && negb (Nat.eqb j ID)
         && touches (position ball) (position (ballAt s j))
      then 1 else 0))%nat.
Proof.
  unfold collisionVel_turn, touches.
  destruct (Nat.eqb_spec i j) as [->|N]; cbn [andb].
  - destruct (Nat.eqb_spec j ID) as [E|E]; cbn [negb andb]; [lia|].
    destruct (_ <? _); [|lia].
    unfold collide, record. cbn [trace setVelocity].
    rewrite resolutions_cons, !Nat.eqb_refl. cbn [andb]. lia.
  - destruct (Nat.eqb i ID); [lia|].
    destruct (_ <? _); [|lia].
    unfold collide, record. cbn [trace setVelocity].
    rewrite resolutions_cons. destruct (Nat.eqb_spec i j) as [E|_]; [contradiction|].
    rewrite andb_false_r. lia.
Qed.

Lemma collisionVel_from_count (ball : Mesh) (ID k i : nat) (s : State) (j : nat) :
  resolutions ID j (trace (collisionVel_from ball ID k i s)) =
  (resolutions ID j (trace s)
   + (if (i <=? j)%nat && (j <? i + k)%nat && negb (Nat.eqb j ID)
         && touches (position ball) (position (ballAt s j))
      then 1 else 0))%nat.
Proof.
  revert i s. induction k as [|k IH]; intros i s.
  - cbn [collisionVel_from].
    destruct (Nat.leb_spec i j); destruct (Nat.ltb_spec j (i + 0)); cbn [andb]; lia.
  - cbn [collisionVel_from]. rewrite IH, collisionVel_turn_count.
    destruct (collisionVel_turn_frame ball ID i s) as (B & _).
    replace (ballAt (collisionVel_turn ball ID i s) j) with (ballAt s j)
      by (unfold ballAt; rewrite B; reflexivity).
    destruct (touches (position ball) (position (ballAt s j)));
      destruct (Nat.eqb j ID); rewrite ?andb_false_r, ?andb_true_r; cbn [negb]; try lia.
    destruct (Nat.eqb_spec i j); destruct (Nat.leb_spec (S i) j);
      destruct (Nat.ltb_spec j (S i + k)); destruct (Nat.leb_spec i j);
      destruct (Nat.ltb_spec j (i + S k)); cbn [andb]; lia.
Qed.

(** The turn of the ball [i] in a frame: the pair [(i, j)] is updated
    exactly when the ball [j] is found closer than two radii to the
    ball [i], both where they are when the turn starts. *)
Lemma render_ball_count (dt : R) (i : nat) (s : State) (j : nat) :
  (j < List.length (balls s))%nat -> j <> i ->
  resolutions i j (trace (render_ball dt i s)) =
  (resolutions i j (trace s)
   + (if touches (position (ballAt s i)) (position (ballAt s j)) then 1 else 0))%nat.
Proof.
  intros Hj Hne. unfold render_ball. rewrite friction_resolutions.
  destruct (cushions_frame i (move dt i (collisionVel (ballAt s i) i s))) as (_ & _ & E & _).
  rewrite E.
  destruct (move_frame dt i (collisionVel (ballAt s i) i s)) as (_ & _ & E' & _).
  rewrite E'. unfold collisionVel. rewrite collisionVel_from_count.
  destruct (Nat.leb_spec 0 j) as [_|?]; [|lia].
  destruct (Nat.ltb_spec j (0 + List.length (balls s))) as [_|?]; [|lia].
  destruct (Nat.eqb_spec j i) as [?|_]; [contradiction|]. reflexivity.
Qed.

Lemma render_ball_count_other (dt : R) (i : nat) (s : State) (a j : nat) :
  a <> i -> resolutions a j (trace (render_ball dt i s)) = resolutions a j (trace s).
Proof.
  intros H. destruct (render_ball_resolutions dt i s a j) as (d & E & B & C).
  rewrite E. assert (d = 0 \/ d = 1)%nat as [->|D] by lia; [lia|].
  destruct (C D) as (? & _). contradiction.
Qed.

Lemma render_from_count_before (dt : R) (k i : nat) (s : State) (a j : nat) :
  (a < i)%nat -> resolutions a j (trace (render_from dt k i s)) = resolutions a j (trace s).
Proof.
  intros H. destruct (render_from_resolutions dt k i s a j) as (d & E & B & C).
  rewrite E. assert (d = 0 \/ d = 1)%nat as [->|D] by lia; [lia|].
  destruct (C D) as (? & _). lia.
Qed.

(** The turns [i], ..., [i + k - 1] of a frame: the pair [(a, j)] is updated
    in the turn of [a] exactly when the contact test holds there.  The
    ball [a] is then where it was before these turns; the ball [j] is
    where they leave it if its own turn came before, and where it was
    otherwise. *)
Lemma render_from_count (dt : R) (k i : nat) (s : State) (a j : nat) :
  (dt <= 0.15)%R ->
  (i <= a < i + k)%nat -> (j < List.length (balls s))%nat -> a <> j ->
  resolutions a j (trace (render_from dt k i s)) =
  (resolutions a j (trace s)
   + (if touches (position (ballAt s a))
                 (position (ballAt (if (i <=? j)%nat && (j <? a)%nat
                                    then render_from dt k i s else s) j))
      then 1 else 0))%nat.
Proof.
  intros Hdt. revert i s. induction k as [|k IH]; intros i s Ha Hj Hne; [lia|].
  assert (E : render_from dt (S k) i s = render_from dt k (S i) (render_ball dt i s)).
  { cbn [render_from]. unfold num_gtb. rewrite num_ltb_false by exact Hdt. reflexivity. }
  rewrite E.
  destruct (render_ball_shape dt i s) as (LB & _).
  destruct (Nat.eq_dec a i) as [->|Hai].
  - rewrite render_from_count_before by lia.
    rewrite render_ball_count by auto.
    replace ((i <=? j)%nat && (j <? i)%nat) with false; [reflexivity|].
    destruct (Nat.leb_spec i j); destruct (Nat.ltb_spec j i); cbn [andb]; auto; lia.
  - rewrite IH by (try rewrite LB; auto; lia).
    rewrite render_ball_count_other by exact Hai.
    rewrite (render_ball_ballAt_other dt i a s) by auto.
    set (s1 := render_ball dt i s). set (s2 := render_from dt k (S i) s1).
    assert (P : ballAt (if (S i <=? j)%nat && (j <? a)%nat then s2 else s1) j =
                ballAt (if (i <=? j)%nat && (j <? a)%nat then s2 else s) j).
    { destruct (Nat.leb_spec (S i) j); destruct (Nat.ltb_spec j a);
        destruct (Nat.leb_spec i j); cbn [andb];
        first [ reflexivity
              | lia
              | apply render_ball_ballAt_other; lia
              | assert (j = i) by lia; subst j; symmetry;
                apply render_from_ballAt_before; lia ]. }
    rewrite P. reflexivity.
Qed.


(* ------------------------------------------------------------------ *)
(** ** The cushions and the position *)

(** C2 (as the code has it).  The cushion tests do not move the ball: the
    meshes are left as they are.  They turn the velocity back: after them
    the velocity component along an axis on which the centre is beyond the
    bound points inwards. *)
Theorem cushions_turn_velocity_inwards (i : nat) (s : State) :
  (i < List.length (velocity s))%nat ->
  finiteV (velocityAt s i) ->
  let p := position (ballAt s i) in
  let v' := velocityAt (cushions i s) i in
  balls (cushions i s) = balls s /\
  ((x p >? halfWidth) = true -> num_le (x v') (Fin 0)) /\
  ((x p <? - halfWidth) = true -> num_le (Fin 0) (x v')) /\
  ((y p >? halfHeight) = true -> num_le (y v') (Fin 0)) /\
  ((y p <? - halfHeight) = true -> num_le (Fin 0) (y v')).
Proof.
  intros Hi Hv p v'. split; [reflexivity|].
  unfold v', cushions. rewrite velocityAt_setVelocity_same by exact Hi. fold p.
  destruct (finiteV_inv _ Hv) as (a & b & c & ->).
  pose proof (Rabs_pos a) as Pa. pose proof (Rabs_pos b) as Pb.
  pose proof (Rabs_pos (b * 0.8)) as Pb'.
  assert (Hx : (x p >? halfWidth) = true -> (x p <? - halfWidth) = false).
  { rewrite halfWidth_eq. unfold num_gtb. destruct (x p) as [r|]; [|discriminate].
    cbn [num_neg]. rewrite !num_ltb_spec. intros H. apply num_ltb_false. lra. }
  assert (Hy : (y p >? halfHeight) = true -> (y p <? - halfHeight) = false).
  { rewrite halfHeight_eq. unfold num_gtb. destruct (y p) as [r|]; [|discriminate].
    cbn [num_neg]. rewrite !num_ltb_spec. intros H. apply num_ltb_false. lra. }
  unfold cushionX, cushionY, rollFric.
  destruct (x p >? halfWidth) eqn:X1; [rewrite (Hx eq_refl) | destruct (x p <? - halfWidth) eqn:X2];
    (destruct (y p >? halfHeight) eqn:Y1;
       [rewrite (Hy eq_refl) | destruct (y p <? - halfHeight) eqn:Y2]);
    cbn [multiplyScalar x y z Math_abs num_neg num_mul num_le];
    repeat split; intros; try discriminate; try nra.
Qed.

(* ------------------------------------------------------------------ *)
(** ** The height of the centres *)

(** Rewriting a velocity at any index keeps a state on the plane when the
    new velocity is horizontal. *)
Lemma setVelocity_onPlane (h : R) (s : State) (i : nat) (v : Vector3) :
  horizontal v -> onPlane h s -> onPlane h (setVelocity s i v).
Proof.
  intros Hv [HP HV]. split; [exact HP|].
  intros j Hj. unfold velocityAt, setVelocity in *. cbn [velocity] in *.
  rewrite assign_length in Hj. rewrite nth_assign.
  destruct (Nat.eqb i j && Nat.ltb i (List.length (velocity s))); [exact Hv | apply HV, Hj].
Qed.

(** The same when the new velocity is computed from the old one, which is
    read past the end at an index that is not valid. *)
Lemma setVelocity_onPlane_at (h : R) (s : State) (i : nat) (f : Vector3 -> Vector3) :
  (forall v, horizontal v -> horizontal (f v)) ->
  onPlane h s -> onPlane h (setVelocity s i (f (velocityAt s i))).
Proof.
  intros Hf H. destruct (Nat.lt_ge_cases i (List.length (velocity s))) as [Hi|Hi].
  - apply setVelocity_onPlane; [|exact H]. apply Hf, (proj2 H), Hi.
  - destruct H as [HP HV]. split; [exact HP|].
    intros j Hj. unfold velocityAt, setVelocity in *. cbn [velocity] in *.
    rewrite assign_length in Hj. rewrite nth_assign.
    destruct (Nat.ltb_spec i (List.length (velocity s))); [lia|].
    rewrite andb_false_r. apply HV, Hj.
Qed.

Lemma scaled_horizontal (v : Vector3) (k : R) :
  horizontal v -> horizontal (multiplyScalar v (Fin k)).
Proof.
  intros (a & b & ->). exists (a * k)%R, (b * k)%R.
  unfold multiplyScalar. cbn [x y z num_mul]. apply Vec3_fin_eq; ring.
Qed.

Lemma cushionX_horizontal (p v : Vector3) : horizontal v -> horizontal (cushionX p v).
Proof.
  intros (a & b & ->). unfold cushionX, rollFric.
  destruct (_ >? _); [|destruct (_ <? _)];
    cbn [multiplyScalar x y z Math_abs num_neg num_mul].
  - exists (- Rabs a * 0.8)%R, (b * 0.8)%R. apply Vec3_fin_eq; ring.
  - exists (Rabs a * 0.8)%R, (b * 0.8)%R. apply Vec3_fin_eq; ring.
  - exists a, b. reflexivity.
Qed.

Lemma cushionY_horizontal (p v : Vector3) : horizontal v -> horizontal (cushionY p v).
Proof.
  intros (a & b & ->). unfold cushionY, rollFric.
  destruct (_ >? _); [|destruct (_ <? _)];
    cbn [multiplyScalar x y z Math_abs num_neg num_mul].
  - exists (a * 0.8)%R, (- Rabs b * 0.8)%R. apply Vec3_fin_eq; ring.
  - exists (a * 0.8)%R, (Rabs b * 0.8)%R. apply Vec3_fin_eq; ring.
  - exists a, b. reflexivity.
Qed.

Lemma cushions_sound (h : R) (i : nat) (s : State) : sound h s -> sound h (cushions i s).
Proof.
  intros [HL H]. destruct (cushions_frame i s) as (B & _ & _ & L).
  split; [rewrite B, L; exact HL|].
  unfold cushions.
  apply (setVelocity_onPlane_at h s i
           (fun v => cushionY (position (ballAt s i)) (cushionX (position (ballAt s i)) v)));
    [|exact H].
  intros v Hv. apply cushionY_horizontal, cushionX_horizontal, Hv.
Qed.

Lemma decay_from_sound (h : R) (k i : nat) (s : State) : sound h s -> sound h (decay_from k i s).
Proof.
  revert i s. induction k as [|k IH]; intros i s Hs; [exact Hs|].
  cbn [decay_from]. apply IH.
  destruct Hs as [HL H]. split.
  { unfold record, setVelocity. cbn [balls velocity]. rewrite assign_length. exact HL. }
  exact (setVelocity_onPlane_at h s i (fun v => multiplyScalar v rollFric)
           (fun v Hv => scaled_horizontal v _ Hv) H).
Qed.

Lemma friction_sound (h : R) (s : State) : sound h s -> sound h (friction s).
Proof.
  intros Hs. unfold friction. generalize (nrOfBalls defaultSettings). intros n.
  destruct (Z.eqb (currentSecond s) (previousSec s)); [exact Hs|].
  exact (decay_from_sound h n 0 s Hs).
Qed.

Lemma move_sound (h dt : R) (i : nat) (s : State) : sound h s -> sound h (move dt i s).
Proof.
  intros [HL [HP HV]]. destruct (move_frame dt i s) as (V & _ & _ & L).
  split; [rewrite L, V; exact HL|].
  split.
  - intros j Hj. rewrite L in Hj. unfold move, ballAt, setBall. cbn [balls].
    rewrite nth_assign.
    destruct (Nat.eqb_spec i j) as [->|_]; cbn [andb]; [|apply HP, Hj].
    destruct (Nat.ltb_spec j (List.length (balls s))) as [_|?]; [|lia].
    destruct (HP j Hj) as (a & b & Ep).
    destruct (HV j ltac:(lia)) as (p & q & Ev).
    unfold ballAt in Ep. cbn [position]. rewrite Ep, Ev.
    exists (a + p * dt)%R, (b + q * dt)%R.
    unfold add, addVectors, clone, multiplyScalar. cbn [x y z num_mul num_add].
    apply Vec3_fin_eq; ring.
  - intros j Hj. unfold velocityAt in *. rewrite V in *. apply HV, Hj.
Qed.

(** The velocity update of a pair keeps the velocities horizontal: the
    normal between two centres of the same height is horizontal, and it is
    the zero vector when the centres coincide. *)
Lemma collide_sound (h : R) (ball : Mesh) (ID i : nat) (s : State) :
  sound h s ->
  atHeight h (position ball) ->
  ID <> i ->
  (ID < List.length (velocity s))%nat ->
  (i < List.length (velocity s))%nat ->
  sound h (collide ball ID i s).
Proof.
  intros [HL H] Hball Hne HID Hi. split.
  { unfold collide, record, setVelocity. cbn [balls velocity].
    rewrite !assign_length. exact HL. }
  destruct Hball as (a & b & EA).
  destruct (proj1 H i ltac:(lia)) as (a' & b' & EB).
  destruct (proj2 H ID HID) as (p & q & EvA).
  destruct (proj2 H i Hi) as (p' & q' & EvB).
  unfold collide.
  change (onPlane h (setVelocity (setVelocity s ID
            (subVectors (velocityAt s ID)
               (impulse (position ball) (position (ballAt s i)) (velocityAt s ID) (velocityAt s i))))
            i (addVectors (velocityAt s i)
               (impulse (position ball) (position (ballAt s i)) (velocityAt s ID) (velocityAt s i))))).
  rewrite EA, EB, EvA, EvB.
  assert (D : (a = a' /\ b = b') \/
              Vec3 (Fin a) (Fin b) (Fin h) <> Vec3 (Fin a') (Fin b') (Fin h)).
  { destruct (Req_dec a a') as [Ea|Ea]; [destruct (Req_dec b b') as [Eb|Eb]|];
      [left; auto | right | right]; intros E; injection E; intros; lra. }
  destruct D as [[Ea Eb]|D].
  - subst a' b'. rewrite impulse_coincident.
    unfold subVectors, addVectors. cbn [x y z num_sub num_add].
    apply setVelocity_onPlane; [|apply setVelocity_onPlane; [|exact H]].
    + eexists _, _. apply Vec3_fin_eq; [reflexivity | reflexivity | lra].
    + eexists _, _. apply Vec3_fin_eq; [reflexivity | reflexivity | lra].
  - rewrite impulse_fin by exact D.
    cbv zeta. unfold subVectors, addVectors. cbn [x y z num_sub num_add].
    apply setVelocity_onPlane; [|apply setVelocity_onPlane; [|exact H]].
    + eexists _, _. apply Vec3_fin_eq; [reflexivity | reflexivity | lra].
    + eexists _, _. apply Vec3_fin_eq; [reflexivity | reflexivity | lra].
Qed.

Lemma collisionVel_turn_sound (h : R) (ball : Mesh) (ID i : nat) (s : State) :
  sound h s ->
  atHeight h (position ball) ->
  (ID < List.length (velocity s))%nat ->
  (i < List.length (velocity s))%nat ->
  sound h (collisionVel_turn ball ID i s).
Proof.
  intros Hs Hball HID Hi. unfold collisionVel_turn.
  destruct (Nat.eqb_spec i ID) as [E|E]; [exact Hs|].
  destruct (_ <? _); [|exact Hs].
  apply collide_sound; auto.
Qed.

Lemma collisionVel_from_sound (h : R) (s0 : State) (ID k i : nat) (s : State) :
  balls s = balls s0 ->
  sound h s ->
  (ID < List.length (velocity s))%nat ->
  (i + k <= List.length (velocity s))%nat ->
  sound h (collisionVel_from (ballAt s0 ID) ID k i s).
Proof.
  revert i s. induction k as [|k IH]; intros i s HB Hs HID Hk; [exact Hs|].
  cbn [collisionVel_from].
  destruct (collisionVel_turn_frame (ballAt s0 ID) ID i s) as (B & _ & L).
  apply IH.
  - rewrite B. exact HB.
  - apply collisionVel_turn_sound; auto; try lia.
    destruct Hs as [HL [HP _]]. unfold ballAt. rewrite <- HB. apply HP.
    rewrite HL. exact HID.
  - rewrite L. exact HID.
  - rewrite L. lia.
Qed.

Lemma render_ball_sound (h dt : R) (i : nat) (s : State) :
  sound h s -> (i < List.length (velocity s))%nat -> sound h (render_ball dt i s).
Proof.
  intros Hs Hi. unfold render_ball.
  apply friction_sound, cushions_sound, move_sound.
  unfold collisionVel. apply collisionVel_from_sound; auto.
  rewrite (proj1 Hs). lia.
Qed.

Lemma render_from_sound (h dt : R) (k i : nat) (s : State) :
  sound h s -> (i + k <= List.length (velocity s))%nat -> sound h (render_from dt k i s).
Proof.
  revert i s. induction k as [|k IH]; intros i s Hs Hk; [exact Hs|].
  cbn [render_from]. destruct (_ >? _); [exact Hs|].
  destruct (render_ball_shape dt i s) as (_ & L & _).
  apply IH.
  - apply render_ball_sound; [exact Hs | lia].
  - rewrite L. lia.
Qed.

Lemma render_sound (h dt : R) (s : State) :
  wellFormed s -> sound h s -> sound h (render dt s).
Proof.
  intros [_ WV] Hs. unfold render. apply render_from_sound.
  - exact Hs.
  - cbn [tick velocity]. rewrite WV. lia.
Qed.

Lemma boost_from_sound (h : R) (delta : nat -> R) (k i : nat) (s : State) :
  sound h s -> sound h (boost_from delta k i s).
Proof.
  revert i s. induction k as [|k IH]; intros i s Hs; [exact Hs|].
  cbn [boost_from]. apply IH, move_sound.
  destruct Hs as [HL H]. split.
  { unfold setVelocity. cbn [balls velocity]. rewrite assign_length. exact HL. }
  apply (setVelocity_onPlane_at h s i (fun v => multiplyScalar v (colliFric + colliFric)));
    [|exact H].
  intros v Hv. unfold colliFric. cbn [num_add]. apply scaled_horizontal, Hv.
Qed.

Lemma boost_from_shape (delta : nat -> R) (k i : nat) (s : State) :
  List.length (balls (boost_from delta k i s)) = List.length (balls s) /\
  List.length (velocity (boost_from delta k i s)) = List.length (velocity s).
Proof.
  revert i s. induction k as [|k IH]; intros i s; [auto|].
  cbn [boost_from].
  destruct (IH (S i) (move (delta i) i
     (setVelocity s i (multiplyScalar (velocityAt s i) (colliFric + colliFric))))) as (B & L).
  rewrite B, L. unfold move, setBall, setVelocity. cbn [balls velocity].
  rewrite !assign_length. auto.
Qed.

Lemma react_sound (h : R) (s : State) (e : Input) :
  wellFormed s -> sound h s -> wellFormed (react s e) /\ sound h (react s e).
Proof.
  intros W Hs. destruct e as [dt | keyCode delta]; cbn [react].
  - split; [|apply render_sound; assumption].
    unfold render.
    destruct (render_from_shape dt (nrOfBalls defaultSettings) 0 (tick dt s)) as (B & L & _).
    unfold wellFormed. rewrite B, L. exact W.
  - unfold eventHandler. generalize (nrOfBalls defaultSettings) at 1 2. intros n.
    destruct (Z.eqb keyCode 82); [auto|]. destruct (Z.eqb keyCode 83); [|auto].
    split; [|apply boost_from_sound, Hs].
    destruct (boost_from_shape delta n 0 s) as (B & L).
    unfold wellFormed. rewrite B, L. exact W.
Qed.

Lemma run_sound (h : R) (inputs : list Input) (s : State) :
  wellFormed s -> sound h s -> wellFormed (run inputs s) /\ sound h (run inputs s).
Proof.
  revert s. induction inputs as [|e inputs IH]; intros s W Hs; [auto|].
  cbn [run fold_left]. destruct (react_sound h s e W Hs) as (W' & Hs').
  apply IH; assumption.
Qed.

(* ------------------------------------------------------------------ *)
(** ** The matrices stay finite *)

Lemma normalize_finite (v : Vector3) : finiteV v -> finiteV (normalize v).
Proof.
  intros H. destruct (finiteV_inv _ H) as (a & b & c & ->).
  unfold normalize. rewrite length_fin.
  assert (E : exists d, (d <> 0)%R /\
                num_or (Fin (sqrt (a * a + b * b + c * c))) (Fin 1) = Fin d).
  { unfold num_or. destruct (Req_dec_T (sqrt (a * a + b * b + c * c)) 0) as [Z|N].
    - exists 1%R. split; [lra|reflexivity].
    - eexists. split; [exact N|reflexivity]. }
  destruct E as (d & Hd & ->). unfold divideScalar. cbn [x y z].
  rewrite !num_div_fin by exact Hd. unfold finiteV. cbn. tauto.
Qed.

Ltac entries H :=
  unfold finiteM in H; cbn in H;
  repeat match goal with
         | K : _ /\ _ |- _ => destruct K
         | K : finite ?m |- _ => destruct (finite_inv _ K) as [? ->]; clear K
         end.

Lemma multiply_finite (m m' : Matrix4) : finiteM m -> finiteM m' -> finiteM (multiply m m').
Proof.
  intros H H'.
  destruct m as [a11 a12 a13 a14 a21 a22 a23 a24 a31 a32 a33 a34 a41 a42 a43 a44].
  destruct m' as [b11 b12 b13 b14 b21 b22 b23 b24 b31 b32 b33 b34 b41 b42 b43 b44].
  entries H. entries H'. unfold finiteM, multiply. cbn. tauto.
Qed.

Lemma makeRotationAxis_finite (axis : Vector3) (angle : R) :
  finiteV axis -> finiteM (makeRotationAxis axis (Fin angle)).
Proof.
  intros H. destruct (finiteV_inv _ H) as (a & b & c & ->).
  unfold finiteM, makeRotationAxis. cbn -[cos sin]. tauto.
Qed.

Lemma setPosition_finite (m : Matrix4) (v : Vector3) :
  finiteM m -> finiteV v -> finiteM (setPosition m v).
Proof.
  intros H Hv. destruct (finiteV_inv _ Hv) as (a & b & c & ->).
  destruct m as [a11 a12 a13 a14 a21 a22 a23 a24 a31 a32 a33 a34 a41 a42 a43 a44].
  entries H. unfold finiteM, setPosition. cbn. tauto.
Qed.

(** The translation and rotation of a ball with a finite velocity keep a
    finite mesh finite. *)
Lemma move_finite (dt : R) (i : nat) (s : State) :
  (i < List.length (balls s))%nat ->
  finiteV (velocityAt s i) ->
  finiteV (position (ballAt s i)) ->
  finiteM (matrix (ballAt s i)) ->
  finiteV (position (ballAt (move dt i s) i)) /\
  finiteM (matrix (ballAt (move dt i s) i)).
Proof.
  intros Hi Hv Hp Hm. unfold move. rewrite ballAt_setBall_same by exact Hi.
  cbn [position matrix].
  destruct (finiteV_inv _ Hv) as (p & q & r & Ev).
  destruct (finiteV_inv _ Hp) as (a & b & c & Ep).
  assert (P : finiteV (add (position (ballAt s i))
                           (multiplyScalar (clone (velocityAt s i)) (Fin dt)))).
  { rewrite Ev, Ep. unfold add, addVectors, clone, multiplyScalar, finiteV. cbn. tauto. }
  split; [exact P|].
  apply multiply_finite; [apply setPosition_finite; assumption|].
  assert (A : exists w, (length (velocityAt s i) / ballRadius defaultSettings * Fin dt)%num
                        = Fin w).
  { rewrite Ev, length_fin. cbn [ballRadius defaultSettings].
    rewrite num_div_fin by lra. cbn [num_mul]. eexists. reflexivity. }
  destruct A as (w & ->).
  apply makeRotationAxis_finite, normalize_finite.
  rewrite Ev. unfold cross, finiteV. cbn. tauto.
Qed.

Lemma horizontal_finiteV (v : Vector3) : horizontal v -> finiteV v.
Proof. intros (a & b & ->). unfold finiteV. cbn. tauto. Qed.

Lemma move_finiteMeshes (h dt : R) (i : nat) (s : State) :
  sound h s -> finiteMeshes s -> finiteMeshes (move dt i s).
Proof.
  intros [HL [HP HV]] HM j Hj.
  destruct (move_frame dt i s) as (_ & _ & _ & L). rewrite L in Hj.
  destruct (Nat.eq_dec i j) as [->|Hne].
  - apply move_finite; [exact Hj| | |apply HM, Hj].
    + apply horizontal_finiteV, HV. lia.
    + destruct (HP j Hj) as (a & b & E). rewrite E. unfold finiteV. cbn. tauto.
  - unfold move. rewrite ballAt_setBall_other by exact Hne. apply HM, Hj.
Qed.

Lemma finiteMeshes_balls (s s' : State) :
  balls s' = balls s -> finiteMeshes s -> finiteMeshes s'.
Proof. intros E H j Hj. unfold ballAt. rewrite E in *. apply H, Hj. Qed.

Lemma render_ball_finiteMeshes (h dt : R) (i : nat) (s : State) :
  sound h s -> (i < List.length (velocity s))%nat ->
  finiteMeshes s -> finiteMeshes (render_ball dt i s).
Proof.
  intros Hs Hi HM. unfold render_ball.
  apply (finiteMeshes_balls _ _ (proj1 (friction_frame _))).
  apply (finiteMeshes_balls _ _ (proj1 (cushions_frame _ _))).
  apply (move_finiteMeshes h).
  - unfold collisionVel. apply collisionVel_from_sound; auto.
    rewrite (proj1 Hs). lia.
  - apply (finiteMeshes_balls _ _ (proj1 (collisionVel_frame _ _ _))), HM.
Qed.

Lemma render_from_finiteMeshes (h dt : R) (k i : nat) (s : State) :
  sound h s -> (i + k <= List.length (velocity s))%nat ->
  finiteMeshes s -> finiteMeshes (render_from dt k i s).
Proof.
  revert i s. induction k as [|k IH]; intros i s Hs Hk HM; [exact HM|].
  cbn [render_from]. destruct (_ >? _); [exact HM|].
  destruct (render_ball_shape dt i s) as (_ & L & _).
  apply IH.
  - apply render_ball_sound; [exact Hs | lia].
  - rewrite L. lia.
  - apply (render_ball_finiteMeshes h); [exact Hs | lia | exact HM].
Qed.

Lemma boost_from_finiteMeshes (h : R) (delta : nat -> R) (k i : nat) (s : State) :
  sound h s -> finiteMeshes s -> finiteMeshes (boost_from delta k i s).
Proof.
  revert i s. induction k as [|k IH]; intros i s Hs HM; [exact HM|].
  cbn [boost_from].
  assert (Hs1 : sound h (setVelocity s i
                  (multiplyScalar (velocityAt s i) (colliFric + colliFric)))).
  { destruct Hs as [HL H]. split.
    { unfold setVelocity. cbn [balls velocity]. rewrite assign_length. exact HL. }
    apply (setVelocity_onPlane_at h s i (fun v => multiplyScalar v (colliFric + colliFric)));
      [|exact H].
    intros v Hv. unfold colliFric. cbn [num_add]. apply scaled_horizontal, Hv. }
  apply IH; [apply move_sound, Hs1|].
  apply (move_finiteMeshes h); [exact Hs1|].
  exact (finiteMeshes_balls s _ eq_refl HM).
Qed.

(** From a state on a plane whose matrices are finite (as
    [createBilliardBalls] leaves them, with the identity), every run leaves
    matrices, centres and velocities finite. *)
Lemma run_finiteMeshes (h : R) (inputs : list Input) (s : State) :
  wellFormed s -> sound h s -> finiteMeshes s -> finiteMeshes (run inputs s).
Proof.
  revert s. induction inputs as [|e inputs IH]; intros s W Hs HM; [exact HM|].
  cbn [run fold_left]. destruct (react_sound h s e W Hs) as (W' & Hs').
  apply IH; [exact W' | exact Hs' |].
  destruct e as [dt | keyCode delta]; cbn [react].
  - unfold render. apply (render_from_finiteMeshes h).
    + exact Hs.
    + cbn [tick velocity]. rewrite (proj2 W). lia.
    + exact (finiteMeshes_balls s _ eq_refl HM).
  - unfold eventHandler. generalize (nrOfBalls defaultSettings). intros n.
    destruct (Z.eqb keyCode 82); [exact HM|]. destruct (Z.eqb keyCode 83); [|exact HM].
    apply (boost_from_finiteMeshes h); assumption.
Qed.

Lemma move_keeps_z (dt : R) (i j : nat) (s0 : State) :
  horizontal (velocityAt s0 i) -> finiteV (position (ballAt s0 j)) ->
  z (position (ballAt (move dt i s0) j)) = z (position (ballAt s0 j)).
Proof.
  intros (p & q & Ev) Hp. unfold move, ballAt at 1, setBall. cbn [balls].
  rewrite nth_assign.
  destruct (Nat.eqb_spec i j) as [->|_]; cbn [andb]; [|reflexivity].
  destruct (Nat.ltb j (List.length (balls s0))); [|reflexivity].
  destruct (finiteV_inv _ Hp) as (a & b & c & Ep).
  cbn [position]. rewrite Ev. fold (ballAt s0 j). rewrite Ep.
  unfold add, addVectors, clone, multiplyScalar. cbn [x y z num_mul num_add].
  f_equal. ring.
Qed.

(** C9.  From a state whose centres all lie at one height [h] with
    horizontal velocities (as [createBilliardBalls] leaves them), every
    centre is at the height [h] after any run of frames and key presses,
    and every velocity is still horizontal: the translation of a frame and
    the one of the speed boost keep the third coordinate, and the collision
    update, the cushions and the friction decay do not move the balls at
    all. *)
Theorem position_z_constant (h : R) (inputs : list Input) (s : State) :
  wellFormed s ->
  onPlane h s ->
  (forall j, (j < nrOfBalls defaultSettings)%nat ->
     z (position (ballAt (run inputs s) j)) = Fin h /\
     z (velocityAt (run inputs s) j) = Fin 0) /\
  (forall (dt : R) (i j : nat) (s0 : State),
     horizontal (velocityAt s0 i) -> finiteV (position (ballAt s0 j)) ->
     z (position (ballAt (move dt i s0) j)) = z (position (ballAt s0 j))) /\
  (forall (ball : Mesh) (ID : nat) (s0 : State),
     balls (collisionVel ball ID s0) = balls s0) /\
  (forall (i : nat) (s0 : State), balls (cushions i s0) = balls s0) /\
  (forall s0 : State, balls (friction s0) = balls s0).
Proof.
  intros W HP. split; [|split; [apply move_keeps_z|split; [|split]]].
  - destruct (run_sound h inputs s W (conj (eq_trans (proj1 W) (eq_sym (proj2 W))) HP))
      as ([WB WV] & _ & [Hpos Hvel]).
    intros j Hj. split.
    + destruct (Hpos j) as (a & b & E); [rewrite WB; exact Hj|].
      rewrite E. reflexivity.
    + destruct (Hvel j) as (a & b & E); [rewrite WV; exact Hj|].
      rewrite E. reflexivity.
  - intros ball ID s0. apply collisionVel_frame.
  - intros i s0. reflexivity.
  - intros s0. apply friction_frame.
Qed.

Lemma drawn_position_atHeight (u v : R) :
  atHeight restingPlane
    (Vec3 (num_rem ((Fin u - Fin 0.5) * Fin 100) halfWidth)
          (num_rem ((Fin v - Fin 0.5) * Fin 100) halfHeight)
          (tableWidth defaultSettings - Fin 0.05)).
Proof.
  rewrite halfWidth_eq, halfHeight_eq. cbn [num_sub num_mul num_rem tableWidth defaultSettings].
  destruct (Req_dec_T 4.8 0) as [E|_]; [lra|].
  destruct (Req_dec_T 2.3 0) as [E|_]; [lra|].
  eexists _, _. reflexivity.
Qed.

Lemma getBallPosition_atHeight (fuel : nat) (rand : nat -> R) (others : list Mesh)
    (c : nat) (BB BB' : Mesh) (c' : nat) :
  getBallPosition fuel rand others c BB = Some (BB', c') ->
  atHeight restingPlane (position BB').
Proof.
  revert c BB BB' c'. induction fuel as [|fuel IH]; intros c BB BB' c' H; [discriminate|].
  cbn [getBallPosition] in H.
  set (BB1 := mkMesh _ (matrix BB)) in H.
  assert (H1 : atHeight restingPlane (position BB1)) by apply drawn_position_atHeight.
  revert H H1. generalize BB1 (S (S c)). generalize others at 2.
  intros rest. induction rest as [|other rest IHrest]; intros B n H HB.
  - injection H as <- _. exact HB.
  - destruct (_ <? _).
    + destruct (getBallPosition fuel rand others n B) as [[B2 n2]|] eqn:E; [|discriminate].
      apply (IHrest B2 n2 H). apply (IH _ _ _ _ E).
    + apply (IHrest B n H HB).
Qed.

Lemma createBilliardBalls_from_onPlane (fuel : nat) (rand : nat -> R) (k c : nat)
    (placed : list Mesh) (vels : list Vector3) (created : list Mesh * list Vector3) :
  Forall (fun b => atHeight restingPlane (position b)) placed ->
  Forall horizontal vels ->
  createBilliardBalls_from fuel rand k c placed vels = Some created ->
  Forall (fun b => atHeight restingPlane (position b)) (fst created) /\
  Forall horizontal (snd created) /\
  List.length (fst created) = (List.length placed + k)%nat /\
  List.length (snd created) = (List.length vels + k)%nat.
Proof.
  revert c placed vels. induction k as [|k IH]; intros c placed vels HP HV H.
  - injection H as <-. cbn [fst snd]. repeat split; auto; lia.
  - cbn [createBilliardBalls_from] in H.
    destruct (getBallPosition fuel rand placed c (mkMesh zero identity)) as [[BB c']|] eqn:E;
      [|discriminate].
    apply IH in H.
    + destruct H as (H1 & H2 & H3 & H4). rewrite length_app in H3, H4. cbn in H3, H4.
      repeat split; auto; lia.
    + apply Forall_app. split; [exact HP|]. constructor; [|constructor].
      apply (getBallPosition_atHeight _ _ _ _ _ _ _ E).
    + apply Forall_app. split; [exact HV|]. constructor; [|constructor].
      unfold getBallVelocity. cbn [num_sub num_mul]. eexists _, _. reflexivity.
Qed.

(** The state that [createBilliardBalls] leaves is well formed and on the
    resting plane. *)
Lemma start_onPlane (fuel : nat) (rand : nat -> R) (t : Z)
    (created : list Mesh * list Vector3) :
  createBilliardBalls fuel rand = Some created ->
  wellFormed (start t created) /\ onPlane restingPlane (start t created).
Proof.
  intros H. unfold createBilliardBalls in H.
  apply createBilliardBalls_from_onPlane in H; [|constructor|constructor].
  destruct H as (H1 & H2 & H3 & H4). cbn [List.length Nat.add] in H3, H4.
  unfold wellFormed, onPlane, start, ballAt, velocityAt. cbn [balls velocity].
  repeat split; auto.
  - intros j Hj. rewrite Forall_forall in H1. apply H1, nth_In, Hj.
  - intros j Hj. rewrite Forall_forall in H2. apply H2, nth_In, Hj.
Qed.

(* ------------------------------------------------------------------ *)
(** ** Instances of the theorems *)

Lemma layout_wellFormed (p0 p1 v0 v1 : R * R) : wellFormed (layout p0 p1 v0 v1).
Proof. split; reflexivity. Qed.

Lemma layout_onPlane (p0 p1 v0 v1 : R * R) : onPlane restingPlane (layout p0 p1 v0 v1).
Proof.
  split; intros j Hj; cbn in Hj;
    do 8 (destruct j as [|j]; [cbn; eexists _, _; reflexivity|]); lia.
Qed.

Lemma large_dt_skip_witness :
  balls (render 1 headOn) = balls headOn /\
  velocity (render 1 headOn) = velocity headOn /\
  previousSec (render 1 headOn) = previousSec headOn /\
  trace (render 1 headOn) = trace headOn.
Proof. apply (large_dt_skip 1 headOn). lra. Defined.

Lemma cushions_speed_nonincreasing_witness :
  num_le (length (velocityAt (cushions 0 beyondCushion) 0))
         (length (velocityAt beyondCushion 0)).
Proof.
  apply (cushions_speed_nonincreasing 0 beyondCushion).
  - cbn. lia.
  - cbn. unfold finiteV. cbn. auto.
Defined.

Lemma cushions_turn_velocity_inwards_witness :
  let p := position (ballAt beyondCushion 0) in
  let v' := velocityAt (cushions 0 beyondCushion) 0 in
  balls (cushions 0 beyondCushion) = balls beyondCushion /\
  ((x p >? halfWidth) = true -> num_le (x v') (Fin 0)) /\
  ((x p <? - halfWidth) = true -> num_le (Fin 0) (x v')) /\
  ((y p >? halfHeight) = true -> num_le (y v') (Fin 0)) /\
  ((y p <? - halfHeight) = true -> num_le (Fin 0) (y v')).
Proof.
  apply (cushions_turn_velocity_inwards 0 beyondCushion).
  - cbn. lia.
  - cbn. unfold finiteV. cbn. auto.
Defined.

Lemma collide_conserves_momentum_witness :
  (exists J,
     velocityAt (collide (ballAt headOn 0) 0 1 headOn) 0 = subVectors (velocityAt headOn 0) J /\
     velocityAt (collide (ballAt headOn 0) 0 1 headOn) 1 = addVectors (velocityAt headOn 1) J) /\
  (position (ballAt headOn 0) <> position (ballAt headOn 1) ->
   addVectors (velocityAt (collide (ballAt headOn 0) 0 1 headOn) 0)
              (velocityAt (collide (ballAt headOn 0) 0 1 headOn) 1) =
   addVectors (velocityAt headOn 0) (velocityAt headOn 1)).
Proof.
  apply (collide_conserves_momentum (ballAt headOn 0) 0 1 headOn).
  - lia.
  - cbn. lia.
  - cbn. lia.
  - cbn. unfold finiteV. cbn. auto.
  - cbn. unfold finiteV. cbn. auto.
  - cbn. unfold finiteV. cbn. auto.
  - cbn. unfold finiteV. cbn. auto.
Defined.

Lemma head_on_exchange_witness :
  velocityAt (collisionVel_turn (ballAt headOn 0) 0 1 headOn) 0 =
    Vec3 (Fin (- (1 / 0.3 * (0.3 - 0)))) (Fin (- (1 / 0.3 * (0 - 0))))
         (Fin (- (1 / 0.3 * (restingPlane - restingPlane)))) /\
  velocityAt (collisionVel_turn (ballAt headOn 0) 0 1 headOn) 1 =
    Vec3 (Fin (1 / 0.3 * (0.3 - 0))) (Fin (1 / 0.3 * (0 - 0)))
         (Fin (1 / 0.3 * (restingPlane - restingPlane))).
Proof.
  apply (head_on_exchange (ballAt headOn 0) 0 1 headOn 0 0 restingPlane 0.3 0 restingPlane (1 / 0.3)).
  - lia.
  - cbn. lia.
  - cbn. lia.
  - reflexivity.
  - reflexivity.
  - unfold sqdist. lra.
  - cbn. apply Vec3_fin_eq; lra.
  - cbn. apply Vec3_fin_eq; lra.
Defined.

Lemma elapsed_tenth : elapsed 0.1 = 100%Z.
Proof. unfold elapsed, Math_round. apply Zfloor_eq. simpl. lra. Qed.

Lemma friction_once_per_second_witness :
  decays 0 (trace (frames (repeat 0.1%R 20) headOn)) = (decays 0 (trace headOn) + 2)%nat /\
  (forall (dt : R) (s' : State), (dt <= 0.15)%R ->
     let changed := negb (Z.eqb (secondOf (currentTime s' + elapsed dt)) (previousSec s')) in
     let X := cushions 0 (move dt 0 (collisionVel (ballAt (tick dt s') 0) 0 (tick dt s'))) in
     decays 0 (trace (render dt s')) = (decays 0 (trace s') + (if changed then 1 else 0))%nat /\
     render dt s' = render_from dt 7 1 (friction X) /\
     decays 0 (trace X) = decays 0 (trace s') /\
     decays 0 (trace (friction X)) = (decays 0 (trace s') + (if changed then 1 else 0))%nat /\
     velocityAt (friction X) 0 =
       (if changed then multiplyScalar (velocityAt X 0) rollFric else velocityAt X 0)).
Proof.
  apply (friction_once_per_second (repeat 0.1%R 20) headOn 0 0).
  - intros dt H. apply repeat_spec in H. subst dt. lra.
  - lia.
  - reflexivity.
  - cbn [previousSec currentTime headOn layout]. rewrite secondOf_nonneg by lia. reflexivity.
  - cbn [repeat simulated fold_right]. rewrite elapsed_tenth. reflexivity.
  - cbn. lia.
Defined.

Lemma elapsed_1004 : elapsed 0.1004 = 100%Z.
Proof. unfold elapsed, Math_round. apply Zfloor_eq. simpl. lra. Qed.

Lemma elapsed_0924 : elapsed 0.0924 = 92%Z.
Proof. unfold elapsed, Math_round. apply Zfloor_eq. simpl. lra. Qed.

(** C4 (counterexample).  Nineteen frames of 100.4 ms and one of 92.4 ms
    last 2.0 s together and start on a whole second, but each adds its
    time step rounded to the millisecond to [currentTime]: 1992 ms in all.
    The second changes once, and the decay is applied once to every ball,
    not twice. *)
Lemma two_seconds_one_decay :
  let dts := (repeat 0.1004 19 ++ [0.0924])%R in
  (forall dt, In dt dts -> (0 <= dt <= 0.15)%R) /\
  fold_right Rplus 0%R dts = 2%R /\
  currentTime headOn = 0%Z /\
  previousSec headOn = secondOf (currentTime headOn) /\
  simulated dts = 1992%Z /\
  (forall j, (j < nrOfBalls defaultSettings)%nat ->
     decays j (trace (frames dts headOn)) = (decays j (trace headOn) + 1)%nat /\
     decays j (trace (frames dts headOn)) <> (decays j (trace headOn) + 2)%nat).
Proof.
  intros dts.
  assert (Hd : forall dt, In dt dts -> (0 <= dt <= 0.15)%R).
  { intros dt H. unfold dts in H. apply in_app_or in H. destruct H as [H|[<-|[]]]; [|lra].
    apply repeat_spec in H. subst dt. lra. }
  assert (Hs : simulated dts = 1992%Z).
  { unfold dts. cbn [repeat app simulated fold_right].
    rewrite elapsed_1004, elapsed_0924. reflexivity. }
  assert (Hp : previousSec headOn = secondOf (currentTime headOn)).
  { cbn [previousSec currentTime headOn layout]. rewrite secondOf_nonneg by lia. reflexivity. }
  split; [exact Hd|]. split; [unfold dts; cbn [repeat app fold_right]; lra|].
  split; [reflexivity|]. split; [exact Hp|]. split; [exact Hs|].
  intros j Hj.
  destruct (frames_decays dts headOn j Hd ltac:(cbn; lia) Hp Hj) as (T & _ & D).
  rewrite T, Hs in D. cbn [currentTime headOn layout] in D.
  change ((0 + 1992) / 1000)%Z with 1%Z in D. change (0 / 1000)%Z with 0%Z in D.
  lia.
Qed.


Lemma position_z_constant_witness :
  let inputs := [Frame 0.01; Key 83 (fun _ => 0.01%R); Frame 0.1; Frame 1] in
  (forall j, (j < nrOfBalls defaultSettings)%nat ->
     z (position (ballAt (run inputs headOn) j)) = Fin restingPlane /\
     z (velocityAt (run inputs headOn) j) = Fin 0) /\
  (forall (dt : R) (i j : nat) (s0 : State),
     horizontal (velocityAt s0 i) -> finiteV (position (ballAt s0 j)) ->
     z (position (ballAt (move dt i s0) j)) = z (position (ballAt s0 j))) /\
  (forall (ball : Mesh) (ID : nat) (s0 : State),
     balls (collisionVel ball ID s0) = balls s0) /\
  (forall (i : nat) (s0 : State), balls (cushions i s0) = balls s0) /\
  (forall s0 : State, balls (friction s0) = balls s0).
Proof.
  apply (position_z_constant restingPlane
           [Frame 0.01; Key 83 (fun _ => 0.01%R); Frame 0.1; Frame 1] headOn).
  - apply layout_wellFormed.
  - apply layout_onPlane.
Defined.

(* ------------------------------------------------------------------ *)
(** ** The code on concrete states *)

Lemma collisionVel_from_apart (ball : Mesh) (ID k i : nat) (s : State) :
  (forall j, (i <= j < i + k)%nat -> j <> ID ->
     (distanceTo (position ball) (position (ballAt s j))
        <? ballRadius defaultSettings * Fin 2) = false) ->
  collisionVel_from ball ID k i s = s.
Proof.
  revert i. induction k as [|k IH]; intros i H; [reflexivity|].
  cbn [collisionVel_from].
  assert (E : collisionVel_turn ball ID i s = s).
  { destruct (Nat.eq_dec i ID) as [->|Hne].
    - apply collisionVel_turn_self.
    - apply collisionVel_turn_apart, H; [lia | exact Hne]. }
  rewrite E. apply IH. intros j Hj. apply H. lia.
Qed.

Lemma collisionVel_from_S (ball : Mesh) (ID k i : nat) (s : State) :
  collisionVel_from ball ID (S k) i s =
  collisionVel_from ball ID k (S i) (collisionVel_turn ball ID i s).
Proof. reflexivity. Qed.

Lemma render_from_S (dt : R) (k i : nat) (s : State) :
  (dt <= 0.15)%R ->
  render_from dt (S k) i s = render_from dt k (S i) (render_ball dt i s).
Proof.
  intros H. cbn [render_from]. unfold num_gtb. rewrite num_ltb_false by exact H. reflexivity.
Qed.

(** Deciding a contact test between two explicit centres. *)
Ltac apart :=
  rewrite contact_fin; unfold sqdist, restingPlane;
  match goal with
  | |- (if Rlt_dec ?a ?b then true else false) = false =>
      destruct (Rlt_dec a b); [exfalso; lra | reflexivity]
  end.

Ltac touching :=
  rewrite contact_fin; unfold sqdist, restingPlane;
  match goal with
  | |- (if Rlt_dec ?a ?b then true else false) = true =>
      destruct (Rlt_dec a b); [reflexivity | exfalso; lra]
  end.

Lemma coincident_centres_keep_velocities_witness :
  let d := subVectors (position (ballAt clash 1)) (position (ballAt clash 0)) in
  let s' := collisionVel_turn (ballAt clash 0) 0 1 clash in
  s' = collide (ballAt clash 0) 0 1 clash /\
  num_or (length d) (Fin 1) = Fin 1 /\
  normalize d = Vec3 (Fin 0) (Fin 0) (Fin 0) /\
  velocityAt s' 0 = velocityAt clash 0 /\
  velocityAt s' 1 = velocityAt clash 1 /\
  finiteV (velocityAt s' 0) /\
  finiteV (velocityAt s' 1).
Proof.
  apply (coincident_centres_keep_velocities (ballAt clash 0) 0 1 clash 1 0 restingPlane).
  - lia.
  - cbn. lia.
  - cbn. lia.
  - reflexivity.
  - reflexivity.
  - unfold finiteV. cbn. tauto.
  - unfold finiteV. cbn. tauto.
Defined.

Lemma identity_finiteM : finiteM identity.
Proof. unfold finiteM, identity. cbn. tauto. Qed.

Lemma ball_at_rest_keeps_orientation_witness :
  let axis := normalize (cross (Vec3 (Fin 0) (Fin 0) (Fin 1)) (velocityAt resting 0)) in
  let angle :=
    (length (velocityAt resting 0) / ballRadius defaultSettings * Fin 0.01)%num in
  axis = Vec3 (Fin 0) (Fin 0) (Fin 0) /\
  makeRotationAxis axis angle = identity /\
  ballAt (move 0.01 0 resting) 0 =
    mkMesh (position (ballAt resting 0))
           (setPosition (matrix (ballAt resting 0)) (position (ballAt resting 0))).
Proof.
  apply (ball_at_rest_keeps_orientation 0.01 0 resting).
  - cbn. lia.
  - reflexivity.
  - unfold finiteV. cbn. tauto.
  - exact identity_finiteM.
Defined.

Lemma atCushion_turn0 :
  collisionVel (ballAt (tick 0.1 atCushion) 0) 0 (tick 0.1 atCushion) = tick 0.1 atCushion.
Proof.
  unfold collisionVel. apply collisionVel_from_apart. intros j Hj Hne.
  cbn [tick balls atCushion layout List.length] in Hj.
  destruct j as [|j]; [congruence|].
  do 7 (destruct j as [|j];
        [cbn [tick atCushion layout balls nth ballAt ballHere position fst snd]; apart|]).
  lia.
Qed.

Lemma atCushion_after_frame :
  position (ballAt (render 0.1 atCushion) 0) =
  Vec3 (Fin (4.7 + 2 * 0.1)) (Fin (0 + 0 * 0.1)) (Fin (restingPlane + 0 * 0.1)).
Proof.
  unfold render. change (nrOfBalls defaultSettings) with 8%nat.
  rewrite render_from_S by lra.
  rewrite render_from_ballAt_before by lia.
  unfold render_ball. rewrite friction_ballAt, cushions_ballAt, atCushion_turn0.
  unfold move. rewrite ballAt_setBall_same by (cbn; lia).
  reflexivity.
Qed.

(** C2 (counterexample).  All the centres of [atCushion] are within the
    bounds; after one frame of 0.1 s the ball 0 is at [x = 4.9], beyond the
    bound 4.8: the cushion test has reversed its velocity and left the
    position as it is. *)
Lemma containment_counterexample :
  inBounds atCushion /\ (0.1 <= 0.15)%R /\ ~ inBounds (render 0.1 atCushion).
Proof.
  split; [|split; [lra|]].
  - intros j Hj. cbn in Hj. rewrite halfWidth_eq, halfHeight_eq.
    do 8 (destruct j as [|j];
          [cbn [atCushion layout balls nth ballAt ballHere position fst snd x y Math_abs num_le];
           split; unfold Rabs; repeat destruct (Rcase_abs _); lra|]).
    lia.
  - intros H. destruct (H 0%nat) as [Hx _]; [cbn; lia|].
    rewrite atCushion_after_frame, halfWidth_eq in Hx.
    cbn [x Math_abs num_le] in Hx.
    unfold Rabs in Hx. destruct (Rcase_abs _) in Hx; lra.
Qed.

(** A turn of the loop of [render] in which no second has elapsed. *)
Lemma render_ball_quiet (dt : R) (i : nat) (s : State) :
  currentSecond s = previousSec s ->
  render_ball dt i s = cushions i (move dt i (collisionVel (ballAt s i) i s)).
Proof.
  intros H. unfold render_ball.
  set (s3 := cushions i (move dt i (collisionVel (ballAt s i) i s))).
  assert (C : clockOf s3 = clockOf s).
  { unfold s3.
    destruct (cushions_frame i (move dt i (collisionVel (ballAt s i) i s))) as (_ & C3 & _).
    destruct (move_frame dt i (collisionVel (ballAt s i) i s)) as (_ & C2 & _).
    destruct (collisionVel_frame (ballAt s i) i s) as (_ & C1 & _).
    congruence. }
  destruct (clockOf_eq _ _ C) as (_ & C2 & C3).
  unfold friction. rewrite C2, C3, H, Z.eqb_refl. reflexivity.
Qed.

Lemma elapsed_hundredth : elapsed 0.01 = 10%Z.
Proof. unfold elapsed, Math_round. apply Zfloor_eq. simpl. lra. Qed.

Lemma headOn_tick_quiet :
  currentSecond (tick 0.01 headOn) = previousSec (tick 0.01 headOn).
Proof.
  unfold tick. cbn [currentSecond previousSec headOn layout currentTime].
  fold (elapsed 0.01). rewrite elapsed_hundredth, secondOf_nonneg by lia. reflexivity.
Qed.

Lemma headOn_distance : sqrt (sqdist 0 0 restingPlane 0.3 0 restingPlane) = 0.3%R.
Proof. apply sqrt_lem_1; unfold sqdist; lra. Qed.

(** The turn of the ball 0: it meets the ball 1 only. *)
Lemma headOn_turn0 :
  collisionVel (ballAt (tick 0.01 headOn) 0) 0 (tick 0.01 headOn) =
  collide (ballAt (tick 0.01 headOn) 0) 0 1 (tick 0.01 headOn).
Proof.
  unfold collisionVel.
  change (List.length (balls (tick 0.01 headOn))) with 8%nat.
  rewrite 2 collisionVel_from_S, collisionVel_turn_self.
  rewrite (collisionVel_turn_contact (ballAt (tick 0.01 headOn) 0) 0 1).
  - apply collisionVel_from_apart. intros j Hj _.
    unfold ballAt at 2. rewrite collide_balls.
    destruct j as [|[|j]]; [lia | lia |].
    do 6 (destruct j as [|j];
          [cbn [tick headOn layout balls nth ballAt ballHere position fst snd]; apart|]).
    lia.
  - lia.
  - cbn [tick headOn layout balls nth ballAt ballHere position fst snd]. touching.
Qed.

Lemma headOn_velocities_turn0 :
  velocityAt (collide (ballAt (tick 0.01 headOn) 0) 0 1 (tick 0.01 headOn)) 0 = going (-1) 0 /\
  velocityAt (collide (ballAt (tick 0.01 headOn) 0) 0 1 (tick 0.01 headOn)) 1 = going 1 0.
Proof.
  rewrite collide_velocity_ID by (cbn; lia).
  rewrite collide_velocity_i by (cbn; lia).
  cbn [tick headOn layout balls velocity nth ballAt velocityAt ballHere position fst snd].
  unfold going.
  rewrite impulse_fin by (intros E; injection E; intros; lra).
  cbv zeta. rewrite headOn_distance.
  unfold subVectors, addVectors. cbn [x y z num_sub num_add].
  split; apply Vec3_fin_eq; unfold restingPlane; lra.
Qed.

Lemma headOn1_def : headOn1 = render_ball 0.01 0 (tick 0.01 headOn).
Proof. reflexivity. Qed.

Lemma headOn1_eq :
  headOn1 =
  cushions 0 (move 0.01 0 (collide (ballAt (tick 0.01 headOn) 0) 0 1 (tick 0.01 headOn))).
Proof.
  unfold headOn1. rewrite render_ball_quiet by exact headOn_tick_quiet.
  rewrite headOn_turn0. reflexivity.
Qed.

#[local] Opaque headOn1.

Lemma headOn1_trace : trace headOn1 = [Resolved 0 1].
Proof. rewrite headOn1_eq. reflexivity. Qed.

Lemma headOn1_quiet : currentSecond headOn1 = previousSec headOn1.
Proof.
  rewrite headOn1_def.
  destruct (render_ball_shape 0.01 0 (tick 0.01 headOn)) as (_ & _ & _ & S1 & P1).
  rewrite S1, P1. reflexivity.
Qed.

Lemma headOn1_ball0 :
  position (ballAt headOn1 0) =
  Vec3 (Fin (0 + -1 * 0.01)) (Fin (0 + 0 * 0.01)) (Fin (restingPlane + 0 * 0.01)).
Proof.
  rewrite headOn1_eq, cushions_ballAt. unfold move.
  rewrite ballAt_setBall_same by (cbn; lia).
  cbn [position].
  rewrite (proj1 headOn_velocities_turn0).
  reflexivity.
Qed.

Lemma headOn1_others (j : nat) : j <> 0%nat -> ballAt headOn1 j = ballAt headOn j.
Proof.
  intros H. rewrite headOn1_def. rewrite render_ball_ballAt_other by congruence. reflexivity.
Qed.

Lemma headOn1_length : List.length (balls headOn1) = 8%nat.
Proof.
  rewrite headOn1_def.
  destruct (render_ball_shape 0.01 0 (tick 0.01 headOn)) as (B & _). rewrite B. reflexivity.
Qed.

(** The turn of the ball 1: it meets the ball 0 again. *)
Lemma headOn_turn1 :
  collisionVel (ballAt headOn1 1) 1 headOn1 = collide (ballAt headOn1 1) 1 0 headOn1.
Proof.
  unfold collisionVel. rewrite headOn1_length.
  rewrite 2 collisionVel_from_S.
  rewrite (collisionVel_turn_contact (ballAt headOn1 1) 1 0).
  - rewrite collisionVel_turn_self.
    apply collisionVel_from_apart. intros j Hj _.
    rewrite collide_ballAt, !headOn1_others by lia.
    destruct j as [|[|j]]; [lia | lia |].
    do 6 (destruct j as [|j];
          [cbn [headOn layout balls nth ballAt ballHere position fst snd]; apart|]).
    lia.
  - lia.
  - rewrite headOn1_ball0, headOn1_others by lia.
    cbn [headOn layout balls nth ballAt ballHere position fst snd]. touching.
Qed.

(** The velocity of a ball that the ball [ID] does not touch is left alone
    by the turn of the ball [ID]. *)
Lemma collisionVel_from_velocity_apart (ball : Mesh) (ID k i : nat) (s : State) (j : nat) :
  j <> ID ->
  (distanceTo (position ball) (position (ballAt s j))
     <? ballRadius defaultSettings * Fin 2) = false ->
  velocityAt (collisionVel_from ball ID k i s) j = velocityAt s j.
Proof.
  intros Hne. revert i s. induction k as [|k IH]; intros i s Hfar; [reflexivity|].
  rewrite collisionVel_from_S.
  destruct (collisionVel_turn_frame ball ID i s) as (B & _).
  rewrite IH by (unfold ballAt; rewrite B; exact Hfar).
  unfold collisionVel_turn.
  destruct (Nat.eqb_spec i ID) as [E|E]; [reflexivity|].
  destruct (Nat.eq_dec i j) as [->|Hij]; [rewrite Hfar; reflexivity|].
  destruct (distanceTo (position ball) (position (ballAt s i))
              <? ballRadius defaultSettings * Fin 2); [|reflexivity].
  apply collide_velocity_other; congruence.
Qed.

Lemma render_ball_velocity_apart (dt : R) (i : nat) (s : State) (j : nat) :
  j <> i ->
  currentSecond s = previousSec s ->
  (distanceTo (position (ballAt s i)) (position (ballAt s j))
     <? ballRadius defaultSettings * Fin 2) = false ->
  velocityAt (render_ball dt i s) j = velocityAt s j.
Proof.
  intros Hne Hq Hfar. rewrite render_ball_quiet by exact Hq.
  unfold cushions. rewrite velocityAt_setVelocity_other by congruence.
  unfold velocityAt at 1.
  destruct (move_frame dt i (collisionVel (ballAt s i) i s)) as (V & _). rewrite V.
  apply collisionVel_from_velocity_apart; assumption.
Qed.

Lemma render_from_velocity_apart (dt : R) (k i : nat) (s : State) (j : nat) :
  (dt <= 0.15)%R ->
  (j < i)%nat ->
  currentSecond s = previousSec s ->
  (forall m, (i <= m < i + k)%nat ->
     (distanceTo (position (ballAt s m)) (position (ballAt s j))
        <? ballRadius defaultSettings * Fin 2) = false) ->
  velocityAt (render_from dt k i s) j = velocityAt s j.
Proof.
  intros Hdt. revert i s. induction k as [|k IH]; intros i s Hj Hq Hfar; [reflexivity|].
  rewrite render_from_S by exact Hdt.
  destruct (render_ball_shape dt i s) as (_ & _ & _ & S1 & P1).
  rewrite IH.
  - apply render_ball_velocity_apart; [lia | exact Hq | apply Hfar; lia].
  - lia.
  - rewrite S1, P1. reflexivity.
  - intros m Hm. rewrite !render_ball_ballAt_other by lia. apply Hfar. lia.
Qed.

(** A ball within the bounds keeps its velocity at the cushion tests. *)
Lemma cushions_inside (a b c : R) (v : Vector3) :
  (- 4.8 <= a <= 4.8)%R -> (- 2.3 <= b <= 2.3)%R ->
  cushionY (Vec3 (Fin a) (Fin b) (Fin c)) (cushionX (Vec3 (Fin a) (Fin b) (Fin c)) v) = v.
Proof.
  intros Ha Hb. unfold cushionX, cushionY, num_gtb.
  rewrite halfWidth_eq, halfHeight_eq. cbn [x y num_neg].
  rewrite !num_ltb_false by lra. reflexivity.
Qed.

Lemma cushions_velocity_inside (i : nat) (s : State) (a b c : R) :
  (i < List.length (velocity s))%nat ->
  position (ballAt s i) = Vec3 (Fin a) (Fin b) (Fin c) ->
  (- 4.8 <= a <= 4.8)%R -> (- 2.3 <= b <= 2.3)%R ->
  velocityAt (cushions i s) i = velocityAt s i.
Proof.
  intros Hi Hp Ha Hb. unfold cushions.
  rewrite velocityAt_setVelocity_same by exact Hi.
  rewrite Hp. apply cushions_inside; assumption.
Qed.

Lemma cushions_velocity_other (i j : nat) (s : State) :
  i <> j -> velocityAt (cushions i s) j = velocityAt s j.
Proof. intros H. unfold cushions. apply velocityAt_setVelocity_other, H. Qed.

Lemma move_velocityAt (dt : R) (i : nat) (s : State) (j : nat) :
  velocityAt (move dt i s) j = velocityAt s j.
Proof. reflexivity. Qed.

Lemma move_position_same (dt : R) (i : nat) (s : State) :
  (i < List.length (balls s))%nat ->
  position (ballAt (move dt i s) i) =
  add (position (ballAt s i)) (multiplyScalar (clone (velocityAt s i)) (Fin dt)).
Proof.
  intros H. unfold move. rewrite ballAt_setBall_same by exact H. reflexivity.
Qed.

Lemma collide_velocity_length (ball : Mesh) (ID i : nat) (s : State) :
  List.length (velocity (collide ball ID i s)) = List.length (velocity s).
Proof.
  unfold collide, record, setVelocity. cbn [velocity]. rewrite !assign_length. reflexivity.
Qed.

Lemma headOn1_velocities :
  velocityAt headOn1 0 = going (-1) 0 /\ velocityAt headOn1 1 = going 1 0.
Proof.
  pose proof headOn1_ball0 as P. rewrite headOn1_eq in P |- *.
  rewrite cushions_ballAt in P.
  assert (L : (0 < List.length (velocity (move 0.01 0
                 (collide (ballAt (tick 0.01 headOn) 0) 0 1 (tick 0.01 headOn)))))%nat).
  { destruct (move_frame 0.01 0
       (collide (ballAt (tick 0.01 headOn) 0) 0 1 (tick 0.01 headOn))) as (V & _).
    rewrite V, collide_velocity_length. cbn [tick velocity headOn layout List.length]. lia. }
  split.
  - rewrite (cushions_velocity_inside 0 _ _ _ _ L P) by lra.
    rewrite move_velocityAt. exact (proj1 headOn_velocities_turn0).
  - rewrite cushions_velocity_other by lia.
    rewrite move_velocityAt. exact (proj2 headOn_velocities_turn0).
Qed.

Lemma headOn_distance_again :
  sqrt (sqdist 0.3 0 restingPlane (0 + -1 * 0.01) (0 + 0 * 0.01) (restingPlane + 0 * 0.01))
  = 0.31%R.
Proof. apply sqrt_lem_1; unfold sqdist; lra. Qed.

Lemma headOn_velocities_turn1 :
  velocityAt (collide (ballAt headOn1 1) 1 0 headOn1) 0 = going 1 0 /\
  velocityAt (collide (ballAt headOn1 1) 1 0 headOn1) 1 = going (-1) 0.
Proof.
  assert (L : List.length (velocity headOn1) = 8%nat).
  { rewrite headOn1_def.
    destruct (render_ball_shape 0.01 0 (tick 0.01 headOn)) as (_ & V & _).
    rewrite V. reflexivity. }
  rewrite collide_velocity_ID by (rewrite ?L; lia).
  rewrite collide_velocity_i by (rewrite ?L; lia).
  rewrite headOn1_ball0, (proj1 headOn1_velocities), (proj2 headOn1_velocities).
  rewrite headOn1_others by lia.
  cbn [headOn layout balls nth ballAt ballHere position fst snd].
  unfold going.
  rewrite impulse_fin by (intros E; injection E; intros; lra).
  cbv zeta. rewrite headOn_distance_again.
  unfold subVectors, addVectors. cbn [x y z num_sub num_add].
  split; apply Vec3_fin_eq; unfold restingPlane; lra.
Qed.

Lemma headOn2_def : headOn2 = render_ball 0.01 1 headOn1.
Proof. reflexivity. Qed.

#[local] Opaque headOn2.

Lemma headOn2_eq :
  headOn2 = cushions 1 (move 0.01 1 (collide (ballAt headOn1 1) 1 0 headOn1)).
Proof.
  rewrite headOn2_def, render_ball_quiet by exact headOn1_quiet.
  rewrite headOn_turn1. reflexivity.
Qed.

Lemma headOn2_quiet : currentSecond headOn2 = previousSec headOn2.
Proof.
  rewrite headOn2_def.
  destruct (render_ball_shape 0.01 1 headOn1) as (_ & _ & _ & S1 & P1).
  rewrite S1, P1. reflexivity.
Qed.

Lemma headOn2_ball0 :
  position (ballAt headOn2 0) =
  Vec3 (Fin (0 + -1 * 0.01)) (Fin (0 + 0 * 0.01)) (Fin (restingPlane + 0 * 0.01)).
Proof.
  rewrite headOn2_def, render_ball_ballAt_other by lia. exact headOn1_ball0.
Qed.

Lemma headOn2_ball1 :
  position (ballAt headOn2 1) =
  Vec3 (Fin (0.3 + -1 * 0.01)) (Fin (0 + 0 * 0.01)) (Fin (restingPlane + 0 * 0.01)).
Proof.
  rewrite headOn2_eq, cushions_ballAt.
  rewrite move_position_same by (rewrite collide_balls, headOn1_length; lia).
  rewrite (proj2 headOn_velocities_turn1), collide_ballAt, headOn1_others by lia.
  reflexivity.
Qed.

Lemma headOn2_others (m : nat) : (2 <= m)%nat -> ballAt headOn2 m = ballAt headOn m.
Proof.
  intros H. rewrite headOn2_def, render_ball_ballAt_other by lia.
  apply headOn1_others. lia.
Qed.

Lemma headOn2_velocities :
  velocityAt headOn2 0 = going 1 0 /\ velocityAt headOn2 1 = going (-1) 0.
Proof.
  pose proof headOn2_ball1 as P. rewrite headOn2_eq in P |- *.
  rewrite cushions_ballAt in P.
  assert (L : (1 < List.length (velocity (move 0.01 1
                 (collide (ballAt headOn1 1) 1 0 headOn1))))%nat).
  { destruct (move_frame 0.01 1 (collide (ballAt headOn1 1) 1 0 headOn1)) as (V & _).
    rewrite V, collide_velocity_length, headOn1_def.
    destruct (render_ball_shape 0.01 0 (tick 0.01 headOn)) as (_ & V' & _).
    rewrite V'. cbn [tick velocity headOn layout List.length]. lia. }
  split.
  - rewrite cushions_velocity_other by lia.
    rewrite move_velocityAt. exact (proj1 headOn_velocities_turn1).
  - rewrite (cushions_velocity_inside 1 _ _ _ _ L P) by lra.
    rewrite move_velocityAt. exact (proj2 headOn_velocities_turn1).
Qed.

(** The whole frame: the two updates of the pair cancel, and the balls 0 and
    1, in contact and approaching each other, leave the frame with the
    velocities they entered it with. *)
Lemma headOn_frame_velocities :
  velocityAt headOn 0 = going 1 0 /\ velocityAt headOn 1 = going (-1) 0 /\
  velocityAt (render 0.01 headOn) 0 = going 1 0 /\
  velocityAt (render 0.01 headOn) 1 = going (-1) 0.
Proof.
  split; [reflexivity|]. split; [reflexivity|].
  assert (E : render 0.01 headOn = render_from 0.01 6 2 headOn2).
  { unfold render. change (nrOfBalls defaultSettings) with 8%nat.
    rewrite 2 render_from_S by lra. rewrite <- headOn1_def, <- headOn2_def. reflexivity. }
  rewrite E. split.
  - rewrite render_from_velocity_apart;
      [exact (proj1 headOn2_velocities) | lra | lia | exact headOn2_quiet |].
    intros m Hm. rewrite headOn2_ball0, headOn2_others by lia.
    destruct m as [|[|m]]; [lia | lia |].
    do 6 (destruct m as [|m];
          [cbn [headOn layout balls nth ballAt ballHere position fst snd]; apart|]).
    lia.
  - rewrite render_from_velocity_apart;
      [exact (proj2 headOn2_velocities) | lra | lia | exact headOn2_quiet |].
    intros m Hm. rewrite headOn2_ball1, headOn2_others by lia.
    destruct m as [|[|m]]; [lia | lia |].
    do 6 (destruct m as [|m];
          [cbn [headOn layout balls nth ballAt ballHere position fst snd]; apart|]).
    lia.
Qed.


(* ------------------------------------------------------------------ *)
(** ** Further properties of the velocity update *)

Lemma sqdist_sym (a b c a' b' c' : R) : sqdist a b c a' b' c' = sqdist a' b' c' a b c.
Proof. unfold sqdist. ring. Qed.

(** The contact test does not depend on the order of the two balls. *)
Lemma touches_sym (p q : Vector3) : finiteV p -> finiteV q -> touches p q = touches q p.
Proof.
  intros Hp Hq. destruct (finiteV_inv _ Hp) as (a & b & c & ->).
  destruct (finiteV_inv _ Hq) as (a' & b' & c' & ->).
  unfold touches. rewrite !contact_fin, sqdist_sym. reflexivity.
Qed.

Lemma unit_normal (d e f L : R) :
  (L <> 0)%R -> (L * L = d * d + e * e + f * f)%R ->
  (d / L * (d / L) + e / L * (e / L) + f / L * (f / L) = 1)%R.
Proof.
  intros HL HS.
  transitivity ((d * d + e * e + f * f) / (L * L))%R; [field; exact HL|].
  rewrite <- HS. field. exact HL.
Qed.

(** The vector [scalarN] between distinct finite centres, with the unit
    normal [n] written out: [scalarN = ((vA - vB) . n) n]. *)
Lemma impulse_unit (a b c a' b' c' p q r p' q' r' : R) :
  Vec3 (Fin a) (Fin b) (Fin c) <> Vec3 (Fin a') (Fin b') (Fin c') ->
  exists nx ny nz : R,
    (nx * nx + ny * ny + nz * nz = 1)%R /\
    nx = ((a' - a) / sqrt (sqdist a b c a' b' c'))%R /\
    ny = ((b' - b) / sqrt (sqdist a b c a' b' c'))%R /\
    nz = ((c' - c) / sqrt (sqdist a b c a' b' c'))%R /\
    impulse (Vec3 (Fin a) (Fin b) (Fin c)) (Vec3 (Fin a') (Fin b') (Fin c'))
            (Vec3 (Fin p) (Fin q) (Fin r)) (Vec3 (Fin p') (Fin q') (Fin r')) =
    Vec3 (Fin (nx * ((p - p') * nx + (q - q') * ny + (r - r') * nz)))
         (Fin (ny * ((p - p') * nx + (q - q') * ny + (r - r') * nz)))
         (Fin (nz * ((p - p') * nx + (q - q') * ny + (r - r') * nz))).
Proof.
  intros H. pose proof (sqdist_pos _ _ _ _ _ _ H) as Hpos.
  pose proof (sqrt_lt_R0 _ Hpos) as Hs.
  set (L := sqrt (sqdist a b c a' b' c')) in *.
  assert (HL : (L <> 0)%R) by lra.
  assert (HS : (L * L = (a' - a) * (a' - a) + (b' - b) * (b' - b) + (c' - c) * (c' - c))%R).
  { unfold L. rewrite sqrt_sqrt by apply sqdist_nonneg. reflexivity. }
  exists ((a' - a) / L)%R, ((b' - b) / L)%R, ((c' - c) / L)%R.
  split; [apply unit_normal; assumption|].
  repeat (split; [reflexivity|]).
  rewrite impulse_fin by exact H. cbv zeta. fold L.
  apply Vec3_fin_eq; field; exact HL.
Qed.

(** X1.  The velocity update of a pair is elastic: for finite velocities
    and distinct finite centres the kinetic energy of the two balls
    together is the same after the update as before. *)
Theorem collide_conserves_energy (ball : Mesh) (ID i : nat) (s : State) :
  ID <> i ->
  (ID < List.length (velocity s))%nat ->
  (i < List.length (velocity s))%nat ->
  finiteV (position ball) ->
  finiteV (position (ballAt s i)) ->
  position ball <> position (ballAt s i) ->
  finiteV (velocityAt s ID) ->
  finiteV (velocityAt s i) ->
  (energy (velocityAt (collide ball ID i s) ID) + energy (velocityAt (collide ball ID i s) i)
   = energy (velocityAt s ID) + energy (velocityAt s i))%num.
Proof.
  intros Hne HID Hi HpA HpB Hd HvA HvB.
  rewrite (collide_velocity_ID ball ID i s Hne HID).
  rewrite (collide_velocity_i ball ID i s Hi).
  destruct (finiteV_inv _ HpA) as (a & b & c & Ea).
  destruct (finiteV_inv _ HpB) as (a' & b' & c' & Eb).
  destruct (finiteV_inv _ HvA) as (p & q & r & Ec).
  destruct (finiteV_inv _ HvB) as (p' & q' & r' & Ed).
  rewrite Ea, Eb, Ec, Ed in *.
  destruct (impulse_unit a b c a' b' c' p q r p' q' r' Hd) as (nx & ny & nz & HN & _ & _ & _ & E).
  rewrite E. set (D := ((p - p') * nx + (q - q') * ny + (r - r') * nz)%R).
  unfold energy, dot, subVectors, addVectors.
  cbn [x y z num_add num_sub num_mul massOfSphere defaultSettings].
  f_equal.
  match goal with
  | |- ?l = ?r =>
      transitivity (r + 2 * D * D * ((nx * nx + ny * ny + nz * nz) - 1))%R;
        [unfold D; ring | rewrite HN; ring]
  end.
Qed.

Lemma collide_conserves_energy_witness :
  (energy (velocityAt (collide (ballAt headOn 0) 0 1 headOn) 0)
   + energy (velocityAt (collide (ballAt headOn 0) 0 1 headOn) 1)
   = energy (velocityAt headOn 0) + energy (velocityAt headOn 1))%num.
Proof.
  apply (collide_conserves_energy (ballAt headOn 0) 0 1 headOn).
  - lia.
  - cbn. lia.
  - cbn. lia.
  - cbn. unfold finiteV. cbn. auto.
  - cbn. unfold finiteV. cbn. auto.
  - cbn. intros E. injection E. lra.
  - cbn. unfold finiteV. cbn. auto.
  - cbn. unfold finiteV. cbn. auto.
Defined.

(** X2.  Along the line of centres the two balls exchange their velocity
    components, and across it each keeps its own: with [n] the unit normal
    of line 305, the update swaps [velocity[ID] . n] and [velocity[i] . n]
    and leaves [v - (v . n) n] of both balls as it was. *)
Theorem collide_exchanges_normal_components (ball : Mesh) (ID i : nat) (s : State) :
  ID <> i ->
  (ID < List.length (velocity s))%nat ->
  (i < List.length (velocity s))%nat ->
  finiteV (position ball) ->
  finiteV (position (ballAt s i)) ->
  position ball <> position (ballAt s i) ->
  finiteV (velocityAt s ID) ->
  finiteV (velocityAt s i) ->
  let n := normalize (subVectors (position (ballAt s i)) (position ball)) in
  let s' := collide ball ID i s in
  dot (velocityAt s' ID) n = dot (velocityAt s i) n /\
  dot (velocityAt s' i) n = dot (velocityAt s ID) n /\
  subVectors (velocityAt s' ID) (multiplyScalar n (dot (velocityAt s' ID) n)) =
    subVectors (velocityAt s ID) (multiplyScalar n (dot (velocityAt s ID) n)) /\
  subVectors (velocityAt s' i) (multiplyScalar n (dot (velocityAt s' i) n)) =
    subVectors (velocityAt s i) (multiplyScalar n (dot (velocityAt s i) n)).
Proof.
  intros Hne HID Hi HpA HpB Hd HvA HvB n s'. unfold s', n.
  rewrite (collide_velocity_ID ball ID i s Hne HID).
  rewrite (collide_velocity_i ball ID i s Hi).
  destruct (finiteV_inv _ HpA) as (a & b & c & Ea).
  destruct (finiteV_inv _ HpB) as (a' & b' & c' & Eb).
  destruct (finiteV_inv _ HvA) as (p & q & r & Ec).
  destruct (finiteV_inv _ HvB) as (p' & q' & r' & Ed).
  rewrite Ea, Eb, Ec, Ed in *.
  destruct (impulse_unit a b c a' b' c' p q r p' q' r' Hd)
    as (nx & ny & nz & HN & Ex & Ey & Ez & E).
  rewrite E, normalize_sub_fin by exact Hd. rewrite <- Ex, <- Ey, <- Ez.
  set (D := ((p - p') * nx + (q - q') * ny + (r - r') * nz)%R).
  unfold dot, subVectors, addVectors, multiplyScalar.
  cbn [x y z num_add num_sub num_mul].
  assert (K : forall u : R, (u * (nx * nx + ny * ny + nz * nz) = u)%R)
    by (intros u; rewrite HN; ring).
  repeat split.
  - f_equal.
    transitivity ((p * nx + q * ny + r * nz) - D * (nx * nx + ny * ny + nz * nz))%R; [ring|].
    rewrite K. unfold D. ring.
  - f_equal.
    transitivity ((p' * nx + q' * ny + r' * nz) + D * (nx * nx + ny * ny + nz * nz))%R; [ring|].
    rewrite K. unfold D. ring.
  - apply Vec3_fin_eq.
    + transitivity (p - nx * (p * nx + q * ny + r * nz)
                    - nx * D + nx * (D * (nx * nx + ny * ny + nz * nz)))%R; [ring|].
      rewrite K. ring.
    + transitivity (q - ny * (p * nx + q * ny + r * nz)
                    - ny * D + ny * (D * (nx * nx + ny * ny + nz * nz)))%R; [ring|].
      rewrite K. ring.
    + transitivity (r - nz * (p * nx + q * ny + r * nz)
                    - nz * D + nz * (D * (nx * nx + ny * ny + nz * nz)))%R; [ring|].
      rewrite K. ring.
  - apply Vec3_fin_eq.
    + transitivity (p' - nx * (p' * nx + q' * ny + r' * nz)
                    + nx * D - nx * (D * (nx * nx + ny * ny + nz * nz)))%R; [ring|].
      rewrite K. ring.
    + transitivity (q' - ny * (p' * nx + q' * ny + r' * nz)
                    + ny * D - ny * (D * (nx * nx + ny * ny + nz * nz)))%R; [ring|].
      rewrite K. ring.
    + transitivity (r' - nz * (p' * nx + q' * ny + r' * nz)
                    + nz * D - nz * (D * (nx * nx + ny * ny + nz * nz)))%R; [ring|].
      rewrite K. ring.
Qed.

(** Side conditions on an explicit state. *)
Ltac explicit :=
  cbn;
  first [ lia
        | solve [unfold finiteV; cbn; auto]
        | solve [intros E; injection E; intros; lra]
        | reflexivity ].

Lemma collide_exchanges_normal_components_witness :
  let n := normalize (subVectors (position (ballAt headOn 1)) (position (ballAt headOn 0))) in
  let s' := collide (ballAt headOn 0) 0 1 headOn in
  dot (velocityAt s' 0) n = dot (velocityAt headOn 1) n /\
  dot (velocityAt s' 1) n = dot (velocityAt headOn 0) n /\
  subVectors (velocityAt s' 0) (multiplyScalar n (dot (velocityAt s' 0) n)) =
    subVectors (velocityAt headOn 0) (multiplyScalar n (dot (velocityAt headOn 0) n)) /\
  subVectors (velocityAt s' 1) (multiplyScalar n (dot (velocityAt s' 1) n)) =
    subVectors (velocityAt headOn 1) (multiplyScalar n (dot (velocityAt headOn 1) n)).
Proof.
  apply (collide_exchanges_normal_components (ballAt headOn 0) 0 1 headOn); explicit.
Defined.

(** X3.  The update does not look at whether the two balls approach or
    separate, and applying it a second time from the side of the other ball
    (as the turn of that ball does while the two centres are where they
    were) undoes it: both balls have their first velocities again. *)
Theorem collide_twice_restores (ID i : nat) (s : State) :
  ID <> i ->
  (ID < List.length (velocity s))%nat ->
  (i < List.length (velocity s))%nat ->
  finiteV (position (ballAt s ID)) ->
  finiteV (position (ballAt s i)) ->
  position (ballAt s ID) <> position (ballAt s i) ->
  finiteV (velocityAt s ID) ->
  finiteV (velocityAt s i) ->
  let s1 := collide (ballAt s ID) ID i s in
  let s2 := collide (ballAt s1 i) i ID s1 in
  velocityAt s2 ID = velocityAt s ID /\ velocityAt s2 i = velocityAt s i.
Proof.
  intros Hne HID Hi HpA HpB Hd HvA HvB s1 s2. unfold s2, s1.
  rewrite (collide_velocity_i _ i ID) by (rewrite collide_velocity_length; exact HID).
  rewrite (collide_velocity_ID _ i ID) by (rewrite ?collide_velocity_length; auto).
  rewrite !collide_ballAt.
  rewrite (collide_velocity_ID _ ID i s Hne HID).
  rewrite (collide_velocity_i _ ID i s Hi).
  destruct (finiteV_inv _ HpA) as (a & b & c & Ea).
  destruct (finiteV_inv _ HpB) as (a' & b' & c' & Eb).
  destruct (finiteV_inv _ HvA) as (p & q & r & Ec).
  destruct (finiteV_inv _ HvB) as (p' & q' & r' & Ed).
  rewrite Ea, Eb, Ec, Ed in *.
  destruct (impulse_unit a b c a' b' c' p q r p' q' r' Hd)
    as (nx & ny & nz & HN & Ex & Ey & Ez & E).
  rewrite E. unfold subVectors at 2 4, addVectors at 2 4. cbn [x y z num_add num_sub].
  set (D := ((p - p') * nx + (q - q') * ny + (r - r') * nz)%R).
  assert (Hd' : Vec3 (Fin a') (Fin b') (Fin c') <> Vec3 (Fin a) (Fin b) (Fin c))
    by (intros X; apply Hd; symmetry; exact X).
  destruct (impulse_unit a' b' c' a b c
              (p' + nx * D) (q' + ny * D) (r' + nz * D)
              (p - nx * D) (q - ny * D) (r - nz * D) Hd')
    as (mx & my & mz & _ & Fx & Fy & Fz & F).
  rewrite F.
  assert (Mx : mx = (- nx)%R).
  { rewrite Fx, Ex, (sqdist_sym a' b' c' a b c).
    pose proof (sqrt_lt_R0 _ (sqdist_pos _ _ _ _ _ _ Hd)). field. lra. }
  assert (My : my = (- ny)%R).
  { rewrite Fy, Ey, (sqdist_sym a' b' c' a b c).
    pose proof (sqrt_lt_R0 _ (sqdist_pos _ _ _ _ _ _ Hd)). field. lra. }
  assert (Mz : mz = (- nz)%R).
  { rewrite Fz, Ez, (sqdist_sym a' b' c' a b c).
    pose proof (sqrt_lt_R0 _ (sqdist_pos _ _ _ _ _ _ Hd)). field. lra. }
  rewrite Mx, My, Mz.
  unfold subVectors, addVectors. cbn [x y z num_add num_sub].
  assert (K : forall u : R, (u * (nx * nx + ny * ny + nz * nz) = u)%R)
    by (intros u; rewrite HN; ring).
  split; apply Vec3_fin_eq.
  - transitivity (p - 2 * nx * D + 2 * nx * (D * (nx * nx + ny * ny + nz * nz)))%R;
      [unfold D; ring | rewrite K; ring].
  - transitivity (q - 2 * ny * D + 2 * ny * (D * (nx * nx + ny * ny + nz * nz)))%R;
      [unfold D; ring | rewrite K; ring].
  - transitivity (r - 2 * nz * D + 2 * nz * (D * (nx * nx + ny * ny + nz * nz)))%R;
      [unfold D; ring | rewrite K; ring].
  - transitivity (p' + 2 * nx * D - 2 * nx * (D * (nx * nx + ny * ny + nz * nz)))%R;
      [unfold D; ring | rewrite K; ring].
  - transitivity (q' + 2 * ny * D - 2 * ny * (D * (nx * nx + ny * ny + nz * nz)))%R;
      [unfold D; ring | rewrite K; ring].
  - transitivity (r' + 2 * nz * D - 2 * nz * (D * (nx * nx + ny * ny + nz * nz)))%R;
      [unfold D; ring | rewrite K; ring].
Qed.

Lemma collide_twice_restores_witness :
  let s1 := collide (ballAt headOn 0) 0 1 headOn in
  let s2 := collide (ballAt s1 1) 1 0 s1 in
  velocityAt s2 0 = velocityAt headOn 0 /\ velocityAt s2 1 = velocityAt headOn 1.
Proof.
  apply (collide_twice_restores 0 1 headOn); explicit.
Defined.

(** X4.  A ball that touches no other ball: its call of [collisionVel]
    changes nothing at all (no velocity, no mesh, no clock). *)
Theorem collisionVel_alone (ball : Mesh) (ID : nat) (s : State) :
  (forall j, (j < List.length (balls s))%nat -> j <> ID ->
     touches (position ball) (position (ballAt s j)) = false) ->
  collisionVel ball ID s = s.
Proof.
  intros H. unfold collisionVel. apply collisionVel_from_apart.
  intros j Hj Hne. apply H; [lia | exact Hne].
Qed.

Lemma collisionVel_alone_witness :
  collisionVel (ballAt atCushion 0) 0 atCushion = atCushion.
Proof.
  apply (collisionVel_alone (ballAt atCushion 0) 0 atCushion).
  intros j Hj Hne. cbn [atCushion layout balls List.length] in Hj.
  destruct j as [|j]; [congruence|]. unfold touches.
  do 7 (destruct j as [|j];
        [cbn [atCushion layout balls nth ballAt ballHere position fst snd]; apart|]).
  lia.
Defined.

(** X5.  [collisionVel(ball, ID)] changes no velocity but the one of the
    ball [ID] and those of the balls it touches: a ball [j] that [ball]
    does not touch keeps its velocity, whatever the other balls do. *)
Theorem collisionVel_spares_distant (ball : Mesh) (ID : nat) (s : State) (j : nat) :
  j <> ID ->
  touches (position ball) (position (ballAt s j)) = false ->
  velocityAt (collisionVel ball ID s) j = velocityAt s j.
Proof.
  intros Hne H. unfold collisionVel. apply collisionVel_from_velocity_apart; assumption.
Qed.

Lemma collisionVel_spares_distant_witness :
  velocityAt (collisionVel (ballAt headOn 0) 0 headOn) 2 = velocityAt headOn 2.
Proof.
  apply (collisionVel_spares_distant (ballAt headOn 0) 0 headOn 2).
  - lia.
  - unfold touches. cbn [headOn layout balls nth ballAt ballHere position fst snd]. apart.
Defined.

(* ------------------------------------------------------------------ *)
(** ** Further properties of the cushions *)

Lemma sqrt_scaled (S X k : R) :
  (0 <= S)%R -> (0 <= k)%R -> (X = S * (k * k))%R -> sqrt X = (sqrt S * k)%R.
Proof.
  intros HS Hk ->. apply sqrt_lem_1.
  - apply Rmult_le_pos; [exact HS | nra].
  - apply Rmult_le_pos; [apply sqrt_pos | exact Hk].
  - transitivity (sqrt S * sqrt S * (k * k))%R; [ring|]. rewrite sqrt_sqrt by exact HS. ring.
Qed.

Lemma cushionX_length (p : Vector3) (a b c : R) :
  length (cushionX p (Vec3 (Fin a) (Fin b) (Fin c))) =
  (length (Vec3 (Fin a) (Fin b) (Fin c)) * (if beyondX p then rollFric else Fin 1))%num /\
  exists a', cushionX p (Vec3 (Fin a) (Fin b) (Fin c)) =
             (if beyondX p then Vec3 (Fin a') (Fin (b * 0.8)) (Fin (c * 0.8))
              else Vec3 (Fin a) (Fin b) (Fin c)).
Proof.
  pose proof (Rabs_square a) as Ha. pose proof (sum_squares_nonneg a b c) as HS.
  unfold cushionX, beyondX, rollFric.
  destruct (x p >? halfWidth); [|destruct (x p <? - halfWidth)]; cbn [orb];
    unfold multiplyScalar; cbn [x y z Math_abs num_neg num_mul]; rewrite !length_fin;
    cbn [num_mul];
    (split; [f_equal; apply sqrt_scaled; [exact HS | lra | nra] |
       first [ exists (- Rabs a * 0.8)%R; reflexivity
             | exists (Rabs a * 0.8)%R; reflexivity
             | exists a; reflexivity ]]).
Qed.

Lemma cushionY_length (p : Vector3) (a b c : R) :
  length (cushionY p (Vec3 (Fin a) (Fin b) (Fin c))) =
  (length (Vec3 (Fin a) (Fin b) (Fin c)) * (if beyondY p then rollFric else Fin 1))%num.
Proof.
  pose proof (Rabs_square b) as Hb. pose proof (sum_squares_nonneg a b c) as HS.
  unfold cushionY, beyondY, rollFric.
  destruct (y p >? halfHeight); [|destruct (y p <? - halfHeight)]; cbn [orb];
    unfold multiplyScalar; cbn [x y z Math_abs num_neg num_mul]; rewrite !length_fin;
    cbn [num_mul];
    f_equal; apply sqrt_scaled; try exact HS; try lra; nra.
Qed.

(** X6.  The cushion tests of a frame multiply the speed of a ball by
    exactly 0.8 for each axis on which its centre is beyond the bound: by
    0.8 at a cushion, by 0.64 in a corner, and by 1 inside the bounds. *)
Theorem cushions_speed_factor (i : nat) (s : State) :
  (i < List.length (velocity s))%nat ->
  finiteV (velocityAt s i) ->
  let p := position (ballAt s i) in
  length (velocityAt (cushions i s) i) =
  (length (velocityAt s i)
   * (if beyondX p then rollFric else Fin 1)
   * (if beyondY p then rollFric else Fin 1))%num.
Proof.
  intros Hi Hv p. unfold cushions.
  rewrite velocityAt_setVelocity_same by exact Hi. fold p.
  destruct (finiteV_inv _ Hv) as (a & b & c & ->).
  destruct (cushionX_length p a b c) as (E & a' & F).
  rewrite <- E. rewrite F.
  destruct (beyondX p); apply cushionY_length.
Qed.

Lemma cushions_speed_factor_witness :
  let p := position (ballAt beyondCushion 0) in
  length (velocityAt (cushions 0 beyondCushion) 0) =
  (length (velocityAt beyondCushion 0)
   * (if beyondX p then rollFric else Fin 1)
   * (if beyondY p then rollFric else Fin 1))%num.
Proof.
  apply (cushions_speed_factor 0 beyondCushion); explicit.
Defined.

(** X7.  The cushion tests of the ball [i] change no velocity but the one
    of the ball [i], whatever they find; and the tests are strict: they
    leave that one too when the centre of the ball [i] is within the
    bounds, or exactly on them. *)
Theorem cushions_keep_inside (i : nat) (s : State) (a b c : R) (j : nat) :
  (i < List.length (velocity s))%nat ->
  j <> i \/
  (position (ballAt s i) = Vec3 (Fin a) (Fin b) (Fin c) /\
   (- 4.8 <= a <= 4.8)%R /\ (- 2.3 <= b <= 2.3)%R) ->
  velocityAt (cushions i s) j = velocityAt s j.
Proof.
  intros Hi [Hne|(Hp & Ha & Hb)].
  - apply cushions_velocity_other. congruence.
  - destruct (Nat.eq_dec i j) as [<-|Hne].
    + apply (cushions_velocity_inside i s a b c); assumption.
    + apply cushions_velocity_other, Hne.
Qed.

Lemma cushions_keep_inside_witness :
  (x (position (ballAt beyondCushion 0)) >? halfWidth) = true /\
  velocityAt (cushions 0 beyondCushion) 1 = velocityAt beyondCushion 1 /\
  velocityAt (cushions 1 beyondCushion) 1 = velocityAt beyondCushion 1.
Proof.
  split; [|split].
  - rewrite halfWidth_eq. cbn [beyondCushion layout balls nth ballAt ballHere position fst snd x].
    unfold num_gtb. apply num_ltb_true. lra.
  - apply (cushions_keep_inside 0 beyondCushion 0 0 0 1); [cbn; lia|].
    left. lia.
  - apply (cushions_keep_inside 1 beyondCushion 0 0 restingPlane 1); [cbn; lia|].
    right. split; [reflexivity|]. split; lra.
Defined.

(* ------------------------------------------------------------------ *)
(** ** The speed boost *)

Lemma boost_from_outside (delta : nat -> R) (k i : nat) (s : State) (j : nat) :
  (j < i)%nat \/ (i + k <= j)%nat ->
  velocityAt (boost_from delta k i s) j = velocityAt s j /\
  ballAt (boost_from delta k i s) j = ballAt s j.
Proof.
  revert i s. induction k as [|k IH]; intros i s H; [auto|].
  cbn [boost_from].
  destruct (IH (S i) (move (delta i) i
     (setVelocity s i (multiplyScalar (velocityAt s i) (colliFric + colliFric)))))
    as (V & B); [lia|].
  rewrite V, B, move_velocityAt. unfold move.
  rewrite ballAt_setBall_other by lia.
  rewrite velocityAt_setVelocity_other by lia. auto.
Qed.

Lemma boost_from_inside (delta : nat -> R) (k i : nat) (s : State) (j : nat) :
  (i <= j < i + k)%nat ->
  (j < List.length (velocity s))%nat ->
  (j < List.length (balls s))%nat ->
  let v := multiplyScalar (velocityAt s j) (colliFric + colliFric) in
  velocityAt (boost_from delta k i s) j = v /\
  position (ballAt (boost_from delta k i s) j) =
    add (position (ballAt s j)) (multiplyScalar (clone v) (Fin (delta j))).
Proof.
  revert i s. induction k as [|k IH]; intros i s H HV HB v; [lia|].
  cbn [boost_from].
  set (s1 := setVelocity s i (multiplyScalar (velocityAt s i) (colliFric + colliFric))).
  destruct (Nat.eq_dec i j) as [->|Hne].
  - destruct (boost_from_outside delta k (S j) (move (delta j) j s1) j) as (V & B); [lia|].
    rewrite V, B, move_velocityAt.
    assert (E : velocityAt s1 j = v) by (apply velocityAt_setVelocity_same, HV).
    rewrite move_position_same by exact HB. rewrite E. auto.
  - destruct (IH (S i) (move (delta i) i s1) ltac:(lia)) as (V & P).
    + destruct (move_frame (delta i) i s1) as (V' & _). rewrite V'.
      unfold s1, setVelocity. cbn [velocity]. rewrite assign_length. exact HV.
    + destruct (move_frame (delta i) i s1) as (_ & _ & _ & B'). rewrite B'. exact HB.
    + rewrite V, P, move_velocityAt. unfold move.
      rewrite ballAt_setBall_other by exact Hne.
      unfold s1. rewrite velocityAt_setVelocity_other by exact Hne. auto.
Qed.

Lemma boost_from_frame (delta : nat -> R) (k i : nat) (s : State) :
  clockOf (boost_from delta k i s) = clockOf s /\
  trace (boost_from delta k i s) = trace s.
Proof.
  revert i s. induction k as [|k IH]; intros i s; [auto|].
  cbn [boost_from].
  destruct (IH (S i) (move (delta i) i
     (setVelocity s i (multiplyScalar (velocityAt s i) (colliFric + colliFric)))))
    as (C & T).
  rewrite C, T. auto.
Qed.

(** X8.  The key S multiplies the velocity of every ball by
    [colliFric + colliFric] (1.4) and moves each ball once along its new
    velocity for the time its turn reads from the clock; it runs no
    collision update, no cushion test and no friction decay, and leaves the
    clock of the frames alone. *)
Theorem speed_boost (delta : nat -> R) (s : State) (j : nat) :
  wellFormed s ->
  (j < nrOfBalls defaultSettings)%nat ->
  let s' := eventHandler 83 delta s in
  let v := multiplyScalar (velocityAt s j) (colliFric + colliFric) in
  velocityAt s' j = v /\
  position (ballAt s' j) =
    add (position (ballAt s j)) (multiplyScalar (clone v) (Fin (delta j))) /\
  clockOf s' = clockOf s /\
  trace s' = trace s.
Proof.
  intros [WB WV] Hj s' v. unfold s', eventHandler. cbn [Z.eqb Pos.eqb].
  revert Hj WB WV. generalize (nrOfBalls defaultSettings). intros n Hj WB WV.
  destruct (boost_from_inside delta n 0 s j) as (V & P); try lia.
  destruct (boost_from_frame delta n 0 s) as (C & T).
  auto.
Qed.

Lemma speed_boost_witness :
  let s' := eventHandler 83 (fun _ => 0.01%R) headOn in
  let v := multiplyScalar (velocityAt headOn 0) (colliFric + colliFric) in
  velocityAt s' 0 = v /\
  position (ballAt s' 0) =
    add (position (ballAt headOn 0)) (multiplyScalar (clone v) (Fin 0.01)) /\
  clockOf s' = clockOf headOn /\
  trace s' = trace headOn.
Proof.
  apply (speed_boost (fun _ => 0.01%R) headOn 0).
  - apply layout_wellFormed.
  - cbn. lia.
Defined.

(* ------------------------------------------------------------------ *)
(** ** Further properties of the clock and of the friction decay *)

(** X9.  For a time in milliseconds since the epoch (not negative), the
    second computed in lines 214 and 229 is the second of the minute: it
    lies in 0..59, equals [(t / 1000) mod 60], and comes back after 60000
    ms. *)
Theorem second_of_minute (t : Z) :
  (0 <= t)%Z ->
  (0 <= secondOf t < 60)%Z /\
  secondOf t = ((t / 1000) mod 60)%Z /\
  secondOf (t + 60000) = secondOf t.
Proof.
  intros Ht. rewrite !secondOf_nonneg by lia.
  pose proof (Z.mod_pos_bound (t / 1000) 60 ltac:(lia)).
  split; [lia|]. split; [reflexivity|].
  replace (t + 60000)%Z with (t + 60 * 1000)%Z by lia.
  rewrite Z.div_add by lia.
  replace (t / 1000 + 60)%Z with (t / 1000 + 1 * 60)%Z by lia.
  apply Z.mod_add. lia.
Qed.

Lemma second_of_minute_witness :
  (0 <= secondOf 61500 < 60)%Z /\
  secondOf 61500 = ((61500 / 1000) mod 60)%Z /\
  secondOf (61500 + 60000) = secondOf 61500.
Proof. apply (second_of_minute 61500). lia. Defined.

Lemma render_clock (dt : R) (s : State) :
  currentTime (render dt s) = (currentTime s + elapsed dt)%Z /\
  currentSecond (render dt s) = secondOf (currentTime s + elapsed dt).
Proof.
  unfold render.
  destruct (render_from_shape dt (nrOfBalls defaultSettings) 0 (tick dt s)) as (_ & _ & T & S').
  rewrite T, S'. unfold tick, elapsed. cbn [currentTime currentSecond]. auto.
Qed.

Lemma elapsed_near (dt : R) : (Rabs (IZR (elapsed dt) - dt * 1000) <= / 2)%R.
Proof.
  unfold elapsed, Math_round.
  pose proof (Zfloor_bound (dt * 1000 + / 2)) as [B1 B2].
  unfold Rabs. destruct (Rcase_abs _); lra.
Qed.

(** X10.  The clock of the simulation advances in every frame, skipped or
    not, by the time step rounded to the millisecond: after a run of frames
    [currentTime] has grown by the sum of the [Math.round(dt * 1000)], which
    differs from the true elapsed time by at most half a millisecond per
    frame. *)
Theorem clock_of_frames (dts : list R) (s : State) :
  currentTime (frames dts s) = (currentTime s + simulated dts)%Z /\
  (Rabs (IZR (simulated dts) - 1000 * fold_right Rplus 0%R dts)
   <= INR (List.length dts) / 2)%R.
Proof.
  split.
  - revert s. induction dts as [|dt dts IH]; intros s.
    + cbn. lia.
    + change (frames (dt :: dts) s) with (frames dts (render dt s)).
      rewrite IH, (proj1 (render_clock dt s)).
      cbn [simulated fold_right]. fold (simulated dts). lia.
  - induction dts as [|dt dts IH].
    + cbn. unfold Rabs. destruct (Rcase_abs _); lra.
    + cbn [simulated fold_right List.length]. fold (simulated dts).
      rewrite plus_IZR, S_INR.
      pose proof (elapsed_near dt) as E.
      unfold Rabs in *. repeat destruct (Rcase_abs _); lra.
Qed.

(** X11.  A frame applies the friction decay to a ball at most once,
    however many seconds the time step spans, and not at all when the time
    step exceeds 0.15 s. *)
Theorem decay_at_most_once_per_frame (dt : R) (s : State) (j : nat) :
  (decays j (trace s) <= decays j (trace (render dt s)) <= decays j (trace s) + 1)%nat /\
  ((0.15 < dt)%R -> decays j (trace (render dt s)) = decays j (trace s)).
Proof.
  assert (L : (0.15 < dt)%R -> decays j (trace (render dt s)) = decays j (trace s)).
  { intros H. unfold render. rewrite render_from_large by exact H. reflexivity. }
  split; [|exact L].
  destruct (Rle_or_lt dt 0.15) as [H|H].
  - destruct (render_decays dt s j H) as (_ & _ & D). rewrite D.
    destruct (Z.eqb _ _); [lia|]. destruct (Nat.ltb _ _); lia.
  - rewrite (L H). lia.
Qed.

(** X12.  A skipped frame postpones the decay instead of losing it: it
    leaves the marker [previousSec] and the velocities as they were, and
    the next frame with a small time step applies the decay once if the
    second then differs from the marker (and not if a whole number of
    minutes has gone by).  The decay is applied by the friction step that
    ends the turn of the ball 0 in that frame, where it multiplies the
    velocity of every ball by [rollFric]. *)
Theorem skipped_frame_postpones_decay (dt dt' : R) (s : State) (j : nat) :
  (0.15 < dt)%R -> (dt' <= 0.15)%R ->
  (j < nrOfBalls defaultSettings)%nat ->
  let s1 := render dt s in
  let changed :=
    negb (Z.eqb (secondOf (currentTime s + elapsed dt + elapsed dt')) (previousSec s)) in
  let X := cushions 0 (move dt' 0 (collisionVel (ballAt (tick dt' s1) 0) 0 (tick dt' s1))) in
  previousSec s1 = previousSec s /\
  velocityAt s1 j = velocityAt s j /\
  decays j (trace (render dt' s1)) = (decays j (trace s) + (if changed then 1 else 0))%nat /\
  render dt' s1 = render_from dt' 7 1 (friction X) /\
  decays j (trace X) = decays j (trace s) /\
  velocityAt (friction X) j =
    (if changed then multiplyScalar (velocityAt X j) rollFric else velocityAt X j).
Proof.
  intros H H' Hj s1 changed X.
  assert (P : previousSec s1 = previousSec s).
  { unfold s1, render. rewrite render_from_large by exact H. reflexivity. }
  assert (T : trace s1 = trace s).
  { unfold s1, render. rewrite render_from_large by exact H. reflexivity. }
  assert (V : velocityAt s1 j = velocityAt s j).
  { unfold s1, render. rewrite render_from_large by exact H. reflexivity. }
  destruct (render_first_turn dt' s1 j H') as (E & S1 & P1 & D1). fold X in E, S1, P1, D1.
  destruct (render_decays dt' s1 j H') as (_ & _ & D).
  assert (C : currentTime s1 = (currentTime s + elapsed dt)%Z)
    by (apply (proj1 (render_clock dt s))).
  assert (Hj' : (j <? nrOfBalls defaultSettings)%nat = true) by (apply Nat.ltb_lt; exact Hj).
  split; [exact P|]. split; [exact V|]. split; [|split; [exact E|split]].
  - rewrite D, P, T, C, Hj'. unfold changed. destruct (Z.eqb _ _); reflexivity.
  - rewrite D1, T. reflexivity.
  - rewrite friction_velocityAt by exact Hj. rewrite S1, P1, P, C. unfold changed.
    destruct (Z.eqb _ _); reflexivity.
Qed.

Lemma skipped_frame_postpones_decay_witness :
  let s1 := render 1 headOn in
  let changed :=
    negb (Z.eqb (secondOf (currentTime headOn + elapsed 1 + elapsed 0.01))
                (previousSec headOn)) in
  let X := cushions 0 (move 0.01 0 (collisionVel (ballAt (tick 0.01 s1) 0) 0 (tick 0.01 s1))) in
  previousSec s1 = previousSec headOn /\
  velocityAt s1 0 = velocityAt headOn 0 /\
  decays 0 (trace (render 0.01 s1))
    = (decays 0 (trace headOn) + (if changed then 1 else 0))%nat /\
  render 0.01 s1 = render_from 0.01 7 1 (friction X) /\
  decays 0 (trace X) = decays 0 (trace headOn) /\
  velocityAt (friction X) 0 =
    (if changed then multiplyScalar (velocityAt X 0) rollFric else velocityAt X 0).
Proof.
  apply (skipped_frame_postpones_decay 1 0.01 headOn 0); [lra | lra | cbn; lia].
Defined.

(* ------------------------------------------------------------------ *)
(** ** Translation and rotation *)

Lemma move_unfolded (dt : R) (i : nat) (s : State) :
  move dt i s =
  setBall s i
    (mkMesh (add (position (ballAt s i)) (multiplyScalar (clone (velocityAt s i)) (Fin dt)))
       (multiply
          (setPosition (matrix (ballAt s i))
             (add (position (ballAt s i)) (multiplyScalar (clone (velocityAt s i)) (Fin dt))))
          (makeRotationAxis (rotationAxis (velocityAt s i))
             (omega (velocityAt s i) * Fin dt)))).
Proof. reflexivity. Qed.

Lemma rotationAxis_fin (p q r : R) :
  (0 < p * p + q * q)%R ->
  rotationAxis (Vec3 (Fin p) (Fin q) (Fin r)) =
  Vec3 (Fin (- q / sqrt (p * p + q * q))) (Fin (p / sqrt (p * p + q * q))) (Fin 0).
Proof.
  intros H. pose proof (sqrt_lt_R0 _ H) as Hs.
  unfold rotationAxis, normalize, cross. cbn [x y z num_mul num_sub].
  rewrite length_fin.
  replace ((0 * r - 1 * q) * (0 * r - 1 * q) + (1 * p - 0 * r) * (1 * p - 0 * r)
           + (0 * q - 0 * p) * (0 * q - 0 * p))%R with (p * p + q * q)%R by ring.
  rewrite num_or_fin by lra.
  unfold divideScalar. cbn [x y z]. rewrite !num_div_fin by lra.
  apply Vec3_fin_eq; field; lra.
Qed.

(** X13.  Rolling without slipping: for a velocity with a horizontal part,
    the rotation axis is a horizontal unit vector perpendicular to the
    velocity, and the angle turned in a step times the radius of the ball
    is the length of the step, [|v| dt]. *)
Theorem rolling_axis_and_angle (p q r dt : R) :
  (0 < p * p + q * q)%R ->
  let v := Vec3 (Fin p) (Fin q) (Fin r) in
  z (rotationAxis v) = Fin 0 /\
  dot (rotationAxis v) v = Fin 0 /\
  length (rotationAxis v) = Fin 1 /\
  (omega v * Fin dt * ballRadius defaultSettings = length v * Fin dt)%num.
Proof.
  intros H v. unfold v. rewrite rotationAxis_fin by exact H.
  pose proof (sqrt_lt_R0 _ H) as Hs.
  set (L := sqrt (p * p + q * q)) in *.
  assert (HL : (L * L = p * p + q * q)%R) by (unfold L; apply sqrt_sqrt; lra).
  split; [reflexivity|]. split; [|split].
  - unfold dot. cbn [x y z num_mul num_add]. f_equal. field. lra.
  - rewrite length_fin.
    replace (- q / L * (- q / L) + p / L * (p / L) + 0 * 0)%R with 1%R.
    + rewrite sqrt_1. reflexivity.
    + symmetry. transitivity ((p * p + q * q) / (L * L))%R; [field; lra|].
      rewrite <- HL. field. lra.
  - unfold omega. rewrite length_fin. cbn [ballRadius defaultSettings].
    rewrite num_div_fin by lra. cbn [num_mul]. f_equal. field. lra.
Qed.

Lemma rolling_axis_and_angle_witness :
  let v := Vec3 (Fin 3) (Fin 4) (Fin 0) in
  z (rotationAxis v) = Fin 0 /\
  dot (rotationAxis v) v = Fin 0 /\
  length (rotationAxis v) = Fin 1 /\
  (omega v * Fin 0.01 * ballRadius defaultSettings = length v * Fin 0.01)%num.
Proof. apply (rolling_axis_and_angle 3 4 0 0.01). lra. Defined.

Lemma dot_self_fin (v : Vector3) (r : R) :
  dot v v = Fin r -> exists a b c, v = Vec3 (Fin a) (Fin b) (Fin c).
Proof.
  destruct v as [[a|] [b|] [c|]]; cbn; intros H; try discriminate H.
  exists a, b, c. reflexivity.
Qed.

Section RotationAlgebra.

Import RNsatz.

(** The rotation about a horizontal unit axis keeps the dot product of two
    rows. *)
Lemma rotation_keeps_dot (a1 a2 a3 b1 b2 b3 ux uy c s : R) :
  (ux * ux + uy * uy = 1)%R -> (c * c + s * s = 1)%R ->
  let t := (1 - c)%R in
  let r11 := (t * ux * ux + c)%R in
  let r12 := (t * ux * uy - s * 0)%R in
  let r13 := (t * ux * 0 + s * uy)%R in
  let r21 := (t * ux * uy + s * 0)%R in
  let r22 := (t * uy * uy + c)%R in
  let r23 := (t * uy * 0 - s * ux)%R in
  let r31 := (t * ux * 0 - s * uy)%R in
  let r32 := (t * uy * 0 + s * ux)%R in
  let r33 := (t * 0 * 0 + c)%R in
  ((a1 * r11 + a2 * r21 + a3 * r31) * (b1 * r11 + b2 * r21 + b3 * r31)
   + (a1 * r12 + a2 * r22 + a3 * r32) * (b1 * r12 + b2 * r22 + b3 * r32)
   + (a1 * r13 + a2 * r23 + a3 * r33) * (b1 * r13 + b2 * r23 + b3 * r33)
   = a1 * b1 + a2 * b2 + a3 * b3)%R.
Proof.
  intros Hu Hc t r11 r12 r13 r21 r22 r23 r31 r32 r33.
  unfold r11, r12, r13, r21, r22, r23, r31, r32, r33, t.
  nsatz.
Qed.

End RotationAlgebra.

Lemma move_inStep (dt p q r : R) (i : nat) (s : State) :
  (i < List.length (balls s))%nat ->
  rigid (matrix (ballAt s i)) ->
  finiteV (position (ballAt s i)) ->
  velocityAt s i = Vec3 (Fin p) (Fin q) (Fin r) ->
  (0 < p * p + q * q)%R ->
  inStep (ballAt (move dt i s) i).
Proof.
  intros Hi [[H11 [H22 [H33 [H12 [H13 H23]]]]] [B1 [B2 [B3 B4]]]] Hp Hv H.
  rewrite move_unfolded, ballAt_setBall_same by exact Hi.
  rewrite Hv, rotationAxis_fin by exact H.
  pose proof (sqrt_lt_R0 _ H) as Hs.
  set (L := sqrt (p * p + q * q)) in *.
  assert (HL : (L * L = p * p + q * q)%R) by (unfold L; apply sqrt_sqrt; lra).
  assert (Hu : (- q / L * (- q / L) + p / L * (p / L) = 1)%R).
  { transitivity ((p * p + q * q) / (L * L))%R; [field; lra|].
    rewrite <- HL. field. lra. }
  set (ux := (- q / L)%R) in *. set (uy := (p / L)%R) in *.
  unfold omega. rewrite length_fin. cbn [ballRadius defaultSettings].
  rewrite num_div_fin by lra. cbn [num_mul].
  set (a := (sqrt (p * p + q * q + r * r) / 0.20 * dt)%R).
  pose proof (sin2_cos2 a) as Hc. unfold Rsqr in Hc.
  assert (Hc' : (cos a * cos a + sin a * sin a = 1)%R) by lra.
  destruct (ballAt s i) as [pos m]. cbn [position matrix] in *.
  destruct (dot_self_fin _ _ H11) as [a1 [a2 [a3 E1]]].
  destruct (dot_self_fin _ _ H22) as [b1 [b2 [b3 E2]]].
  destruct (dot_self_fin _ _ H33) as [c1 [c2 [c3 E3]]].
  rewrite E1, E2 in H12. rewrite E1, E3 in H13. rewrite E2, E3 in H23.
  rewrite E1 in H11. rewrite E2 in H22. rewrite E3 in H33.
  destruct m as [m11 m12 m13 m14 m21 m22 m23 m24 m31 m32 m33 m34 m41 m42 m43 m44].
  cbn in E1, E2, E3, B1, B2, B3, B4.
  injection E1 as -> -> ->. injection E2 as -> -> ->. injection E3 as -> -> ->.
  subst m41 m42 m43 m44.
  destruct pos as [[px|] [py|] [pz|]]; unfold finiteV in Hp; cbn in Hp;
    try (exfalso; tauto).
  cbn in H11, H22, H33, H12, H13, H23.
  injection H11 as H11. injection H22 as H22. injection H33 as H33.
  injection H12 as H12. injection H13 as H13. injection H23 as H23.
  unfold inStep, rigid, orthonormal, row1, row2, row3.
  cbn -[cos sin].
  repeat split; f_equal; try ring.
  - etransitivity; [|exact H11]. etransitivity; [|apply (rotation_keeps_dot _ _ _ _ _ _ ux uy (cos a) (sin a) Hu Hc')]. ring.
  - etransitivity; [|exact H22]. etransitivity; [|apply (rotation_keeps_dot _ _ _ _ _ _ ux uy (cos a) (sin a) Hu Hc')]. ring.
  - etransitivity; [|exact H33]. etransitivity; [|apply (rotation_keeps_dot _ _ _ _ _ _ ux uy (cos a) (sin a) Hu Hc')]. ring.
  - etransitivity; [|exact H12]. etransitivity; [|apply (rotation_keeps_dot _ _ _ _ _ _ ux uy (cos a) (sin a) Hu Hc')]. ring.
  - etransitivity; [|exact H13]. etransitivity; [|apply (rotation_keeps_dot _ _ _ _ _ _ ux uy (cos a) (sin a) Hu Hc')]. ring.
  - etransitivity; [|exact H23]. etransitivity; [|apply (rotation_keeps_dot _ _ _ _ _ _ ux uy (cos a) (sin a) Hu Hc')]. ring.
Qed.

(** X14.  One translation and rotation step of a ball whose velocity has a
    horizontal part leaves its mesh in step: from a rigid matrix and a
    position that is a number, the new matrix is rigid again and its
    translation column is the new position. *)
Theorem move_keeps_mesh_in_step (dt p q r : R) (i : nat) (s : State) :
  (i < List.length (balls s))%nat ->
  rigid (matrix (ballAt s i)) ->
  finiteV (position (ballAt s i)) ->
  velocityAt s i = Vec3 (Fin p) (Fin q) (Fin r) ->
  (0 < p * p + q * q)%R ->
  inStep (ballAt (move dt i s) i).
Proof. exact (move_inStep dt p q r i s). Qed.

Lemma identity_rigid : rigid identity.
Proof. unfold rigid, orthonormal. cbn. repeat split; f_equal; ring. Qed.

Lemma move_keeps_mesh_in_step_witness :
  inStep (ballAt (move 0.01 0 headOn) 0).
Proof.
  apply (move_keeps_mesh_in_step 0.01 1 0 0 0 headOn).
  - cbn. lia.
  - exact identity_rigid.
  - unfold finiteV. cbn. tauto.
  - reflexivity.
  - lra.
Defined.

Lemma move_balls_length (dt : R) (i : nat) (s : State) :
  List.length (balls (move dt i s)) = List.length (balls s).
Proof. rewrite move_unfolded. unfold setBall. cbn. apply assign_length. Qed.

(** The matrix after lines 246-251, entry by entry. *)
Lemma step_matrix (a1 a2 a3 b1 b2 b3 c1 c2 c3 : R) (m14 m24 m34 : num)
    (px py pz ux uy angle : R) :
  multiply
    (setPosition
       (Mat4 (Fin a1) (Fin a2) (Fin a3) m14
             (Fin b1) (Fin b2) (Fin b3) m24
             (Fin c1) (Fin c2) (Fin c3) m34
             (Fin 0) (Fin 0) (Fin 0) (Fin 1))
       (Vec3 (Fin px) (Fin py) (Fin pz)))
    (makeRotationAxis (Vec3 (Fin ux) (Fin uy) (Fin 0)) (Fin angle)) =
  let k := cos angle in
  let s := sin angle in
  Mat4 (Fin (turn1 ux uy k s a1 a2 a3)) (Fin (turn2 ux uy k s a1 a2 a3))
       (Fin (turn3 ux uy k s a1 a2 a3)) (Fin px)
       (Fin (turn1 ux uy k s b1 b2 b3)) (Fin (turn2 ux uy k s b1 b2 b3))
       (Fin (turn3 ux uy k s b1 b2 b3)) (Fin py)
       (Fin (turn1 ux uy k s c1 c2 c3)) (Fin (turn2 ux uy k s c1 c2 c3))
       (Fin (turn3 ux uy k s c1 c2 c3)) (Fin pz)
       (Fin 0) (Fin 0) (Fin 0) (Fin 1).
Proof.
  unfold multiply, setPosition, makeRotationAxis, turn1, turn2, turn3.
  cbn -[cos sin]. apply Mat4_eq; try reflexivity; apply f_equal; ring.
Qed.

Section Rotations.

Import RNsatz.

(** Two rotations about the same horizontal unit axis, one after the
    other, on a row. *)
Lemma turn_turn (ux uy k1 s1 k2 s2 a1 a2 a3 : R) :
  (ux * ux + uy * uy = 1)%R ->
  let b1 := turn1 ux uy k1 s1 a1 a2 a3 in
  let b2 := turn2 ux uy k1 s1 a1 a2 a3 in
  let b3 := turn3 ux uy k1 s1 a1 a2 a3 in
  turn1 ux uy k2 s2 b1 b2 b3
    = turn1 ux uy (k1 * k2 - s1 * s2) (s1 * k2 + k1 * s2) a1 a2 a3 /\
  turn2 ux uy k2 s2 b1 b2 b3
    = turn2 ux uy (k1 * k2 - s1 * s2) (s1 * k2 + k1 * s2) a1 a2 a3 /\
  turn3 ux uy k2 s2 b1 b2 b3
    = turn3 ux uy (k1 * k2 - s1 * s2) (s1 * k2 + k1 * s2) a1 a2 a3.
Proof.
  intros Hu b1 b2 b3. unfold b1, b2, b3, turn1, turn2, turn3.
  split; [|split]; nsatz.
Qed.

End Rotations.

(** X15.  Steps compose: for a ball whose velocity has a horizontal part,
    a step of [dt1] followed by a step of [dt2] with the same velocity
    leaves the mesh (position and matrix) that one step of [dt1 + dt2]
    leaves. *)
Theorem move_composes (dt1 dt2 p q r : R) (i : nat) (s : State) :
  (i < List.length (balls s))%nat ->
  rigid (matrix (ballAt s i)) ->
  finiteV (position (ballAt s i)) ->
  velocityAt s i = Vec3 (Fin p) (Fin q) (Fin r) ->
  (0 < p * p + q * q)%R ->
  ballAt (move dt2 i (move dt1 i s)) i = ballAt (move (dt1 + dt2) i s) i.
Proof.
  intros Hi [[H11 [H22 [H33 _]]] [B1 [B2 [B3 B4]]]] Hp Hv H.
  assert (Hi' : (i < List.length (balls (move dt1 i s)))%nat)
    by (rewrite move_balls_length; exact Hi).
  rewrite (move_unfolded dt2 i (move dt1 i s)), ballAt_setBall_same by exact Hi'.
  rewrite move_velocityAt.
  rewrite (move_unfolded dt1), (move_unfolded (dt1 + dt2)).
  rewrite !ballAt_setBall_same by exact Hi.
  rewrite Hv, rotationAxis_fin by exact H.
  pose proof (sqrt_lt_R0 _ H) as Hs.
  set (L := sqrt (p * p + q * q)) in *.
  assert (HL : (L * L = p * p + q * q)%R) by (unfold L; apply sqrt_sqrt; lra).
  assert (Hu : (- q / L * (- q / L) + p / L * (p / L) = 1)%R).
  { transitivity ((p * p + q * q) / (L * L))%R; [field; lra|].
    rewrite <- HL. field. lra. }
  clear HL Hs H. generalize dependent (- q / L)%R. intros ux.
  generalize (p / L)%R. intros uy Hu. clear L.
  unfold omega. rewrite length_fin. cbn [ballRadius defaultSettings].
  rewrite num_div_fin by lra. cbn [num_mul].
  generalize (sqrt (p * p + q * q + r * r) / 0.20)%R. intros w.
  rewrite (Rmult_plus_distr_l w dt1 dt2).
  destruct (ballAt s i) as [pos m]. cbn [position matrix] in *.
  destruct (dot_self_fin _ _ H11) as [a1 [a2 [a3 E1]]].
  destruct (dot_self_fin _ _ H22) as [b1 [b2 [b3 E2]]].
  destruct (dot_self_fin _ _ H33) as [c1 [c2 [c3 E3]]].
  clear H11 H22 H33.
  destruct m as [m11 m12 m13 m14 m21 m22 m23 m24 m31 m32 m33 m34 m41 m42 m43 m44].
  cbn in E1, E2, E3, B1, B2, B3, B4.
  injection E1 as -> -> ->. injection E2 as -> -> ->. injection E3 as -> -> ->.
  subst m41 m42 m43 m44.
  destruct pos as [[px|] [py|] [pz|]]; unfold finiteV in Hp; cbn in Hp;
    try (exfalso; tauto).
  clear Hp Hv Hi Hi'.
  unfold add, addVectors, multiplyScalar, clone. cbn [x y z num_add num_mul].
  rewrite !step_matrix. cbv zeta. rewrite cos_plus, sin_plus.
  generalize (cos (w * dt1)) (sin (w * dt1)) (cos (w * dt2)) (sin (w * dt2)).
  intros k1 s1 k2 s2.
  destruct (turn_turn ux uy k1 s1 k2 s2 a1 a2 a3 Hu) as [A1 [A2 A3]].
  destruct (turn_turn ux uy k1 s1 k2 s2 b1 b2 b3 Hu) as [D1 [D2 D3]].
  destruct (turn_turn ux uy k1 s1 k2 s2 c1 c2 c3 Hu) as [G1 [G2 G3]].
  rewrite A1, A2, A3, D1, D2, D3, G1, G2, G3.
  apply f_equal2; [apply Vec3_fin_eq; ring|].
  apply Mat4_eq; try reflexivity; apply f_equal; ring.
Qed.

Lemma move_composes_witness :
  ballAt (move 0.02 0 (move 0.01 0 headOn)) 0 = ballAt (move (0.01 + 0.02) 0 headOn) 0.
Proof.
  apply (move_composes 0.01 0.02 1 0 0 0 headOn).
  - cbn. lia.
  - exact identity_rigid.
  - unfold finiteV. cbn. tauto.
  - reflexivity.
  - lra.
Defined.

(** X16.  A step of no duration changes nothing: with [dt = 0] the mesh of a
    ball in step, whose velocity has a horizontal part, is left as it is
    (no translation, and a rotation of angle zero). *)
Theorem move_of_no_duration (p q r : R) (i : nat) (s : State) :
  (i < List.length (balls s))%nat ->
  inStep (ballAt s i) ->
  finiteV (position (ballAt s i)) ->
  velocityAt s i = Vec3 (Fin p) (Fin q) (Fin r) ->
  (0 < p * p + q * q)%R ->
  ballAt (move 0 i s) i = ballAt s i.
Proof.
  intros Hi [[[H11 [H22 [H33 _]]] [B1 [B2 [B3 B4]]]] [T1 [T2 T3]]] Hp Hv H.
  rewrite move_unfolded, ballAt_setBall_same by exact Hi.
  rewrite Hv, rotationAxis_fin by exact H.
  pose proof (sqrt_lt_R0 _ H) as Hs.
  generalize (- q / sqrt (p * p + q * q))%R (p / sqrt (p * p + q * q))%R.
  intros ux uy.
  unfold omega. rewrite length_fin. cbn [ballRadius defaultSettings].
  rewrite num_div_fin by lra. cbn [num_mul]. rewrite Rmult_0_r.
  destruct (ballAt s i) as [pos m]. cbn [position matrix] in *.
  destruct (dot_self_fin _ _ H11) as [a1 [a2 [a3 E1]]].
  destruct (dot_self_fin _ _ H22) as [b1 [b2 [b3 E2]]].
  destruct (dot_self_fin _ _ H33) as [c1 [c2 [c3 E3]]].
  destruct m as [m11 m12 m13 m14 m21 m22 m23 m24 m31 m32 m33 m34 m41 m42 m43 m44].
  cbn in E1, E2, E3, B1, B2, B3, B4, T1, T2, T3.
  injection E1 as -> -> ->. injection E2 as -> -> ->. injection E3 as -> -> ->.
  subst m41 m42 m43 m44 m14 m24 m34.
  destruct pos as [[px|] [py|] [pz|]]; unfold finiteV in Hp; cbn in Hp;
    try (exfalso; tauto).
  unfold add, addVectors, multiplyScalar, clone. cbn [x y z num_add num_mul].
  rewrite step_matrix. cbv zeta. rewrite cos_0, sin_0.
  unfold turn1, turn2, turn3.
  apply f_equal2; [apply Vec3_fin_eq; ring|].
  apply Mat4_eq; try reflexivity; apply f_equal; ring.
Qed.

Lemma move_of_no_duration_witness :
  ballAt (move 0 0 (move 0.01 0 headOn)) 0 = ballAt (move 0.01 0 headOn) 0.
Proof.
  apply (move_of_no_duration 1 0 0 0 (move 0.01 0 headOn)).
  - cbn. lia.
  - apply (move_inStep 0.01 1 0 0 0 headOn);
      [cbn; lia | exact identity_rigid | unfold finiteV; cbn; tauto | reflexivity | lra].
  - unfold finiteV. cbn. tauto.
  - reflexivity.
  - lra.
Defined.

(* ------------------------------------------------------------------ *)
(** ** The first positions and velocities *)

Lemma getBallPosition_S (fuel : nat) (rand : nat -> R) (others : list Mesh)
    (c : nat) (BB : Mesh) :
  getBallPosition (S fuel) rand others c BB =
  scan fuel rand others others (S (S c)) (drawn rand c (matrix BB)).
Proof. reflexivity. Qed.

Lemma scan_cons (fuel : nat) (rand : nat -> R) (others : list Mesh)
    (other : Mesh) (rest : list Mesh) (c : nat) (BB : Mesh) :
  scan fuel rand others (other :: rest) c BB =
  if touches (position BB) (position other)
  then match getBallPosition fuel rand others c BB with
       | None => None
       | Some (BB', c') => scan fuel rand others rest c' BB'
       end
  else scan fuel rand others rest c BB.
Proof. reflexivity. Qed.

Lemma scan_pass (fuel : nat) (rand : nat -> R) (others rest : list Mesh)
    (c : nat) (BB : Mesh) :
  clearOf BB rest = true -> scan fuel rand others rest c BB = Some (BB, c).
Proof.
  induction rest as [|o rest IH]; intros H; [reflexivity|].
  cbn [clearOf forallb] in H. apply andb_true_iff in H. destruct H as [H1 H2].
  rewrite scan_cons. apply negb_true_iff in H1. rewrite H1. apply IH, H2.
Qed.

Lemma clearOf_incl (b : Mesh) (l l' : list Mesh) :
  incl l l' -> clearOf b l' = true -> clearOf b l = true.
Proof.
  unfold clearOf. rewrite !forallb_forall. intros I H o Ho. apply H, I, Ho.
Qed.

Lemma scan_clear (fuel : nat) (rand : nat -> R) (others rest : list Mesh)
    (c c' : nat) (BB BB' : Mesh) :
  (forall n B B2 n2, getBallPosition fuel rand others n B = Some (B2, n2) ->
     clearOf B2 others = true) ->
  scan fuel rand others rest c BB = Some (BB', c') ->
  (BB' = BB /\ clearOf BB rest = true) \/ clearOf BB' others = true.
Proof.
  intros IH. revert c BB. induction rest as [|o rest IHrest]; intros c BB H.
  - injection H as <- _. left. split; reflexivity.
  - rewrite scan_cons in H. destruct (touches (position BB) (position o)) eqn:T.
    + destruct (getBallPosition fuel rand others c BB) as [[B2 n2]|] eqn:E; [|discriminate].
      right. destruct (IHrest _ _ H) as [[-> _]|K]; [|exact K].
      apply (IH _ _ _ _ E).
    + destruct (IHrest _ _ H) as [[-> K]|K]; [left|right; exact K].
      split; [reflexivity|]. cbn [clearOf forallb]. rewrite T. exact K.
Qed.

Lemma getBallPosition_clearOf (fuel : nat) (rand : nat -> R) (others : list Mesh)
    (c c' : nat) (BB BB' : Mesh) :
  getBallPosition fuel rand others c BB = Some (BB', c') ->
  clearOf BB' others = true.
Proof.
  revert c c' BB BB'. induction fuel as [|fuel IH]; intros c c' BB BB' H; [discriminate|].
  rewrite getBallPosition_S in H.
  destruct (scan_clear fuel rand others others _ _ _ _
              (fun n B B2 n2 E => IH n n2 B B2 E) H) as [[-> K]|K]; exact K.
Qed.

(** X17.  When [getBallPosition] returns, the ball touches none of the balls
    placed before it (although the loop goes on with the next ball after a
    nested call, without starting again). *)
Theorem getBallPosition_touches_none (fuel : nat) (rand : nat -> R) (others : list Mesh)
    (c c' : nat) (BB BB' o : Mesh) :
  getBallPosition fuel rand others c BB = Some (BB', c') ->
  In o others -> touches (position BB') (position o) = false.
Proof.
  intros H Ho. apply getBallPosition_clearOf in H.
  unfold clearOf in H. rewrite forallb_forall in H.
  apply negb_true_iff, H, Ho.
Qed.

Lemma scan_drawn (fuel : nat) (rand : nat -> R) (others rest : list Mesh)
    (c c' : nat) (m : Matrix4) (BB' : Mesh) (n : nat) :
  (forall n B B2 n2, getBallPosition fuel rand others n B = Some (B2, n2) ->
     exists k, (n <= k)%nat /\ n2 = S (S k) /\ B2 = drawn rand k (matrix B)) ->
  c = S (S n) ->
  scan fuel rand others rest c (drawn rand n m) = Some (BB', c') ->
  exists k, (n <= k)%nat /\ c' = S (S k) /\ BB' = drawn rand k m.
Proof.
  intros IH. revert c n. induction rest as [|o rest IHrest]; intros c n Hc H.
  - injection H as <- <-. exists n. auto.
  - rewrite scan_cons in H. destruct (touches _ _).
    + destruct (getBallPosition fuel rand others c (drawn rand n m)) as [[B2 n2]|] eqn:E;
        [|discriminate].
      destruct (IH _ _ _ _ E) as (k & Hk & -> & ->). cbn [drawn matrix] in H.
      destruct (IHrest _ k eq_refl H) as (k' & Hk' & -> & ->).
      exists k'. repeat split; auto. lia.
    + apply (IHrest _ _ Hc H).
Qed.

Lemma getBallPosition_drawn (fuel : nat) (rand : nat -> R) (others : list Mesh)
    (c c' : nat) (BB BB' : Mesh) :
  getBallPosition fuel rand others c BB = Some (BB', c') ->
  exists k, (c <= k)%nat /\ c' = S (S k) /\ BB' = drawn rand k (matrix BB).
Proof.
  revert c c' BB BB'. induction fuel as [|fuel IH]; intros c c' BB BB' H; [discriminate|].
  rewrite getBallPosition_S in H.
  apply (scan_drawn fuel rand others others _ _ _ _ c
           (fun n B B2 n2 E => IH n n2 B B2 E) eq_refl H).
Qed.

(** X18.  When [getBallPosition] returns, the mesh is the one drawn with
    two consecutive random numbers at or after the first unused one, the
    next unused number is the one after them, and the matrix of the mesh
    is untouched. *)
Theorem getBallPosition_is_a_draw (fuel : nat) (rand : nat -> R) (others : list Mesh)
    (c c' : nat) (BB BB' : Mesh) :
  getBallPosition fuel rand others c BB = Some (BB', c') ->
  exists k, (c <= k)%nat /\ c' = S (S k) /\ BB' = drawn rand k (matrix BB).
Proof. exact (getBallPosition_drawn fuel rand others c c' BB BB'). Qed.

Lemma scan_touch (fuel : nat) (rand : nat -> R) (others rest : list Mesh)
    (c n2 : nat) (BB B2 : Mesh) :
  clearOf BB rest = false ->
  incl rest others ->
  getBallPosition fuel rand others c BB = Some (B2, n2) ->
  clearOf B2 others = true ->
  scan fuel rand others rest c BB = Some (B2, n2).
Proof.
  induction rest as [|o rest IH]; intros H I E K; [discriminate|].
  rewrite scan_cons. cbn [clearOf forallb] in H.
  destruct (touches (position BB) (position o)).
  - rewrite E. apply scan_pass. apply (clearOf_incl _ rest others); [|exact K].
    intros a Ha. apply I. right. exact Ha.
  - cbn [negb andb] in H. apply IH; auto.
    intros a Ha. apply I. right. exact Ha.
Qed.

(** X19.  [getBallPosition] returns the first drawn position that is clear
    of the balls placed before: if the first [k] draws touch one of them
    and the next one touches none, then [k] nested calls are enough, the
    ball is at that draw, and [2 (k + 1)] random numbers are used. *)
Theorem getBallPosition_first_clear (k fuel : nat) (rand : nat -> R)
    (others : list Mesh) (c : nat) (BB : Mesh) :
  (forall j, (j < k)%nat -> clearOf (drawn rand (c + 2 * j) (matrix BB)) others = false) ->
  clearOf (drawn rand (c + 2 * k) (matrix BB)) others = true ->
  (k < fuel)%nat ->
  getBallPosition fuel rand others c BB =
  Some (drawn rand (c + 2 * k) (matrix BB), (c + 2 * k + 2)%nat).
Proof.
  revert fuel c BB. induction k as [|k IH]; intros fuel c BB Hbad Hgood Hf.
  - destruct fuel as [|fuel]; [lia|]. rewrite getBallPosition_S.
    replace (c + 2 * 0)%nat with c in * by lia.
    rewrite scan_pass by exact Hgood. f_equal. f_equal. lia.
  - destruct fuel as [|fuel]; [lia|]. rewrite getBallPosition_S.
    assert (E : getBallPosition fuel rand others (S (S c)) (drawn rand c (matrix BB)) =
                Some (drawn rand (c + 2 * S k) (matrix BB), (c + 2 * S k + 2)%nat)).
    { replace (c + 2 * S k)%nat with (S (S c) + 2 * k)%nat by lia.
      apply (IH fuel (S (S c)) (drawn rand c (matrix BB))); cbn [drawn matrix].
      - intros j Hj. replace (S (S c) + 2 * j)%nat with (c + 2 * S j)%nat by lia.
        apply Hbad. lia.
      - replace (S (S c) + 2 * k)%nat with (c + 2 * S k)%nat by lia. exact Hgood.
      - lia. }
    apply scan_touch; [|apply incl_refl|exact E|exact Hgood].
    specialize (Hbad 0%nat ltac:(lia)). replace (c + 2 * 0)%nat with c in Hbad by lia.
    exact Hbad.
Qed.

Lemma js_rem_small (a b : R) : (0 <= a < b)%R -> js_rem a b = a.
Proof.
  intros [Ha Hb]. unfold js_rem, trunc.
  assert (Hq : (0 <= a / b < 1)%R).
  { split.
    - apply Rmult_le_pos; [exact Ha|]. apply Rlt_le, Rinv_0_lt_compat. lra.
    - apply Rmult_lt_reg_r with b; [lra|]. field_simplify; lra. }
  destruct (Rlt_dec (a / b) 0) as [Hn|_]; [lra|].
  rewrite (Zfloor_eq 0 (a / b)) by (cbn; lra). cbn. ring.
Qed.

Lemma js_rem_bound (a b : R) : (0 < b)%R -> (Rabs (js_rem a b) < b)%R.
Proof.
  intros Hb. unfold js_rem, trunc.
  assert (E : (a = b * (a / b))%R) by (field; lra).
  set (q := (a / b)%R) in *. clearbody q.
  destruct (Rlt_dec q 0) as [Hn|Hp].
  - unfold Zceil. pose proof (Zfloor_bound (- q)) as [F1 F2].
    rewrite opp_IZR. set (f := IZR (Zfloor (- q))) in *.
    assert (K : (- 1 < q + f <= 0)%R) by lra.
    replace (a - b * - f)%R with (b * (q + f))%R by lra.
    apply Rabs_def1; nra.
  - pose proof (Zfloor_bound q) as [F1 F2]. set (f := IZR (Zfloor q)) in *.
    assert (K : (0 <= q - f < 1)%R) by lra.
    replace (a - b * f)%R with (b * (q - f))%R by lra.
    apply Rabs_def1; nra.
Qed.

Lemma drawn_position (rand : nat -> R) (n : nat) (m : Matrix4) :
  position (drawn rand n m) =
  Vec3 (Fin (js_rem ((rand n - 0.5) * 100) 4.8))
       (Fin (js_rem ((rand (S n) - 0.5) * 100) 2.3))
       (Fin restingPlane).
Proof.
  unfold drawn. cbn [position].
  rewrite halfWidth_eq, halfHeight_eq. cbn [num_sub num_mul num_rem tableWidth defaultSettings].
  destruct (Req_dec_T 4.8 0) as [E|_]; [lra|].
  destruct (Req_dec_T 2.3 0) as [E|_]; [lra|].
  reflexivity.
Qed.

Lemma drawn_inside (rand : nat -> R) (n : nat) (m : Matrix4) : inside (drawn rand n m).
Proof.
  unfold inside. rewrite drawn_position. eexists _, _. split; [reflexivity|].
  split; apply js_rem_bound; lra.
Qed.

Lemma inside_finiteV (b : Mesh) : inside b -> finiteV (position b).
Proof. intros (px & py & -> & _). unfold finiteV. cbn. tauto. Qed.

Lemma apart_snoc (l : list Mesh) (b : Mesh) :
  apart l -> Forall inside l -> inside b -> clearOf b l = true -> apart (l ++ [b]).
Proof.
  intros A I Ib C i j [Hij Hj]. rewrite length_app in Hj. cbn in Hj.
  destruct (Nat.eq_dec j (List.length l)) as [->|Hne].
  - rewrite app_nth1 by lia. rewrite app_nth2, Nat.sub_diag by lia. cbn [nth].
    assert (Hin : In (nth i l noMesh) l) by (apply nth_In; lia).
    rewrite touches_sym.
    + unfold clearOf in C. rewrite forallb_forall in C.
      apply negb_true_iff, C, Hin.
    + apply inside_finiteV. rewrite Forall_forall in I. apply I, Hin.
    + apply inside_finiteV, Ib.
  - rewrite !app_nth1 by lia. apply A. lia.
Qed.

Lemma createBilliardBalls_from_apart (fuel : nat) (rand : nat -> R) (k c : nat)
    (placed : list Mesh) (vels : list Vector3) (created : list Mesh * list Vector3) :
  apart placed -> Forall inside placed ->
  createBilliardBalls_from fuel rand k c placed vels = Some created ->
  apart (fst created) /\ Forall inside (fst created).
Proof.
  revert c placed vels. induction k as [|k IH]; intros c placed vels A I H.
  - injection H as <-. split; assumption.
  - cbn [createBilliardBalls_from] in H.
    destruct (getBallPosition fuel rand placed c (mkMesh zero identity)) as [[BB c']|] eqn:E;
      [|discriminate].
    assert (Ib : inside BB).
    { destruct (getBallPosition_drawn _ _ _ _ _ _ _ E) as (n & _ & _ & ->).
      apply drawn_inside. }
    apply IH in H; [exact H| |].
    + apply apart_snoc; auto. apply (getBallPosition_clearOf _ _ _ _ _ _ _ E).
    + apply Forall_app. split; [exact I|]. constructor; [exact Ib|constructor].
Qed.

Lemma createBilliardBalls_from_identity (fuel : nat) (rand : nat -> R) (k c : nat)
    (placed : list Mesh) (vels : list Vector3) (created : list Mesh * list Vector3) :
  Forall (fun b => matrix b = identity) placed ->
  createBilliardBalls_from fuel rand k c placed vels = Some created ->
  Forall (fun b => matrix b = identity) (fst created).
Proof.
  revert c placed vels. induction k as [|k IH]; intros c placed vels I H.
  - injection H as <-. exact I.
  - cbn [createBilliardBalls_from] in H.
    destruct (getBallPosition fuel rand placed c (mkMesh zero identity)) as [[BB c']|] eqn:E;
      [|discriminate].
    apply IH in H; [exact H|].
    apply Forall_app. split; [exact I|]. constructor; [|constructor].
    destruct (getBallPosition_drawn _ _ _ _ _ _ _ E) as (n & _ & _ & ->). reflexivity.
Qed.

(** The meshes that [createBilliardBalls] leaves have the identity for
    matrix: the first state of a run has finite matrices. *)
Lemma start_finiteMeshes (fuel : nat) (rand : nat -> R) (t : Z)
    (created : list Mesh * list Vector3) :
  createBilliardBalls fuel rand = Some created -> finiteMeshes (start t created).
Proof.
  intros H. unfold createBilliardBalls in H.
  apply createBilliardBalls_from_identity in H; [|constructor].
  intros j Hj. unfold start, ballAt in *. cbn [balls] in *.
  rewrite Forall_forall in H. rewrite (H (nth j (fst created) noMesh)) by (apply nth_In, Hj).
  exact identity_finiteM.
Qed.

Lemma createBilliardBalls_from_length (fuel : nat) (rand : nat -> R) (k c : nat)
    (placed : list Mesh) (vels : list Vector3) (created : list Mesh * list Vector3) :
  createBilliardBalls_from fuel rand k c placed vels = Some created ->
  List.length (fst created) = (List.length placed + k)%nat /\
  List.length (snd created) = (List.length vels + k)%nat.
Proof.
  revert c placed vels. induction k as [|k IH]; intros c placed vels H.
  - injection H as <-. cbn [fst snd]. lia.
  - cbn [createBilliardBalls_from] in H.
    destruct (getBallPosition fuel rand placed c (mkMesh zero identity)) as [[BB c']|];
      [|discriminate].
    apply IH in H. rewrite !length_app in H. cbn in H. lia.
Qed.

Lemma createBilliardBalls_from_launched (fuel : nat) (rand : nat -> R) (k c : nat)
    (placed : list Mesh) (vels : list Vector3) (created : list Mesh * list Vector3) :
  (forall n, 0 <= rand n < 1)%R ->
  Forall launched vels ->
  createBilliardBalls_from fuel rand k c placed vels = Some created ->
  Forall launched (snd created).
Proof.
  intros Hr. revert c placed vels. induction k as [|k IH]; intros c placed vels V H.
  - injection H as <-. exact V.
  - cbn [createBilliardBalls_from] in H.
    destruct (getBallPosition fuel rand placed c (mkMesh zero identity)) as [[BB c']|];
      [|discriminate].
    apply IH in H; [exact H|].
    apply Forall_app. split; [exact V|]. constructor; [|constructor].
    unfold launched, getBallVelocity. cbn [num_sub num_mul].
    eexists _, _. split; [reflexivity|].
    pose proof (Hr c'). pose proof (Hr (S c')). lra.
Qed.

Lemma getBallPosition_first (fuel : nat) (rand : nat -> R) (others : list Mesh)
    (c : nat) (BB : Mesh) :
  (0 < fuel)%nat ->
  clearOf (drawn rand c (matrix BB)) others = true ->
  getBallPosition fuel rand others c BB = Some (drawn rand c (matrix BB), S (S c)).
Proof.
  intros Hf H. destruct fuel as [|fuel]; [lia|].
  rewrite getBallPosition_S. apply scan_pass, H.
Qed.

Lemma firstDraws_S (rand : nat -> R) (c k : nat) :
  firstDraws rand c (S k) = drawn rand c identity :: firstDraws rand (c + 4) k.
Proof.
  unfold firstDraws. cbn [seq map]. rewrite <- seq_shift, map_map.
  replace (c + 4 * 0)%nat with c by lia. f_equal.
  apply map_ext. intros j. f_equal. lia.
Qed.

Lemma firstVelocities_S (rand : nat -> R) (c k : nat) :
  firstVelocities rand c (S k) =
  getBallVelocity rand (c + 2) :: firstVelocities rand (c + 4) k.
Proof.
  unfold firstVelocities. cbn [seq map]. rewrite <- seq_shift, map_map.
  replace (c + 4 * 0 + 2)%nat with (c + 2)%nat by lia. f_equal.
  apply map_ext. intros j. f_equal. lia.
Qed.

Lemma firstDraws_snoc (rand : nat -> R) (c k : nat) :
  firstDraws rand c (S k) = firstDraws rand c k ++ [drawn rand (c + 4 * k) identity].
Proof. unfold firstDraws. rewrite seq_S, map_app. reflexivity. Qed.

Lemma createBilliardBalls_from_first (fuel : nat) (rand : nat -> R) (k c : nat)
    (placed : list Mesh) (vels : list Vector3) :
  (0 < fuel)%nat ->
  (forall i, (i < k)%nat ->
     clearOf (drawn rand (c + 4 * i) identity) (placed ++ firstDraws rand c i) = true) ->
  createBilliardBalls_from fuel rand k c placed vels =
  Some (placed ++ firstDraws rand c k, vels ++ firstVelocities rand c k).
Proof.
  intros Hf. revert c placed vels. induction k as [|k IH]; intros c placed vels H.
  - cbn. rewrite !app_nil_r. reflexivity.
  - cbn [createBilliardBalls_from].
    rewrite (getBallPosition_first fuel rand placed c (mkMesh zero identity) Hf).
    2:{ specialize (H 0%nat ltac:(lia)). cbn [matrix].
        replace (c + 4 * 0)%nat with c in H by lia.
        unfold firstDraws in H. cbn [seq map] in H. rewrite app_nil_r in H. exact H. }
    cbn [matrix]. rewrite firstDraws_S, firstVelocities_S.
    replace (S (S (S (S c)))) with (c + 4)%nat by lia.
    replace (S (S c)) with (c + 2)%nat by lia.
    rewrite IH.
    + rewrite <- !app_assoc. reflexivity.
    + intros i Hi. specialize (H (S i) ltac:(lia)).
      rewrite firstDraws_S in H. rewrite <- app_assoc. cbn [app].
      replace (c + 4 + 4 * i)%nat with (c + 4 * S i)%nat by lia. exact H.
Qed.

(** X20.  [createBilliardBalls], when it returns, leaves [nrOfBalls] balls
    and as many velocities; no two of the balls touch, and every centre is
    strictly between the cushions at the resting height, whatever the
    random numbers are. *)
Theorem createBilliardBalls_apart (fuel : nat) (rand : nat -> R)
    (created : list Mesh * list Vector3) :
  createBilliardBalls fuel rand = Some created ->
  List.length (fst created) = nrOfBalls defaultSettings /\
  List.length (snd created) = nrOfBalls defaultSettings /\
  apart (fst created) /\
  Forall inside (fst created).
Proof.
  intros H. unfold createBilliardBalls in H.
  destruct (createBilliardBalls_from_length _ _ _ _ _ _ _ H) as [L1 L2].
  assert (A0 : apart []) by (intros i j [_ K]; cbn in K; lia).
  destruct (createBilliardBalls_from_apart _ _ _ _ _ _ _ A0 (Forall_nil _) H) as [A I].
  cbn [List.length Nat.add] in L1, L2. auto.
Qed.

(** X21.  With random numbers in [0, 1), every velocity that
    [createBilliardBalls] leaves is horizontal with both components in
    [-3, 3). *)
Theorem createBilliardBalls_launched (fuel : nat) (rand : nat -> R)
    (created : list Mesh * list Vector3) :
  (forall n, 0 <= rand n < 1)%R ->
  createBilliardBalls fuel rand = Some created ->
  Forall launched (snd created).
Proof.
  intros Hr H. unfold createBilliardBalls in H.
  apply (createBilliardBalls_from_launched _ _ _ _ _ _ _ Hr (Forall_nil _) H).
Qed.

(** X22.  When no drawn position touches a ball placed before,
    [createBilliardBalls] returns (one call of [getBallPosition] for each
    ball, none nested) and uses four random numbers for each ball, in the
    order x, y, velocity x, velocity y. *)
Theorem createBilliardBalls_first_draws (fuel : nat) (rand : nat -> R) :
  (0 < fuel)%nat ->
  (forall i, (i < nrOfBalls defaultSettings)%nat ->
     clearOf (drawn rand (4 * i) identity) (firstDraws rand 0 i) = true) ->
  createBilliardBalls fuel rand =
  Some (firstDraws rand 0 (nrOfBalls defaultSettings),
        firstVelocities rand 0 (nrOfBalls defaultSettings)).
Proof.
  intros Hf H. unfold createBilliardBalls.
  generalize dependent (nrOfBalls defaultSettings). intros k H.
  rewrite (createBilliardBalls_from_first fuel rand k 0 [] [] Hf); [reflexivity|].
  intros i Hi. cbn [app Nat.add]. apply H, Hi.
Qed.

(* ------------------------------------------------------------------ *)
(** ** Instances of the properties of the first positions *)

Lemma INR_below (n m : nat) (b : R) :
  (n < m)%nat -> IZR (Z.of_nat m) = b -> (0 <= INR n <= b - 1)%R.
Proof.
  intros H <-. split; [apply pos_INR|].
  rewrite <- INR_IZR_INZ. assert (K : (S n <= m)%nat) by lia.
  apply le_INR in K. rewrite S_INR in K. lra.
Qed.

Lemma rand0_range (n : nat) : (0 <= rand0 n < 1)%R.
Proof.
  unfold rand0.
  pose proof (INR_below (n mod 32) 32 32 (Nat.mod_upper_bound n 32 ltac:(lia)) eq_refl) as H.
  lra.
Qed.

Lemma rand0_x (n : nat) (m : Matrix4) :
  (n < 32)%nat -> x (position (drawn rand0 n m)) = Fin (INR n / 8).
Proof.
  intros H. rewrite drawn_position. cbn [x]. f_equal.
  unfold rand0. rewrite Nat.mod_small by exact H.
  pose proof (INR_below n 32 32 H eq_refl) as K.
  replace ((0.5 + INR n / 800 - 0.5) * 100)%R with (INR n / 8)%R by field.
  apply js_rem_small. lra.
Qed.

Lemma rand0_y (n : nat) (m : Matrix4) :
  (S n < 18)%nat -> y (position (drawn rand0 n m)) = Fin (INR (S n) / 8).
Proof.
  intros H. rewrite drawn_position. cbn [y]. f_equal.
  unfold rand0. rewrite Nat.mod_small by lia.
  pose proof (INR_below (S n) 18 18 H eq_refl) as K.
  replace ((0.5 + INR (S n) / 800 - 0.5) * 100)%R with (INR (S n) / 8)%R by field.
  apply js_rem_small. lra.
Qed.

Lemma rand0_position (n : nat) (m : Matrix4) :
  (S n < 18)%nat ->
  position (drawn rand0 n m) = Vec3 (Fin (INR n / 8)) (Fin (INR (S n) / 8)) (Fin restingPlane).
Proof.
  intros H. pose proof (rand0_x n m ltac:(lia)) as X. pose proof (rand0_y n m H) as Y.
  rewrite drawn_position in *. cbn [x y] in X, Y. rewrite X, Y. reflexivity.
Qed.

Lemma drawn_shape (rand : nat -> R) (n : nat) (m : Matrix4) :
  exists py, position (drawn rand n m) =
             Vec3 (x (position (drawn rand n m))) (Fin py) (Fin restingPlane).
Proof. rewrite drawn_position. eexists. reflexivity. Qed.

(** Two of the example draws whose first random numbers are at least four
    apart do not touch. *)
Lemma rand0_far (n n' : nat) (m m' : Matrix4) :
  (n' + 4 <= n < 32)%nat ->
  touches (position (drawn rand0 n m)) (position (drawn rand0 n' m')) = false.
Proof.
  intros H.
  destruct (drawn_shape rand0 n m) as [py E]. destruct (drawn_shape rand0 n' m') as [py' E'].
  rewrite E, E', !rand0_x by lia. unfold touches. rewrite contact_fin.
  assert (K : (INR n' + 4 <= INR n)%R).
  { replace 4%R with (INR 4) by (rewrite INR_IZR_INZ; reflexivity). rewrite <- plus_INR. apply le_INR. lia. }
  destruct (Rlt_dec _ _) as [L|_]; [exfalso|reflexivity].
  unfold sqdist in L. revert K L. generalize (INR n) (INR n'). intros u u' K L.
  pose proof (Rle_0_sqr (py - py')) as S1. unfold Rsqr in S1.
  assert (S2 : (0.25 <= (u / 8 - u' / 8) * (u / 8 - u' / 8))%R) by nra.
  lra.
Qed.

Lemma rand0_clear (i : nat) :
  (i < nrOfBalls defaultSettings)%nat ->
  clearOf (drawn rand0 (4 * i) identity) (firstDraws rand0 0 i) = true.
Proof.
  cbn [nrOfBalls defaultSettings]. intros Hi.
  unfold clearOf, firstDraws. rewrite forallb_forall. intros o Ho.
  apply in_map_iff in Ho. destruct Ho as (j & <- & Hj). apply in_seq in Hj.
  apply negb_true_iff, rand0_far. lia.
Qed.

Lemma rand0_touch_0 :
  clearOf (drawn rand0 0 identity) [drawn rand0 0 identity] = false.
Proof.
  cbn [clearOf forallb]. destruct (drawn_shape rand0 0 identity) as [py E].
  rewrite E, rand0_x by lia. unfold touches. rewrite contact_fin.
  destruct (Rlt_dec _ _) as [_|L]; [reflexivity|exfalso].
  apply L. unfold sqdist. nra.
Qed.

Lemma rand0_touch_2 :
  clearOf (drawn rand0 2 identity) [drawn rand0 0 identity] = false.
Proof.
  cbn [clearOf forallb].
  rewrite (rand0_position 2 identity), (rand0_position 0 identity) by lia.
  unfold touches. rewrite contact_fin.
  destruct (Rlt_dec _ _) as [_|L]; [reflexivity|exfalso].
  apply L. unfold sqdist. rewrite !INR_IZR_INZ. cbn [Z.of_nat Pos.of_succ_nat Pos.succ]. lra.
Qed.

Lemma rand0_clear_4 :
  clearOf (drawn rand0 4 identity) [drawn rand0 0 identity] = true.
Proof. exact (rand0_clear 1 ltac:(cbn; lia)). Qed.

Lemma rand0_second :
  getBallPosition 1 rand0 [drawn rand0 0 identity] 4 (mkMesh zero identity) =
  Some (drawn rand0 4 identity, 6%nat).
Proof. apply getBallPosition_first; [lia|exact rand0_clear_4]. Qed.

Lemma rand0_created :
  createBilliardBalls 1 rand0 =
  Some (firstDraws rand0 0 (nrOfBalls defaultSettings),
        firstVelocities rand0 0 (nrOfBalls defaultSettings)).
Proof.
  unfold createBilliardBalls. generalize rand0_clear.
  generalize (nrOfBalls defaultSettings). intros k H.
  rewrite (createBilliardBalls_from_first 1 rand0 k 0 [] []); [reflexivity|lia|].
  intros i Hi. cbn [app Nat.add]. apply H, Hi.
Qed.

Lemma getBallPosition_touches_none_witness :
  touches (position (drawn rand0 4 identity)) (position (drawn rand0 0 identity)) = false.
Proof.
  apply (getBallPosition_touches_none 1 rand0 [drawn rand0 0 identity] 4 6
           (mkMesh zero identity) (drawn rand0 4 identity) (drawn rand0 0 identity)).
  - exact rand0_second.
  - left. reflexivity.
Defined.

Lemma getBallPosition_is_a_draw_witness :
  exists k, (4 <= k)%nat /\ 6%nat = S (S k) /\
            drawn rand0 4 identity = drawn rand0 k (matrix (mkMesh zero identity)).
Proof.
  apply (getBallPosition_is_a_draw 1 rand0 [drawn rand0 0 identity] 4 6
           (mkMesh zero identity) (drawn rand0 4 identity)).
  exact rand0_second.
Defined.

Lemma getBallPosition_first_clear_witness :
  getBallPosition 3 rand0 [drawn rand0 0 identity] 0 (mkMesh zero identity) =
  Some (drawn rand0 (0 + 2 * 2) (matrix (mkMesh zero identity)), (0 + 2 * 2 + 2)%nat).
Proof.
  apply (getBallPosition_first_clear 2 3 rand0 [drawn rand0 0 identity] 0
           (mkMesh zero identity)).
  - intros j Hj. destruct j as [|[|j]]; [exact rand0_touch_0|exact rand0_touch_2|lia].
  - exact rand0_clear_4.
  - lia.
Defined.

Lemma createBilliardBalls_apart_witness :
  let created := (firstDraws rand0 0 (nrOfBalls defaultSettings),
                  firstVelocities rand0 0 (nrOfBalls defaultSettings)) in
  List.length (fst created) = nrOfBalls defaultSettings /\
  List.length (snd created) = nrOfBalls defaultSettings /\
  apart (fst created) /\
  Forall inside (fst created).
Proof. apply (createBilliardBalls_apart 1 rand0). exact rand0_created. Defined.

Lemma createBilliardBalls_launched_witness :
  Forall launched
    (snd (firstDraws rand0 0 (nrOfBalls defaultSettings),
          firstVelocities rand0 0 (nrOfBalls defaultSettings))).
Proof.
  apply (createBilliardBalls_launched 1 rand0).
  - exact rand0_range.
  - exact rand0_created.
Defined.

Lemma createBilliardBalls_first_draws_witness :
  createBilliardBalls 1 rand0 =
  Some (firstDraws rand0 0 (nrOfBalls defaultSettings),
        firstVelocities rand0 0 (nrOfBalls defaultSettings)).
Proof.
  apply (createBilliardBalls_first_draws 1 rand0).
  - lia.
  - exact rand0_clear.
Defined.
